(** * HeaderGuard: the header acquisition engine, the header preprocessor
      and the structured-output recovery parser

    A shallow embedding of [src/workers/utils.ts],
    [src/workers/header-processor.ts], [src/workers/analyzer.ts] from the call
    of the model binding on, and the routes of [src/workers/app.ts], with the
    properties the specification states about them and further properties of
    the code.

    Conventions of the embedding.
    - A JavaScript string is the list of its UTF-16 code units ([list N]).
    - A plain object used as a dictionary ([Record<string, string>]) is a
      [gmap] from strings to strings; a value [JSON.parse] returns is a tree
      ([Json.json]) whose objects list their properties in order.
    - A number of a JSON text is kept as its exact decimal value;
      [Number::toString] is the ECMAScript algorithm on that value.
    - [new URL(url)] is the platform's: the engine is modelled from the parsed
      URL on.
    - [await fetch(...)] is a call to a network oracle; the probes made are
      logged, a transport failure is an exception.
    - The model binding and the key-value store are oracles too; what a
      route read, probed, asked and wrote is returned with its reply.
    - [throw] and [try ... catch] are a sum type.
    - [JSON.parse] is a recursive-descent parser with fuel;
      [JsonSpec.parse_fuel] shows that the fuel it is given is never used
      up. *)

From Stdlib Require Import ZArith NArith List String Ascii Bool Lia.
From Stdlib Require DecimalZ.
From stdpp Require Import gmap.
Import ListNotations.

Local Open Scope N_scope.
Local Open Scope list_scope.

(** ** JavaScript strings *)

Module JS.

(** A string value: its code units. *)
Abbreviation jsstring := (list N).

(** A string literal of the source (ASCII). *)
Fixpoint lit (s : String.string) : jsstring :=
  match s with
  | EmptyString => []
  | String c s' => N_of_ascii c :: lit s'
  end.

(** Source literals that hold a double quote are written with a single quote
    in its place; [dq] puts the double quotes (code unit 34) back. *)
Definition dq (s : String.string) : jsstring :=
  map (fun c => if c =? 39 then 34 else c) (lit s).

Arguments lit _%_string.
Arguments dq _%_string.

Definition streq (a b : jsstring) : bool := bool_decide (a = b).

(** [String.prototype.startsWith]. *)
Fixpoint startsWith (p s : jsstring) : bool :=
  match p, s with
  | [], _ => true
  | c :: p', d :: s' => (c =? d) && startsWith p' s'
  | _ :: _, [] => false
  end.

(** [String.prototype.endsWith]. *)
Definition endsWith (p s : jsstring) : bool :=
  startsWith (rev p) (rev s).

(** [String.prototype.includes]. *)
Fixpoint includes (p s : jsstring) : bool :=
  startsWith p s ||
  match s with
  | [] => false
  | _ :: s' => includes p s'
  end.

(** ECMAScript WhiteSpace and LineTerminator code units: what
    [String.prototype.trim] removes and what [\s] matches. *)
Definition isWhiteSpace (c : N) : bool :=
  ((9 <=? c) && (c <=? 13)) || (c =? 32) || (c =? 160) || (c =? 5760)
  || ((8192 <=? c) && (c <=? 8202)) || (c =? 8232) || (c =? 8233)
  || (c =? 8239) || (c =? 8287) || (c =? 12288) || (c =? 65279).

Fixpoint trimStart (s : jsstring) : jsstring :=
  match s with
  | c :: s' => if isWhiteSpace c then trimStart s' else s
  | [] => []
  end.

(** No white space at the start. *)
Definition headOk (s : jsstring) : Prop :=
  match s with
  | [] => True
  | c :: _ => isWhiteSpace c = false
  end.

Definition trimEnd (s : jsstring) : jsstring := rev (trimStart (rev s)).

(** [String.prototype.trim]. *)
Definition trim (s : jsstring) : jsstring := trimEnd (trimStart s).

Definition isUpperAZ (c : N) : bool := (65 <=? c) && (c <=? 90).
Definition isLowerAZ (c : N) : bool := (97 <=? c) && (c <=? 122).
Definition isDigit (c : N) : bool := (48 <=? c) && (c <=? 57).
Definition isLetter (c : N) : bool := isUpperAZ c || isLowerAZ c.

(** [String.prototype.toLowerCase] on one code unit.  The strings it is
    applied to in the source are URL paths (ASCII) and header names and values,
    which [fetch] delivers as byte strings: the mapping is the one of the
    Latin-1 range, and a code unit above 255 is left as it is. *)
Definition lowerUnit (c : N) : N :=
  if isUpperAZ c then c + 32
  else if (192 <=? c) && (c <=? 222) && negb (c =? 215) then c + 32
  else c.

Definition toLowerCase (s : jsstring) : jsstring := map lowerUnit s.

(** The longest prefix of [s] whose units satisfy [f], and the rest. *)
Fixpoint spanUnits (f : N -> bool) (s : jsstring) : jsstring * jsstring :=
  match s with
  | c :: s' =>
      if f c then let '(a, b) := spanUnits f s' in (c :: a, b) else ([], s)
  | [] => ([], [])
  end.

(** The decimal digits of an unsigned decimal numeral, as code units, and
    back. *)
Fixpoint digitsOfUint (u : Decimal.uint) : jsstring :=
  match u with
  | Decimal.Nil => []
  | Decimal.D0 u' => 48 :: digitsOfUint u'
  | Decimal.D1 u' => 49 :: digitsOfUint u'
  | Decimal.D2 u' => 50 :: digitsOfUint u'
  | Decimal.D3 u' => 51 :: digitsOfUint u'
  | Decimal.D4 u' => 52 :: digitsOfUint u'
  | Decimal.D5 u' => 53 :: digitsOfUint u'
  | Decimal.D6 u' => 54 :: digitsOfUint u'
  | Decimal.D7 u' => 55 :: digitsOfUint u'
  | Decimal.D8 u' => 56 :: digitsOfUint u'
  | Decimal.D9 u' => 57 :: digitsOfUint u'
  end.

Fixpoint uintOfDigits (s : jsstring) : Decimal.uint :=
  match s with
  | [] => Decimal.Nil
  | c :: s' =>
      let u := uintOfDigits s' in
      if c =? 48 then Decimal.D0 u else if c =? 49 then Decimal.D1 u
      else if c =? 50 then Decimal.D2 u else if c =? 51 then Decimal.D3 u
      else if c =? 52 then Decimal.D4 u else if c =? 53 then Decimal.D5 u
      else if c =? 54 then Decimal.D6 u else if c =? 55 then Decimal.D7 u
      else if c =? 56 then Decimal.D8 u else Decimal.D9 u
  end.

(** [String(n)] for an integer. *)
Definition ofZ (z : Z) : jsstring :=
  match Z.to_int z with
  | Decimal.Pos u => digitsOfUint u
  | Decimal.Neg u => 45 :: digitsOfUint u
  end.

Definition ofNat (n : nat) : jsstring := ofZ (Z.of_nat n).

End JS.
Import JS.

(** ** [src/workers/utils.ts]: URL normalisation *)

Module Utils.

(** Case-insensitive comparison of a code unit with an ASCII letter of a
    regular expression under the [i] flag. *)
Definition eqi (c : N) (l : N) : bool := (c =? l) || (c =? l - 32).

(** The regular expression [/^https?:\/\//i], tested at the start. *)
Definition matchesScheme (s : jsstring) : bool :=
  match s with
  | h :: t1 :: t2 :: p :: r =>
      eqi h 104 && eqi t1 116 && eqi t2 116 && eqi p 112 &&
      (match r with
       | x :: r' => (eqi x 115 && startsWith (lit "://") r') || startsWith (lit "://") r
       | [] => false
       end)
  | _ => false
  end.

(** The class [[a-zA-Z0-9-]]. *)
Definition isDomainUnit (c : N) : bool := isLetter c || isDigit c || (c =? 45).

(** The regular-expression dot: any code unit but a line terminator. *)
Definition isDot (c : N) : bool :=
  negb ((c =? 10) || (c =? 13) || (c =? 8232) || (c =? 8233)).

(** [baredomainPattern]: at the start one or more units of [[a-zA-Z0-9-]], a
    dot, two or more letters, then optionally a slash followed by any run of
    units the regular-expression dot matches, then the end of the input.  No
    class overlaps what follows it, so each greedy run is the longest one. *)
Definition baredomainPattern (s : jsstring) : bool :=
  let '(label, r1) := spanUnits isDomainUnit s in
  match label, r1 with
  | _ :: _, 46 :: r2 =>
      let '(tld, r3) := spanUnits isLetter r2 in
      (2 <=? length tld)%nat &&
      match r3 with
      | [] => true
      | 47 :: r4 => forallb isDot r4
      | _ => false
      end
  | _, _ => false
  end.

Definition normalizeUrl (url : jsstring) : jsstring :=
  let trimmed := trim url in
  if matchesScheme trimmed then trimmed
  else
    let trimmed :=
      if baredomainPattern trimmed then
        if negb (startsWith (lit "www.") trimmed) then lit "www." ++ trimmed
        else trimmed
      else trimmed in
    lit "https://" ++ trimmed.

Definition getCacheKey (url : jsstring) : jsstring :=
  lit "header-analysis:" ++ normalizeUrl url.

(** *** Responses and header objects *)

(** What a probe answers: the fields of [Response] the source reads.
    [resHeaders] is the [Headers] object, as the pairs [forEach] visits. *)
Record Response := mkResponse {
  status : Z;
  statusText : jsstring;
  resHeaders : list (jsstring * jsstring)
}.

(** [result[key] = value] on a plain object.  The name [__proto__] is the
    accessor of [Object.prototype]: assigning a string to it defines no
    property. *)
Definition setProperty (key value : jsstring) (o : gmap jsstring jsstring)
  : gmap jsstring jsstring :=
  if streq key (lit "__proto__") then o else <[key := value]> o.

Definition headersToObject (headers : list (jsstring * jsstring))
  : gmap jsstring jsstring :=
  fold_left (fun result kv => setProperty (toLowerCase (fst kv)) (snd kv) result)
            headers ∅.

(** [Object.keys(headers).length]. *)
Definition headerCount (headers : gmap jsstring jsstring) : nat := size headers.

(** [headers[name]] read for its truth value: defined and not empty. *)
Definition truthy (v : option jsstring) : bool :=
  match v with
  | Some (_ :: _) => true
  | _ => false
  end.

(** [headers[name] || null]. *)
Definition orNull (v : option jsstring) : option jsstring :=
  if truthy v then v else None.

(** *** The parsed URL *)

(** The fields of [new URL(url)] the source reads.  The WHATWG parser itself is
    the platform's; a string it rejects makes [fetchWithSmartFallback] throw
    before anything below runs.  [href] is [toString()]. *)
Record URL := mkURL {
  protocol : jsstring;
  origin : jsstring;
  pathname : jsstring;
  href : jsstring
}.

(** [isValidUrl]: [parseURL] is the platform's [new URL], [None] when it
    throws. *)
Definition isValidUrl (parseURL : jsstring -> option URL) (url : jsstring) : bool :=
  match parseURL url with
  | Some parsed =>
      streq (protocol parsed) (lit "http:") || streq (protocol parsed) (lit "https:")
  | None => false
  end.

(** [new URL(path, normalizedUrl.origin)] for an absolute [path], as its
    [toString()].  The [origin] of a URL is its scheme, [://], its host and
    its port when the scheme is http, https, ws, wss or ftp, and the text
    [null] otherwise (an opaque origin: [file:], [data:] and the like).  The
    text [null] is no base URL: with it the constructor throws a [TypeError],
    which is [None] here.  With the origin of another URL it builds the URL of
    the path on that origin. *)
Definition retryUrl (path : jsstring) (u : URL) : option jsstring :=
  if streq (origin u) (lit "null") then None else Some (origin u ++ path).

Definition assetExtensions : list jsstring :=
  [lit ".png"; lit ".jpg"; lit ".jpeg"; lit ".gif"; lit ".webp"; lit ".svg";
   lit ".ico"; lit ".css"; lit ".js"; lit ".json"; lit ".xml"; lit ".pdf";
   lit ".woff"; lit ".woff2"; lit ".ttf"; lit ".eot"].

Definition isAssetURL (url : URL) : option jsstring :=
  let pathname := toLowerCase (pathname url) in
  List.find (fun ext => endsWith ext pathname) assetExtensions.

Definition isBotProtectionResponse
    (headers : gmap jsstring jsstring) (statusCode : Z) : option jsstring :=
  if match headers !! lit "server" with
     | Some v => streq (toLowerCase v) (lit "cloudflare")
     | None => false
     end && truthy (headers !! lit "cf-chl-bypass")
  then Some (lit "Cloudflare Challenge")
  else if (statusCode =? 429)%Z then Some (lit "Rate Limited (429)")
  else if (statusCode =? 503)%Z
  then Some (lit "Service Unavailable (503) - Possible WAF/bot protection")
  else if match headers !! lit "server" with
          | Some v => includes (lit "akamaighost") (toLowerCase v)
          | None => false
          end
  then Some (lit "Akamai Bot Protection")
  else None.

(** *** The outcome of a classification *)

(** [FetchResult]: one constructor per interface of the union. *)
Inductive FetchResult :=
| CDNDetectionResult (detectedServer : jsstring) (headerCount : nat) (message : jsstring)
| HTTPOnlyWarning (message : jsstring)
| AssetURLWarning (extension : jsstring) (message : jsstring)
| Non200StatusWarning (statusCode : Z) (statusText : jsstring) (message : jsstring)
| BotProtectionWarning (detectedType : jsstring) (message : jsstring)
| SuccessfulFetchResult (response : Response) (headers : gmap jsstring jsstring)
                        (contentType : option jsstring).

(** *** Probes *)

(** The network: what the [n]-th probe of a request (counted from 0) gets
    when it asks for a URL.  [None] is a transport failure (DNS, connection,
    timeout): [fetch] rejects. *)
Definition Net := nat -> jsstring -> option Response.

Inductive exn :=
| TransportError (url : jsstring).

(** A computation that probes: it reads the network, appends the URLs it asks
    for to the log of probes, and returns a value or throws. *)
Definition Fetch (A : Type) : Type :=
  Net -> list jsstring -> (exn + A) * list jsstring.

Definition ret {A} (a : A) : Fetch A := fun _ log => (inr a, log).

Definition bind {A B} (m : Fetch A) (k : A -> Fetch B) : Fetch B :=
  fun net log =>
    match m net log with
    | (inr a, log') => k a net log'
    | (inl e, log') => (inl e, log')
    end.

(** [try { m } catch (error) { h }]. *)
Definition tryCatch {A} (m : Fetch A) (h : exn -> Fetch A) : Fetch A :=
  fun net log =>
    match m net log with
    | (inr a, log') => (inr a, log')
    | (inl e, log') => h e net log'
    end.

(** [await fetch(url, { method: "HEAD", headers: headersToSend, redirect:
    "follow", signal: AbortSignal.timeout(10000) })]. *)
Definition fetch (url : jsstring) : Fetch Response :=
  fun net log =>
    (match net (length log) url with
     | Some r => inr r
     | None => inl (TransportError url)
     end, log ++ [url]).

Definition run {A} (m : Fetch A) (net : Net) : (exn + A) * list jsstring :=
  m net [].

Notation "x <- m ;; k" := (bind m (fun x => k))
  (at level 100, m at next level, right associativity).

Definition altPaths : list jsstring :=
  [lit "/en-us/"; lit "/index.html"; lit "/home"; lit "/about"].

(** The body of [for (const path of altPaths)]: [Some] is the [return] inside
    the loop, [None] falls through to the next path.  The constructor of
    [retryUrl] stands inside the [try]: when it throws, the [catch] goes on to
    the next path and nothing is probed. *)
Definition tryPath (u : URL) (path : jsstring) : Fetch (option FetchResult) :=
  match retryUrl path u with
  | None => ret None
  | Some target =>
      tryCatch
        (retryRes <- fetch target ;;
         let retryHeaders := headersToObject (resHeaders retryRes) in
         let retryContentType := orNull (retryHeaders !! lit "content-type") in
         if (status retryRes =? 200)%Z && (5 <=? headerCount retryHeaders)%nat
         then ret (Some (SuccessfulFetchResult retryRes retryHeaders retryContentType))
         else ret None)
        (fun _ => ret None)
  end.

Fixpoint tryPaths (u : URL) (paths : list jsstring) : Fetch (option FetchResult) :=
  match paths with
  | [] => ret None
  | path :: rest =>
      r <- tryPath u path ;;
      match r with
      | Some found => ret (Some found)
      | None => tryPaths u rest
      end
  end.

Definition httpOnlyMessage : jsstring :=
  lit "This site is using HTTP instead of HTTPS. All modern websites should migrate to HTTPS for security. HTTP traffic is unencrypted and vulnerable to man-in-the-middle attacks.".

Definition assetMessage (assetExt : jsstring) : jsstring :=
  lit "This appears to be a direct link to an asset file (" ++ assetExt ++
  lit "). Security headers are typically analyzed for HTML pages, not individual assets. Please enter a page URL instead.".

Definition non200Message (res : Response) : jsstring :=
  lit "Cannot reliably analyze this URL (HTTP " ++ ofZ (status res) ++ lit " " ++
  statusText res ++
  lit "). The server returned a non-success response. This could be a redirect, error page, or access restriction. Try a different URL or page.".

Definition botProtectionMessage (botProtection : jsstring) : jsstring :=
  lit "This site is serving a challenge or bot protection page (" ++ botProtection ++
  lit "). The headers analyzed would be from the protection layer, not your actual site. This makes the analysis unreliable.".

Definition nonHtmlMessage (contentType : jsstring) : jsstring :=
  lit "This URL returns " ++ contentType ++
  lit " instead of HTML. Security header analysis is designed for web pages (text/html), not APIs or other content types. The scoring may not be meaningful.".

Definition cdnMessage : jsstring :=
  lit "Response appears to come from a CDN edge (e.g., Akamai) rather than an origin server. Try fetching a deeper path like /en-us/ or /home.".

Definition sparseMessage : jsstring :=
  lit "Header fetch returned too few headers (<5). Likely a CDN edge or static asset response. Try a deeper route manually.".

(** [/akamai|ghost|netstorage/.test(serverHeader)]. *)
Definition cdnSignature (serverHeader : jsstring) : bool :=
  includes (lit "akamai") serverHeader || includes (lit "ghost") serverHeader
  || includes (lit "netstorage") serverHeader.

(** [contentType && !contentType.includes("text/html") &&
    !contentType.includes("application/xhtml")]. *)
Definition nonHtml (contentType : option jsstring) : option jsstring :=
  match contentType with
  | Some ct =>
      if negb (includes (lit "text/html") ct)
         && negb (includes (lit "application/xhtml") ct)
      then Some ct else None
  | None => None
  end.

(** [headers["server"]?.toLowerCase() || EMPTY]. *)
Definition serverOf (headers : gmap jsstring jsstring) : jsstring :=
  match headers !! lit "server" with
  | Some v => toLowerCase v
  | None => []
  end.

(** [fetchWithSmartFallback], the specification's [classify], from the parsed
    URL on. *)
Definition fetchWithSmartFallback (normalizedUrl : URL) : Fetch FetchResult :=
  if streq (protocol normalizedUrl) (lit "http:") then
    ret (HTTPOnlyWarning httpOnlyMessage)
  else
  match isAssetURL normalizedUrl with
  | Some assetExt => ret (AssetURLWarning assetExt (assetMessage assetExt))
  | None =>
  res <- fetch (href normalizedUrl) ;;
  let headers := headersToObject (resHeaders res) in
  let serverHeader := serverOf headers in
  let contentType := orNull (headers !! lit "content-type") in
  if negb (status res =? 200)%Z then
    ret (Non200StatusWarning (status res) (statusText res) (non200Message res))
  else
  match isBotProtectionResponse headers (status res) with
  | Some botProtection =>
      ret (BotProtectionWarning botProtection (botProtectionMessage botProtection))
  | None =>
  match nonHtml contentType with
  | Some ct =>
      ret (Non200StatusWarning (status res)
             (lit "Non-HTML Content (" ++ ct ++ lit ")") (nonHtmlMessage ct))
  | None =>
  if cdnSignature serverHeader then
    ret (CDNDetectionResult serverHeader (headerCount headers) cdnMessage)
  else if (headerCount headers <? 5)%nat then
    found <- tryPaths normalizedUrl altPaths ;;
    match found with
    | Some r => ret r
    | None =>
        ret (CDNDetectionResult
               (match serverHeader with [] => lit "unknown" | _ => serverHeader end)
               (headerCount headers) sparseMessage)
    end
  else
    ret (SuccessfulFetchResult res headers contentType)
  end end end.

(** *** Vocabulary of the statements about the engine *)

(** The result the loop over [altPaths] returns for a response it accepts. *)
Definition usableFrom (retryRes : Response) : FetchResult :=
  let retryHeaders := headersToObject (resHeaders retryRes) in
  SuccessfulFetchResult retryRes retryHeaders (orNull (retryHeaders !! lit "content-type")).

(** The test of the loop on what a probe answered. *)
Definition rich (answer : option Response) : bool :=
  match answer with
  | Some r =>
      (status r =? 200)%Z && (5 <=? headerCount (headersToObject (resHeaders r)))%nat
  | None => false
  end.

(** The [k]-th alternate URL of [u], the path on the origin, and what the
    network answers when it is probed in its turn, after the first probe and
    the [k] alternates before it.  Where the URL cannot be built there is no
    probe and no answer. *)
Definition altUrl (u : URL) (k : nat) : jsstring := origin u ++ nth k altPaths [].

Definition altAnswer (net : Net) (u : URL) (k : nat) : option Response :=
  match retryUrl (nth k altPaths []) u with
  | Some target => net (S k) target
  | None => None
  end.

(** A first answer that reaches the escalation: status 200, and none of the
    bot-protection, content-type and CDN checks fires, with fewer than five
    headers. *)
Definition sparse (first : Response) : Prop :=
  let headers := headersToObject (resHeaders first) in
  status first = 200%Z /\
  isBotProtectionResponse headers 200 = None /\
  nonHtml (orNull (headers !! lit "content-type")) = None /\
  cdnSignature (serverOf headers) = false /\
  (headerCount headers < 5)%nat.

(** The URLs the engine can probe for [u], in the order it probes them: the
    URL itself and the alternate URLs that can be built. *)
Definition probeOrder (u : URL) : list jsstring :=
  href u :: omap (fun path => retryUrl path u) altPaths.

(** What may follow the top-level domain of a bare domain: nothing, or a
    slash and a path on one line. *)
Definition pathOrEnd (rest : jsstring) : bool :=
  match rest with
  | [] => true
  | c :: p => (c =? 47) && forallb isDot p
  end.

(** A pair of a [Headers] object whose name, lower-cased, is [k], and the
    value of the last such pair. *)
Definition named (k : jsstring) (kv : jsstring * jsstring) : bool :=
  streq (toLowerCase (fst kv)) k.

Definition lastValue (k : jsstring) (hs : list (jsstring * jsstring))
  : option jsstring :=
  option_map snd (List.find (named k) (rev hs)).

End Utils.

(** ** [src/workers/header-processor.ts] *)

Module HeaderProcessor.

(** [String.prototype.split] with a regular expression that has no capture
    group.  [sep s] is the length of the match of the separator at the start
    of [s], [0%nat] when there is none (a separator that matches is never
    empty here).  [skip] counts the units of a match still to pass, [cur]
    holds the piece being read, reversed. *)
Fixpoint splitLoop (sep : jsstring -> nat) (skip : nat) (cur : jsstring)
    (s : jsstring) : list jsstring :=
  match s with
  | [] => [rev cur]
  | c :: s' =>
      match skip with
      | S k => splitLoop sep k cur s'
      | O =>
          match sep s with
          | S k => rev cur :: splitLoop sep k [] s'
          | O => splitLoop sep 0 (c :: cur) s'
          end
      end
  end.

Definition splitBy (sep : jsstring -> nat) (s : jsstring) : list jsstring :=
  splitLoop sep 0 [] s.

(** The class [[a-zA-Z0-9_-]]. *)
Definition isCookieNameUnit (c : N) : bool :=
  isLetter c || isDigit c || (c =? 95) || (c =? 45).

(** The lookahead [(?=[a-zA-Z0-9_-]+=)]. *)
Definition startsCookie (s : jsstring) : bool :=
  let '(name, r) := spanUnits isCookieNameUnit s in
  match name, r with
  | _ :: _, 61 :: _ => true
  | _, _ => false
  end.

(** The separator [/,\s*(?=[a-zA-Z0-9_-]+=)/]: a comma, the white space after
    it, and then a cookie name and its equals sign, which are not consumed.
    The lookahead starts with a unit that is no white space, so the run of
    white space is the longest one. *)
Definition cookieSeparator (s : jsstring) : nat :=
  match s with
  | 44 :: r =>
      let '(ws, r') := spanUnits isWhiteSpace r in
      if startsCookie r' then S (length ws) else O
  | _ => O
  end.

Record CookieStats := mkCookieStats {
  total : nat;
  secure : nat;
  httpOnly : nat;
  sameSite : nat
}.

(** [.filter(Boolean)] on strings: the empty string is dropped. *)
Definition nonEmpty (s : jsstring) : bool :=
  match s with [] => false | _ :: _ => true end.

(** How many cookies hold [token], once lower-cased: the counter that
    [if (lowerCookie.includes(token)) counter++] leaves after the loop. *)
Definition countIncludes (token : jsstring) (cookies : list jsstring) : nat :=
  length (List.filter (fun cookie => includes token (toLowerCase cookie)) cookies).

Definition analyzeCookies (setCookieHeader : option jsstring) : CookieStats :=
  match setCookieHeader with
  | None | Some [] => mkCookieStats 0 0 0 0
  | Some header =>
      let cookies := List.filter nonEmpty (splitBy cookieSeparator header) in
      mkCookieStats (length cookies)
                    (countIncludes (lit "secure") cookies)
                    (countIncludes (lit "httponly") cookies)
                    (countIncludes (lit "samesite") cookies)
  end.

Record Metadata := mkMetadata {
  hasCsp : bool;
  hasCspReportOnly : bool;
  hasHsts : bool;
  cookieStats : CookieStats
}.

Record ProcessedHeaders := mkProcessedHeaders {
  rawHeaders : gmap jsstring jsstring;
  metadata : Metadata
}.

Definition preprocessHeaders (headers : gmap jsstring jsstring) : ProcessedHeaders :=
  let hasCsp := Utils.truthy (headers !! lit "content-security-policy") in
  let hasCspReportOnly :=
    Utils.truthy (headers !! lit "content-security-policy-report-only") in
  let hasHsts := Utils.truthy (headers !! lit "strict-transport-security") in
  let cookieStats := analyzeCookies (headers !! lit "set-cookie") in
  mkProcessedHeaders headers (mkMetadata hasCsp hasCspReportOnly hasHsts cookieStats).

(** *** Vocabulary of the statements about cookies *)

(** How the platform folds the values of several [Set-Cookie] fields into
    one header value: joined with a comma and a space. *)
Fixpoint joinCookies (cookies : list jsstring) : jsstring :=
  match cookies with
  | [] => []
  | [cookie] => cookie
  | cookie :: rest => cookie ++ lit ", " ++ joinCookies rest
  end.

(** The separator matches nowhere in [s]: no comma of [s] is followed by
    white space, a name and an equals sign. *)
Fixpoint quiet (s : jsstring) : bool :=
  match s with
  | [] => true
  | c :: s' => (cookieSeparator (c :: s') =? 0)%nat && quiet s'
  end.

(** A cookie as a server writes it: a name and an equals sign first, and no
    separator inside (the comma of an [Expires] date is none). *)
Definition wellFormed (cookie : jsstring) : bool :=
  startsCookie cookie && quiet cookie.

(** What follows a cookie in a joined value: a comma, or nothing. *)
Definition commaOrEnd (rest : jsstring) : Prop :=
  match rest with
  | [] => True
  | c :: _ => c = 44
  end.

End HeaderProcessor.

(** ** JSON values, [JSON.parse] and [JSON.stringify] *)

Module Json.

(** *** Numbers

    A finite number is kept as the decimal digits of its value, exactly: the
    digits [s] (no zero in front, none at the end) and the exponent [n] of
    ECMAScript's [Number::toString], the value being [0.s] times [10^n].  Zero
    has no digit.  Rounding to a double and the sign of zero are not
    modelled. *)
Inductive number :=
| NaN
| Infinity
| NegInfinity
| Finite (negative : bool) (digits : jsstring) (exponent : Z).

Definition isZeroDigit (c : N) : bool := c =? 48.

Definition lastUnit (s : jsstring) : N := List.last s 0.

(** The finite numbers in the form above. *)
Definition canonical (x : number) : bool :=
  match x with
  | Finite negative ds n =>
      forallb isDigit ds &&
      match ds with
      | [] => negb negative && (n =? 0)%Z
      | d :: _ => negb (isZeroDigit d) && negb (isZeroDigit (lastUnit ds))
      end
  | _ => false
  end.

Definition dropZeros (s : jsstring) : jsstring := snd (spanUnits isZeroDigit s).

(** The value of a numeric literal with integer part [int], fraction digits
    [frac] and exponent [e]. *)
Definition mkNumber (negative : bool) (int frac : jsstring) (e : Z) : number :=
  let mantissa := int ++ frac in
  let stripped := dropZeros mantissa in
  let ds := rev (dropZeros (rev stripped)) in
  match ds with
  | [] => Finite false [] 0
  | _ :: _ =>
      Finite negative ds
        (Z.of_nat (length int) + e - Z.of_nat (length mantissa - length stripped))
  end.

Definition zeros (n : Z) : jsstring := repeat 48 (Z.to_nat n).

(** [Number::toString] (radix 10). *)
Definition numberToString (x : number) : jsstring :=
  match x with
  | NaN => lit "NaN"
  | Infinity => lit "Infinity"
  | NegInfinity => lit "-Infinity"
  | Finite _ [] _ => lit "0"
  | Finite negative (d :: ds') n =>
      let ds := d :: ds' in
      let k := Z.of_nat (length ds) in
      (if negative then lit "-" else []) ++
      (if (k <=? n)%Z && (n <=? 21)%Z then ds ++ zeros (n - k)
       else if (0 <? n)%Z && (n <=? 21)%Z then
         firstn (Z.to_nat n) ds ++ lit "." ++ skipn (Z.to_nat n) ds
       else if (-6 <? n)%Z && (n <=? 0)%Z then lit "0." ++ zeros (- n) ++ ds
       else
         let e := (n - 1)%Z in
         let exponent :=
           lit "e" ++ (if (e <? 0)%Z then lit "-" else lit "+") ++ ofZ (Z.abs e) in
         match ds' with
         | [] => [d] ++ exponent
         | _ :: _ => [d] ++ lit "." ++ ds' ++ exponent
         end)
  end.

(** The number a literal of an integer denotes. *)
Definition numberOfZ (z : Z) : number :=
  mkNumber (z <? 0)%Z (ofZ (Z.abs z)) [] 0.

(** *** Values *)

#[local] Set Warnings "-register-all".

Inductive json :=
| JNull
| JBool (b : bool)
| JNumber (x : number)
| JString (s : jsstring)
| JArray (elements : list json)
| JObject (properties : list (jsstring * json)).

(** The own properties of an object, in the order of their definition.
    Defining a key a second time replaces its value. *)
Fixpoint setProp (key : jsstring) (v : json) (props : list (jsstring * json))
  : list (jsstring * json) :=
  match props with
  | [] => [(key, v)]
  | (k, w) :: rest =>
      if streq k key then (k, v) :: rest else (k, w) :: setProp key v rest
  end.

Fixpoint getProp (key : jsstring) (props : list (jsstring * json)) : option json :=
  match props with
  | [] => None
  | (k, w) :: rest => if streq k key then Some w else getProp key rest
  end.

(** *** [JSON.parse] *)

(** Why a text is rejected.  The engine (V8) words the [SyntaxError] of a raw
    control character inside a string literal "Bad control character in string
    literal in JSON at position ..."; every other rejection is [Unexpected]
    here.  The parser reads from left to right and stops at the first unit that
    no JSON text can continue with, so the kind of the error is that of the
    leftmost one. *)
Inductive syntaxError :=
| BadControlCharacter
| Unexpected.

Inductive parsed (A : Type) :=
| Ok (a : A) (rest : jsstring)
| Rejected (e : syntaxError)
| OutOfFuel.
Arguments Ok {A} a rest.
Arguments Rejected {A} e.
Arguments OutOfFuel {A}.

(** JSON white space: tab, line feed, carriage return, space. *)
Definition isJsonSpace (c : N) : bool :=
  (c =? 9) || (c =? 10) || (c =? 13) || (c =? 32).

Definition skipSpace (s : jsstring) : jsstring := snd (spanUnits isJsonSpace s).

Definition hexValue (c : N) : option N :=
  if isDigit c then Some (c - 48)
  else if (97 <=? c) && (c <=? 102) then Some (c - 87)
  else if (65 <=? c) && (c <=? 70) then Some (c - 55)
  else None.

Definition hex4 (a b c d : N) : option N :=
  match hexValue a, hexValue b, hexValue c, hexValue d with
  | Some a, Some b, Some c, Some d => Some (((a * 16 + b) * 16 + c) * 16 + d)
  | _, _, _, _ => None
  end.

(** The unit a one-letter escape stands for. *)
Definition unescape (c : N) : option N :=
  if (c =? 34) || (c =? 92) || (c =? 47) then Some c
  else if c =? 98 then Some 8
  else if c =? 102 then Some 12
  else if c =? 110 then Some 10
  else if c =? 114 then Some 13
  else if c =? 116 then Some 9
  else None.

(** A string literal, read from the unit after its opening quote. *)
Fixpoint scanString (s : jsstring) : parsed jsstring :=
  match s with
  | [] => Rejected Unexpected
  | c :: s' =>
      if c =? 34 then Ok [] s'
      else if c =? 92 then
        match s' with
        | e :: s'' =>
            if e =? 117 then
              match s'' with
              | h1 :: h2 :: h3 :: h4 :: s3 =>
                  match hex4 h1 h2 h3 h4 with
                  | Some u =>
                      match scanString s3 with
                      | Ok str rest => Ok (u :: str) rest
                      | other => other
                      end
                  | None => Rejected Unexpected
                  end
              | _ => Rejected Unexpected
              end
            else
              match unescape e with
              | Some u =>
                  match scanString s'' with
                  | Ok str rest => Ok (u :: str) rest
                  | other => other
                  end
              | None => Rejected Unexpected
              end
        | [] => Rejected Unexpected
        end
      else if c <? 32 then Rejected BadControlCharacter
      else
        match scanString s' with
        | Ok str rest => Ok (c :: str) rest
        | other => other
        end
  end.

(** The sign of an exponent, if any, and what follows it. *)
Definition scanSign (s : jsstring) : bool * jsstring :=
  match s with
  | c :: r => if c =? 45 then (true, r) else if c =? 43 then (false, r) else (false, s)
  | [] => (false, s)
  end.

(** The exponent part of a numeric literal, if any. *)
Definition scanExponent (negative : bool) (int frac : jsstring) (s : jsstring)
  : option (number * jsstring) :=
  match s with
  | e :: r =>
      if (e =? 101) || (e =? 69) then
        let '(eneg, r1) := scanSign r in
        let '(ds, r2) := spanUnits isDigit r1 in
        match ds with
        | [] => None
        | _ :: _ =>
            let v := Z.of_uint (uintOfDigits ds) in
            Some (mkNumber negative int frac (if eneg then - v else v)%Z, r2)
        end
      else Some (mkNumber negative int frac 0, s)
  | [] => Some (mkNumber negative int frac 0, [])
  end.

(** The fraction part, if any. *)
Definition scanFraction (negative : bool) (int : jsstring) (s : jsstring)
  : option (number * jsstring) :=
  match s with
  | c :: r =>
      if c =? 46 then
        let '(frac, r1) := spanUnits isDigit r in
        match frac with
        | [] => None
        | _ :: _ => scanExponent negative int frac r1
        end
      else scanExponent negative int [] s
  | [] => scanExponent negative int [] s
  end.

(** The digits of a literal after its sign: a zero, or a digit from 1 to 9 and
    the digits after it; then the fraction and the exponent. *)
Definition scanDigits (negative : bool) (s : jsstring) : option (number * jsstring) :=
  match s with
  | d :: r =>
      if isZeroDigit d then scanFraction negative [d] r
      else if isDigit d then
        let '(ds, r1) := spanUnits isDigit r in
        scanFraction negative (d :: ds) r1
      else None
  | [] => None
  end.

(** A numeric literal. *)
Definition scanNumber (s : jsstring) : option (number * jsstring) :=
  match s with
  | c :: r => if c =? 45 then scanDigits true r else scanDigits false s
  | [] => None
  end.

Definition expect (word : jsstring) (v : json) (s : jsstring) : parsed json :=
  if startsWith word s then Ok v (skipn (length word) s) else Rejected Unexpected.

(** A value, the elements of an array after its bracket, the members of an
    object after its brace.  Every call uses one unit of fuel. *)
Fixpoint parseValue (fuel : nat) (s : jsstring) : parsed json :=
  match fuel with
  | O => OutOfFuel
  | S fuel' =>
      match skipSpace s with
      | [] => Rejected Unexpected
      | c :: r =>
          if c =? 123 then
            if startsWith [125] (skipSpace r) then Ok (JObject []) (skipn 1 (skipSpace r))
            else parseMembers fuel' [] r
          else if c =? 91 then
            if startsWith [93] (skipSpace r) then Ok (JArray []) (skipn 1 (skipSpace r))
            else parseElements fuel' [] r
          else if c =? 34 then
            match scanString r with
            | Ok str rest => Ok (JString str) rest
            | Rejected e => Rejected e
            | OutOfFuel => OutOfFuel
            end
          else if c =? 116 then expect (lit "true") (JBool true) (c :: r)
          else if c =? 102 then expect (lit "false") (JBool false) (c :: r)
          else if c =? 110 then expect (lit "null") JNull (c :: r)
          else
            match scanNumber (c :: r) with
            | Some (x, rest) => Ok (JNumber x) rest
            | None => Rejected Unexpected
            end
      end
  end
with parseElements (fuel : nat) (acc : list json) (s : jsstring) : parsed json :=
  match fuel with
  | O => OutOfFuel
  | S fuel' =>
      match parseValue fuel' s with
      | Ok v rest =>
          match skipSpace rest with
          | c :: r =>
              if c =? 44 then parseElements fuel' (acc ++ [v]) r
              else if c =? 93 then Ok (JArray (acc ++ [v])) r
              else Rejected Unexpected
          | [] => Rejected Unexpected
          end
      | other => other
      end
  end
with parseMembers (fuel : nat) (acc : list (jsstring * json)) (s : jsstring)
  : parsed json :=
  match fuel with
  | O => OutOfFuel
  | S fuel' =>
      match skipSpace s with
      | q :: r =>
          if q =? 34 then
            match scanString r with
            | Ok key rest =>
                match skipSpace rest with
                | colon :: r1 =>
                    if colon =? 58 then
                      match parseValue fuel' r1 with
                      | Ok v rest1 =>
                          match skipSpace rest1 with
                          | c :: r2 =>
                              if c =? 44 then parseMembers fuel' (setProp key v acc) r2
                              else if c =? 125 then Ok (JObject (setProp key v acc)) r2
                              else Rejected Unexpected
                          | [] => Rejected Unexpected
                          end
                      | other => other
                      end
                    else Rejected Unexpected
                | [] => Rejected Unexpected
                end
            | Rejected e => Rejected e
            | OutOfFuel => OutOfFuel
            end
          else Rejected Unexpected
      | [] => Rejected Unexpected
      end
  end.

(** Fuel that [parseValue] never uses up on [text]. *)
Definition fuelFor (text : jsstring) : nat := S (S (2 * length text)).

(** [JSON.parse(text)]: the value, or the [SyntaxError] thrown. *)
Definition parse (text : jsstring) : syntaxError + json :=
  match parseValue (fuelFor text) text with
  | Ok v rest =>
      match skipSpace rest with
      | [] => inr v
      | _ :: _ => inl Unexpected
      end
  | Rejected e => inl e
  | OutOfFuel => inl Unexpected
  end.

(** *** [JSON.stringify] *)

Definition hexDigit (n : N) : N := if n <? 10 then 48 + n else 87 + n.

(** The four hexadecimal digits of a code unit, in lower case. *)
Definition hexPad4 (c : N) : jsstring :=
  [hexDigit ((c / 4096) mod 16); hexDigit ((c / 256) mod 16);
   hexDigit ((c / 16) mod 16); hexDigit (c mod 16)].

Definition unicodeEscape (c : N) : jsstring := lit "\u" ++ hexPad4 c.

Definition isHighSurrogate (c : N) : bool := (55296 <=? c) && (c <=? 56319).
Definition isLowSurrogate (c : N) : bool := (56320 <=? c) && (c <=? 57343).

(** How [QuoteJSONString] writes one unit that is not part of a surrogate
    pair. *)
Definition quoteUnit (c : N) : jsstring :=
  if c =? 8 then lit "\b"
  else if c =? 9 then lit "\t"
  else if c =? 10 then lit "\n"
  else if c =? 12 then lit "\f"
  else if c =? 13 then lit "\r"
  else if c =? 34 then [92; 34]
  else if c =? 92 then [92; 92]
  else if (c <? 32) || isHighSurrogate c || isLowSurrogate c then unicodeEscape c
  else [c].

Fixpoint quoteUnits (s : jsstring) : jsstring :=
  match s with
  | [] => []
  | c :: s' =>
      if isHighSurrogate c then
        match s' with
        | d :: s'' =>
            if isLowSurrogate d then c :: d :: quoteUnits s''
            else quoteUnit c ++ quoteUnits s'
        | [] => quoteUnit c
        end
      else quoteUnit c ++ quoteUnits s'
  end.

(** [QuoteJSONString]. *)
Definition quote (s : jsstring) : jsstring := [34] ++ quoteUnits s ++ [34].

Fixpoint joinComma (parts : list jsstring) : jsstring :=
  match parts with
  | [] => []
  | [x] => x
  | x :: rest => x ++ lit "," ++ joinComma rest
  end.

Definition isFinite (x : number) : bool :=
  match x with
  | Finite _ _ _ => true
  | _ => false
  end.

(** [JSON.stringify(value)] with no replacer and no indentation. *)
Fixpoint stringify (v : json) : jsstring :=
  match v with
  | JNull => lit "null"
  | JBool true => lit "true"
  | JBool false => lit "false"
  | JNumber x => if isFinite x then numberToString x else lit "null"
  | JString str => quote str
  | JArray elements => lit "[" ++ joinComma (map stringify elements) ++ lit "]"
  | JObject properties =>
      lit "{" ++
      joinComma (map (fun kv => let '(k, w) := kv in quote k ++ lit ":" ++ stringify w)
                     properties) ++
      lit "}"
  end.

(** *** Vocabulary of the statements about JSON texts *)

(** What follows a value inside a text [JSON.stringify] writes: nothing, a
    comma, or a closing bracket or brace. *)
Definition delimited (rest : jsstring) : Prop :=
  match rest with
  | [] => True
  | c :: _ => c = 44 \/ c = 93 \/ c = 125
  end.

(** The units a stringified value can start with. *)
Definition valueStart (c : N) : bool :=
  (c =? 123) || (c =? 91) || (c =? 34) || (c =? 116) || (c =? 102) || (c =? 110)
  || (c =? 45) || isDigit c.

(** No string occurs twice. *)
Fixpoint uniqueKeys (keys : list jsstring) : bool :=
  match keys with
  | [] => true
  | k :: rest => negb (existsb (streq k) rest) && uniqueKeys rest
  end.

(** The values [JSON.stringify] writes without loss: every number finite and
    in the form above, no key twice in an object. *)
Fixpoint serializable (v : json) : bool :=
  match v with
  | JNumber x => canonical x
  | JArray elements => forallb serializable elements
  | JObject properties =>
      uniqueKeys (map fst properties)
      && forallb (fun kv => serializable (snd kv)) properties
  | _ => true
  end.

(** A parser call that has fuel enough: it does not stop for lack of it, and
    what it leaves is shorter than what it was given. *)
Definition progresses (result : parsed json) (s : jsstring) : Prop :=
  result <> OutOfFuel /\
  forall v rest, result = Ok v rest -> (length rest < length s)%nat.

(** A value that is read back from its text, whatever follows it there, with
    any fuel above twice the length of the text. *)
Definition roundTrips (v : json) : Prop :=
  forall fuel rest,
    (2 * length (stringify v) < fuel)%nat ->
    delimited rest ->
    parseValue fuel (stringify v ++ rest) = Ok v rest.

(** How [stringify] writes one property. *)
Definition member (kv : jsstring * json) : jsstring :=
  let '(k, w) := kv in quote k ++ lit ":" ++ stringify w.

End Json.

(** ** [src/workers/analyzer.ts]: recovery of the model's reply *)

Module Analyzer.
Import Json.

(** What the [try] block can throw. *)
Inductive exn :=
| SyntaxError (e : syntaxError)
| TypeError
| Error (message : jsstring).

Definition fence : jsstring := lit "```".

(** [responseText.replace(/```json?\n?/g, EMPTY)]: every occurrence of three
    backticks and [jso], with an [n] and then a line feed after it when they
    are there, is removed.  [skip] counts the units of a match still to
    remove. *)
Definition openingFence (s : jsstring) : nat :=
  if startsWith (lit "```jso") s then
    match skipn 6 s with
    | 110 :: 10 :: _ => 8
    | 110 :: _ => 7
    | 10 :: _ => 7
    | _ => 6
    end
  else 0.

Fixpoint removeMatches (pattern : jsstring -> nat) (skip : nat) (s : jsstring)
  : jsstring :=
  match s with
  | [] => []
  | c :: s' =>
      match skip with
      | S k => removeMatches pattern k s'
      | O =>
          match pattern s with
          | S k => removeMatches pattern k s'
          | O => c :: removeMatches pattern 0 s'
          end
      end
  end.

(** [.replace(/```\n?$/g, EMPTY)]: three backticks, with a line feed after them
    when it is there, at the very end of the text. *)
Fixpoint removeClosingFence (s : jsstring) : jsstring :=
  if streq s fence || streq s (fence ++ [10]) then []
  else
    match s with
    | [] => []
    | c :: s' => c :: removeClosingFence s'
    end.

Definition stripFences (responseText : jsstring) : jsstring :=
  if startsWith fence responseText then
    trim (removeClosingFence (removeMatches openingFence 0 responseText))
  else responseText.

(** The rewriting of one unit inside a string literal. *)
Definition escapeControl (char : N) : jsstring :=
  if char =? 10 then lit "\n"
  else if char =? 13 then lit "\r"
  else if char =? 9 then lit "\t"
  else if char =? 12 then lit "\f"
  else if char =? 8 then lit "\b"
  else if (char <? 32) && negb (char =? 10) && negb (char =? 13) && negb (char =? 9)
  then lit "\u" ++ hexPad4 char
  else [char].

(** The loop of the repair pass over [jsonText], from index [i] on:
    [prevChar] is [jsonText[i - 1]] ([None] at index 0), and the units
    appended to [result] are returned. *)
Fixpoint repairLoop (s : jsstring) (prevChar : option N)
    (inString escapeNext : bool) : jsstring :=
  match s with
  | [] => []
  | char :: s' =>
      if escapeNext then char :: repairLoop s' (Some char) inString false
      else if char =? 92 then char :: repairLoop s' (Some char) inString true
      else if (char =? 34) && negb (bool_decide (prevChar = Some 92)) then
        char :: repairLoop s' (Some char) (negb inString) false
      else if inString then
        escapeControl char ++ repairLoop s' (Some char) inString false
      else char :: repairLoop s' (Some char) inString false
  end.

Definition repairControlCharacters (jsonText : jsstring) : jsstring :=
  repairLoop jsonText None false false.

(** The repair pass as the specification words it: an automaton with two
    states, outside and inside a string literal, and inside a string a flag
    for a pending escape.  A quote that is not escaped opens or closes the
    literal; inside it a control character is rewritten; every unit outside
    passes unchanged. *)
Fixpoint specRepairLoop (s : jsstring) (inString escapePending : bool) : jsstring :=
  match s with
  | [] => []
  | char :: s' =>
      if inString then
        if escapePending then char :: specRepairLoop s' true false
        else if char =? 92 then char :: specRepairLoop s' true true
        else if char =? 34 then char :: specRepairLoop s' false false
        else escapeControl char ++ specRepairLoop s' true false
      else if char =? 34 then char :: specRepairLoop s' true false
      else char :: specRepairLoop s' false false
  end.

Definition specRepair (jsonText : jsstring) : jsstring :=
  specRepairLoop jsonText false false.

(** [analysis.score] and the like: a property read.  Reading a property of
    [null] throws; an array, a string, a number or a boolean has none of the
    three properties read here. *)
Definition getProperty (v : json) (key : jsstring) : exn + option json :=
  match v with
  | JNull => inl TypeError
  | JObject props => inr (getProp key props)
  | _ => inr None
  end.

Definition isNumber (v : option json) : bool :=
  match v with Some (JNumber _) => true | _ => false end.
Definition isString (v : option json) : bool :=
  match v with Some (JString _) => true | _ => false end.
Definition isArray (v : option json) : bool :=
  match v with Some (JArray _) => true | _ => false end.

(** The shape check before [return analysis].  The message of the error,
    which only the log shows, is cut to its fixed part. *)
Definition validate (analysis : json) : exn + json :=
  match getProperty analysis (lit "score"), getProperty analysis (lit "summary"),
        getProperty analysis (lit "issues") with
  | inr score, inr summary, inr issues =>
      if negb (isNumber score) || negb (isString summary) || negb (isArray issues)
      then inl (Error (lit "Invalid response structure"))
      else inr analysis
  | inl e, _, _ | _, inl e, _ | _, _, inl e => inl e
  end.

(** [JSON.parse(jsonText)] with the repair pass in its [catch].  The test of
    the source on the message, [errorMsg.includes("control character") ||
    errorMsg.includes("Bad control")], is the test for the error
    [BadControlCharacter].  (A message of another error can quote the text
    around the error; where such a quotation holds one of the two phrases the
    source runs the pass too.  The pass leaves the units before the first error
    of such a text as they are, or breaks them, so the second [JSON.parse]
    fails like the first and the value returned is the same.) *)
Definition parseWithRepair (jsonText : jsstring) : exn + json :=
  match parse jsonText with
  | inr analysis => inr analysis
  | inl BadControlCharacter =>
      match parse (repairControlCharacters jsonText) with
      | inr analysis => inr analysis
      | inl e => inl (SyntaxError e)
      end
  | inl parseError => inl (SyntaxError parseError)
  end.

(** The [try] block of [analyzeHeaders] from [result.response.trim()] on. *)
Definition recoverBody (response : jsstring) : exn + json :=
  let responseText := trim response in
  let responseText := stripFences responseText in
  let trimmed := trim responseText in
  if negb (endsWith (lit "}") trimmed) && negb (endsWith (lit "]") trimmed) then
    inl (Error (lit "AI response JSON appears to be truncated or incomplete"))
  else
    match
      (if startsWith [34] responseText && endsWith [34] responseText then
         match parse responseText with
         | inr v => inr v
         | inl e => inl (SyntaxError e)
         end
       else inr (JString responseText))
    with
    | inl e => inl e
    | inr (JString jsonText) =>
        match parseWithRepair jsonText with
        | inr analysis => validate analysis
        | inl e => inl e
        end
    | inr _ => inl (Error (lit "Unexpected: jsonText is not a string"))
    end.

(** The value the [catch] block returns. *)
Definition degraded : json :=
  JObject
    [(lit "score", JNumber (numberOfZ 50));
     (lit "summary",
      JString (lit "Unable to complete AI analysis. Basic header check shows moderate security concerns."));
     (lit "issues",
      JArray
        [JObject
           [(lit "name", JString (lit "Analysis Error"));
            (lit "severity", JString (lit "medium"));
            (lit "header", JString (lit "N/A"));
            (lit "current_value", JNull);
            (lit "recommended_value", JString (lit "N/A"));
            (lit "explanation",
             JString (lit "The AI analysis failed. Please try again or contact support if the issue persists."))]])].

(** The specification's [recover]: the reply of the model to the value
    [analyzeHeaders] returns. *)
Definition recover (response : jsstring) : json :=
  match recoverBody response with
  | inr analysis => analysis
  | inl _ => degraded
  end.

(** *** The reply of the model *)

(** The truth value of a value of JSON data: [null], [false], zero, [NaN] and
    the empty string are falsy. *)
Definition truthyValue (v : json) : bool :=
  match v with
  | JNull => false
  | JBool b => b
  | JNumber NaN => false
  | JNumber (Finite _ [] _) => false
  | JNumber _ => true
  | JString [] => false
  | JString (_ :: _) => true
  | JArray _ => true
  | JObject _ => true
  end.

(** The truth value of what a property read returns ([undefined] when the
    property is missing). *)
Definition truthyRead (v : option json) : bool :=
  match v with
  | Some w => truthyValue w
  | None => false
  end.

(** A property read of a value that is not [null]. *)
Definition read (v : json) (key : jsstring) : option json :=
  match getProperty v key with
  | inr w => w
  | inl _ => None
  end.

(** The model binding: what [ai.run] resolves to for the messages built from
    the processed headers (a value of JSON data), or the error it rejects
    with. *)
Definition AI := HeaderProcessor.ProcessedHeaders -> exn + json.

(** The [try] block of [analyzeHeaders] up to [result.response.trim()]: the
    text of the reply.  [trim] is a method of strings only; calling it on
    another value throws a [TypeError]. *)
Definition replyText (outcome : exn + json) : exn + jsstring :=
  match outcome with
  | inl e => inl e
  | inr result =>
      if negb (truthyValue result) then inl (Error (lit "Invalid response structure"))
      else
        match getProperty result (lit "response") with
        | inl e => inl e
        | inr response =>
            if negb (truthyRead response) then
              inl (Error (lit "Invalid response structure"))
            else
              match response with
              | Some (JString text) => inr text
              | _ => inl TypeError
              end
        end
  end.

Definition analyzeHeaders (ai : AI) (headers : gmap jsstring jsstring) : json :=
  let processed := HeaderProcessor.preprocessHeaders headers in
  match replyText (ai processed) with
  | inr text => recover text
  | inl _ => degraded
  end.

(** *** Vocabulary of the statements about the recovery *)

(** A text with no backtick in it. *)
Definition noBacktick (text : jsstring) : bool :=
  forallb (fun c => negb (c =? 96)) text.

(** The text whose completeness check fails: trimmed and stripped of its
    fences, it ends with neither a closing brace nor a closing bracket. *)
Definition truncated (response : jsstring) : bool :=
  let trimmed := trim (stripFences (trim response)) in
  negb (endsWith (lit "}") trimmed) && negb (endsWith (lit "]") trimmed).

(** The shape of an analysis result: a numeric [score], a string [summary],
    an array [issues]. *)
Definition isAnalysisResult (v : json) : bool :=
  match v with
  | JObject props =>
      isNumber (getProp (lit "score") props)
      && isString (getProp (lit "summary") props)
      && isArray (getProp (lit "issues") props)
  | _ => false
  end.

(** A text with no control character in it. *)
Definition noControl (text : jsstring) : bool :=
  forallb (fun c => negb (c <? 32)) text.

(** How a writer that does not escape control characters writes the units of
    a string: as [QuoteJSONString] does, but for the units below 32, which it
    leaves raw. *)
Definition rawUnit (c : N) : jsstring := if c <? 32 then [c] else quoteUnit c.

Fixpoint rawUnits (s : jsstring) : jsstring :=
  match s with
  | [] => []
  | c :: s' =>
      if isHighSurrogate c then
        match s' with
        | d :: s'' =>
            if isLowSurrogate d then c :: d :: rawUnits s''
            else rawUnit c ++ rawUnits s'
        | [] => rawUnit c
        end
      else rawUnit c ++ rawUnits s'
  end.

Definition rawQuote (s : jsstring) : jsstring := [34] ++ rawUnits s ++ [34].

(** The text of a value as [JSON.stringify] writes it, but for the control
    characters inside its strings and keys, which are left raw. *)
Fixpoint writeRaw (v : json) : jsstring :=
  match v with
  | JString str => rawQuote str
  | JArray elements => lit "[" ++ joinComma (map writeRaw elements) ++ lit "]"
  | JObject properties =>
      lit "{" ++
      joinComma (map (fun kv => let '(k, w) := kv in rawQuote k ++ lit ":" ++ writeRaw w)
                     properties) ++
      lit "}"
  | other => stringify other
  end.

(** A string whose last unit is a backslash. *)
Definition endsWithBackslash (s : jsstring) : bool :=
  match rev s with
  | c :: _ => c =? 92
  | [] => false
  end.

(** A value none of whose strings and keys ends with a backslash. *)
Fixpoint tidy (v : json) : bool :=
  match v with
  | JString str => negb (endsWithBackslash str)
  | JArray elements => forallb tidy elements
  | JObject properties =>
      forallb (fun kv => negb (endsWithBackslash (fst kv)) && tidy (snd kv)) properties
  | _ => true
  end.

(** A text with no double quote and no backslash in it. *)
Definition unquoted (text : jsstring) : bool :=
  forallb (fun c => negb ((c =? 34) || (c =? 92))) text.

(** How [writeRaw] writes one property. *)
Definition rawMember (kv : jsstring * json) : jsstring :=
  let '(k, w) := kv in rawQuote k ++ lit ":" ++ writeRaw w.

(** A value whose raw text the repair pass rewrites to the text
    [JSON.stringify] writes, wherever the text stands outside a string and
    after a unit that is no backslash; the pass is outside a string after
    it. *)
Definition repairs (v : json) : Prop :=
  forall rest prev,
    prev <> Some 92 ->
    exists prev',
      prev' <> Some 92 /\
      repairLoop (writeRaw v ++ rest) prev false false
      = stringify v ++ repairLoop rest prev' false false.

(** A value whose raw text is read back as the value or rejected for a
    control character, whatever follows the text, with any fuel above twice
    its length. *)
Definition reads (v : json) : Prop :=
  forall fuel rest,
    (2 * length (writeRaw v) < fuel)%nat ->
    delimited rest ->
    parseValue fuel (writeRaw v ++ rest) = Ok v rest \/
    parseValue fuel (writeRaw v ++ rest) = Rejected BadControlCharacter.

End Analyzer.

(** ** [src/workers/app.ts]: the routes *)

Module App.
Import Json Utils HeaderProcessor Analyzer.

(** What a [catch] block receives: an [Error] with its message, or a value
    that is no [Error]. *)
Inductive thrown :=
| ErrorWith (message : jsstring)
| NotAnError.

(** [error instanceof Error ? error.message : EMPTY]. *)
Definition messageOf (error : thrown) : jsstring :=
  match error with
  | ErrorWith message => message
  | NotAnError => []
  end.

(** The request as the routes read it: [await c.req.json()], which rejects
    when the body is no JSON text, and [c.req.query("bypass_cache")]. *)
Record Request := mkRequest {
  jsonBody : thrown + json;
  bypassQuery : option jsstring
}.

(** A write to the cache: [HEADER_CACHE.put(key, value, { expirationTtl })]. *)
Record Put := mkPut {
  putKey : jsstring;
  putValue : jsstring;
  expirationTtl : Z
}.

(** What the worker runs on: the URL parser ([None] when [new URL] throws, and
    then the message of what it throws), the network with the text [errorMsg]
    of the error a failed probe of a URL throws, the model binding, and the
    key-value store, each of whose operations can reject.  [cacheGet] is
    [get(key, "json")]: the stored value, [null] when there is none. *)
Record Platform := mkPlatform {
  parseURL : jsstring -> option URL;
  urlError : jsstring -> jsstring;
  net : Net;
  probeError : jsstring -> jsstring;
  ai : AI;
  cacheGet : jsstring -> thrown + json;
  cachePut : Put -> option thrown;
  cacheDelete : jsstring -> option thrown
}.

(** [c.json(body, status)]. *)
Record Reply := mkReply {
  code : Z;
  body : json
}.

(** What a request did: its reply, the key it read from the cache, the URLs
    it probed, the headers it ran the model on, what it wrote to the cache and
    the key it deleted. *)
Record Outcome := mkOutcome {
  reply : Reply;
  cacheRead : option jsstring;
  probes : list jsstring;
  consulted : option ProcessedHeaders;
  cacheWritten : option Put;
  cacheDeleted : option jsstring
}.

(** The messages of the [TypeError]s the engine (V8) throws for a property
    read of [null] and for a call of a method a value does not have. *)
Definition nullReadMessage : jsstring :=
  lit "Cannot read properties of null (reading 'url')".

Definition noTrimMessage : jsstring := lit "url.trim is not a function".

Definition errorBody (message : jsstring) : json :=
  JObject [(lit "error", JString message)].

(** The [catch] of the route [/api/analyze]. *)
Definition analyzeFailed (error : thrown) : Reply :=
  mkReply 500
    (errorBody (lit "Failed to analyze URL. Please check the URL and try again. "
                ++ messageOf error)).

(** The [catch] around [fetchWithSmartFallback]. *)
Definition fetchFailed (errorMsg : jsstring) : Reply :=
  let userMessage := lit "Failed to fetch URL. " in
  let userMessage :=
    if includes (lit "timeout") errorMsg || includes (lit "timed out") errorMsg then
      userMessage ++ lit "The request timed out. The site may be very slow or unreachable."
    else if includes (lit "DNS") errorMsg || includes (lit "ENOTFOUND") errorMsg then
      userMessage ++ lit "Could not resolve the domain name. Please check the URL is correct."
    else if includes (lit "connection") errorMsg then
      userMessage ++ lit "Could not connect to the server. The site may be down or blocking requests."
    else
      userMessage ++ lit "Please check that the URL is accessible and try again." in
  mkReply 400 (errorBody userMessage).

(** The chain of tests on the result of the engine: the reply to a result
    that is not usable, or the headers of a usable one. *)
Definition warningFor (fetchResult : FetchResult) : json + gmap jsstring jsstring :=
  match fetchResult with
  | HTTPOnlyWarning message =>
      inl (JObject
        [(lit "score", JNumber (numberOfZ 10));
         (lit "summary", JString message);
         (lit "issues",
          JArray
            [JObject
               [(lit "name", JString (lit "HTTP Only (No HTTPS)"));
                (lit "severity", JString (lit "high"));
                (lit "header", JString (lit "Transport Protocol"));
                (lit "current_value", JString (lit "HTTP"));
                (lit "recommended_value", JString (lit "HTTPS"));
                (lit "explanation",
                 JString (lit "This site is not using HTTPS. Migrate to HTTPS immediately for basic security."))]])])
  | AssetURLWarning extension message =>
      inl (JObject
        [(lit "score", JNumber (numberOfZ 0));
         (lit "summary",
          JString (lit "Unable to analyze: This URL points to an asset file, not a web page."));
         (lit "issues", JArray []);
         (lit "warning",
          JObject
            [(lit "type", JString (lit "asset"));
             (lit "message", JString message);
             (lit "details", JObject [(lit "extension", JString extension)])])])
  | Non200StatusWarning statusCode _ message =>
      inl (JObject
        [(lit "score", JNumber (numberOfZ 0));
         (lit "summary",
          JString (lit "Unable to analyze: The server returned a non-success response."));
         (lit "issues", JArray []);
         (lit "warning",
          JObject
            [(lit "type", JString (lit "non-200"));
             (lit "message", JString message);
             (lit "details", JObject [(lit "statusCode", JNumber (numberOfZ statusCode))])])])
  | BotProtectionWarning detectedType message =>
      inl (JObject
        [(lit "score", JNumber (numberOfZ 0));
         (lit "summary",
          JString (lit "Unable to analyze: Bot protection or challenge detected."));
         (lit "issues", JArray []);
         (lit "warning",
          JObject
            [(lit "type", JString (lit "bot-protection"));
             (lit "message", JString message);
             (lit "details", JObject [(lit "detectedServer", JString detectedType)])])])
  | CDNDetectionResult detectedServer headerCount message =>
      inl (JObject
        [(lit "score", JNumber (numberOfZ 0));
         (lit "summary", JString (lit "Unable to analyze: CDN edge response detected."));
         (lit "issues", JArray []);
         (lit "warning",
          JObject
            [(lit "type", JString (lit "cdn"));
             (lit "message", JString message);
             (lit "details",
              JObject
                [(lit "detectedServer", JString detectedServer);
                 (lit "headerCount", JNumber (numberOfZ (Z.of_nat headerCount)))])])])
  | SuccessfulFetchResult _ headers _ => inr headers
  end.

(** A reply given before anything was read, probed or written. *)
Definition early (r : Reply) : Outcome := mkOutcome r None [] None None None.

(** [body.bypass_cache === true || c.req.query("bypass_cache") === "true"]. *)
Definition bypasses (bypass_cache : option json) (query : option jsstring) : bool :=
  match bypass_cache with Some (JBool true) => true | _ => false end
  || match query with Some q => streq q (lit "true") | None => false end.

(** The route from [fetchWithSmartFallback(normalizedUrl)] on; [cacheRead]
    is the key read from the cache before, if any. *)
Definition analyzeFresh (p : Platform) (normalizedUrl cacheKey : jsstring)
    (cacheRead : option jsstring) : Outcome :=
  match parseURL p normalizedUrl with
  | None =>
      mkOutcome (fetchFailed (urlError p normalizedUrl)) cacheRead [] None None None
  | Some parsed =>
      match run (fetchWithSmartFallback parsed) (net p) with
      | (inl (TransportError url), log) =>
          mkOutcome (fetchFailed (probeError p url)) cacheRead log None None None
      | (inr fetchResult, log) =>
          match warningFor fetchResult with
          | inl warning => mkOutcome (mkReply 200 warning) cacheRead log None None None
          | inr headers =>
              let analysis := analyzeHeaders (ai p) headers in
              let put := mkPut cacheKey (stringify analysis) 86400 in
              match cachePut p put with
              | Some error =>
                  mkOutcome (analyzeFailed error) cacheRead log
                            (Some (preprocessHeaders headers)) (Some put) None
              | None =>
                  mkOutcome (mkReply 200 analysis) cacheRead log
                            (Some (preprocessHeaders headers)) (Some put) None
              end
          end
      end
  end.

(** [app.post("/api/analyze", ...)]. *)
Definition analyze (p : Platform) (req : Request) : Outcome :=
  match jsonBody req with
  | inl error => early (analyzeFailed error)
  | inr body =>
      match getProperty body (lit "url") with
      | inl _ => early (analyzeFailed (ErrorWith nullReadMessage))
      | inr url =>
          if negb (truthyRead url) then
            early (mkReply 400 (errorBody (lit "URL is required")))
          else
            match url with
            | Some (JString url) =>
                let normalizedUrl := normalizeUrl url in
                if negb (isValidUrl (parseURL p) normalizedUrl) then
                  early (mkReply 400 (errorBody (lit "Invalid URL format")))
                else
                  let cacheKey := getCacheKey normalizedUrl in
                  let bypassCache :=
                    bypasses (read body (lit "bypass_cache")) (bypassQuery req) in
                  if negb bypassCache then
                    match cacheGet p cacheKey with
                    | inl error =>
                        mkOutcome (analyzeFailed error) (Some cacheKey) [] None None None
                    | inr cached =>
                        if truthyValue cached then
                          mkOutcome (mkReply 200 cached) (Some cacheKey) [] None None None
                        else analyzeFresh p normalizedUrl cacheKey (Some cacheKey)
                    end
                  else analyzeFresh p normalizedUrl cacheKey None
            | _ => early (analyzeFailed (ErrorWith noTrimMessage))
            end
      end
  end.

(** [app.post("/api/clear-cache", ...)]. *)
Definition clearCache (p : Platform) (req : Request) : Outcome :=
  let failed := mkReply 500 (errorBody (lit "Failed to clear cache")) in
  match jsonBody req with
  | inl _ => early failed
  | inr body =>
      match getProperty body (lit "url") with
      | inl _ => early failed
      | inr url =>
          if truthyRead url then
            match url with
            | Some (JString url) =>
                let normalizedUrl := normalizeUrl url in
                let cacheKey := getCacheKey normalizedUrl in
                match cacheDelete p cacheKey with
                | Some _ => mkOutcome failed None [] None None (Some cacheKey)
                | None =>
                    mkOutcome
                      (mkReply 200
                         (JObject
                            [(lit "success", JBool true);
                             (lit "message",
                              JString (lit "Cache cleared for " ++ normalizedUrl))]))
                      None [] None None (Some cacheKey)
                end
            | _ => early failed
            end
          else early (mkReply 400 (errorBody (lit "URL is required")))
      end
  end.

(** *** Vocabulary of the statements about the routes *)

(** A request whose body holds the string [url] under the key [url]. *)
Definition asks (req : Request) (body : json) (url : jsstring) : Prop :=
  jsonBody req = inr body /\ read body (lit "url") = Some (JString url) /\ url <> [].

(** A request that reaches the engine: it asks for a valid URL and either
    bypasses the cache or finds nothing in it.  [cacheRead] is the key it read
    from the cache. *)
Definition misses (p : Platform) (req : Request) (body : json) (url : jsstring)
    (cacheRead : option jsstring) : Prop :=
  asks req body url /\
  isValidUrl (parseURL p) (normalizeUrl url) = true /\
  if bypasses (read body (lit "bypass_cache")) (bypassQuery req) then cacheRead = None
  else
    cacheRead = Some (getCacheKey url) /\
    exists cached, cacheGet p (getCacheKey url) = inr cached /\ truthyValue cached = false.

End App.

(** ** Inputs of the examples *)

Module Examples.
Import Utils.

(** [https://example.com/], parsed. *)
Definition page : URL :=
  mkURL (lit "https:") (lit "https://example.com") (lit "/")
        (lit "https://example.com/").

(** A first answer with three headers. *)
Definition sparseAnswer : Response :=
  mkResponse 200 (lit "OK")
    [(lit "date", lit "Mon, 02 Nov 2026 10:00:00 GMT");
     (lit "content-length", lit "0");
     (lit "connection", lit "keep-alive")].

(** An answer with eight headers that comes from a CDN edge and carries
    JSON. *)
Definition edgeAnswer : Response :=
  mkResponse 200 (lit "OK")
    [(lit "server", lit "AkamaiGHost");
     (lit "content-type", lit "application/json");
     (lit "date", lit "Mon, 02 Nov 2026 10:00:01 GMT");
     (lit "content-length", lit "512");
     (lit "cache-control", lit "max-age=60");
     (lit "etag", lit "abc");
     (lit "vary", lit "Accept-Encoding");
     (lit "x-cache", lit "TCP_HIT")].

(** A network where the page answers sparsely, [/en-us/] cannot be reached
    and [/index.html] answers from the edge. *)
Definition edgeNet : Net := fun _ url =>
  if streq url (lit "https://example.com/") then Some sparseAnswer
  else if streq url (lit "https://example.com/index.html") then Some edgeAnswer
  else None.

(** A network that answers every probe with a 503. *)
Definition unavailable : Response :=
  mkResponse 503 (lit "Service Unavailable") [(lit "server", lit "nginx")].

Definition unavailableNet : Net := fun _ _ => Some unavailable.

(** A network that is down. *)
Definition noNet : Net := fun _ _ => None.

(** [https://example.com/logo.png] and [http://example.com/logo.png]. *)
Definition logo : URL :=
  mkURL (lit "https:") (lit "https://example.com") (lit "/logo.png")
        (lit "https://example.com/logo.png").

Definition logoOverHttp : URL :=
  mkURL (lit "http:") (lit "http://example.com") (lit "/logo.png")
        (lit "http://example.com/logo.png").

(** A reply of the model, and the value it denotes. *)
Definition reply : jsstring := dq "{'score':90,'summary':'ok','issues':[]}".

Definition replyValue : Json.json :=
  Json.JObject
    [(lit "score", Json.JNumber (Json.numberOfZ 90));
     (lit "summary", Json.JString (lit "ok"));
     (lit "issues", Json.JArray [])].

(** The reply inside a fence with the [json] tag, and inside a bare fence. *)
Definition taggedFence : jsstring :=
  lit "```json" ++ [10] ++ reply ++ [10] ++ lit "```".

Definition bareFence : jsstring :=
  lit "```" ++ [10] ++ reply ++ [10] ++ lit "```".

(** The reply cut before its closing brace, and cut inside its summary. *)
Definition cutReply : jsstring := dq "{'score':90,'summary':'ok','issues':[]".

(** A reply with a comma before its closing brace, which [JSON.parse]
    rejects, and a reply that is JSON with the score written as a string. *)
Definition trailingComma : jsstring := dq "{'score':90,}".

Definition stringScore : jsstring := dq "{'score':'90','summary':'ok','issues':[]}".

Definition stringScoreValue : Json.json :=
  Json.JObject
    [(lit "score", Json.JString (lit "90"));
     (lit "summary", Json.JString (lit "ok"));
     (lit "issues", Json.JArray [])].

Definition cutSummary : jsstring := dq "{'score':90,'summary':'o".

(** A reply whose [summary] ends with a backslash (written escaped, as JSON
    wants it), with a line feed between two properties and a raw line feed
    inside the string of its first issue. *)
Definition backslashReply : jsstring :=
  dq "{'score':70,'summary':'C:\\'," ++ [10] ++ dq "'issues':['one" ++ [10]
  ++ dq "two']}".

(** What the repair pass is specified to make of it (the line feed inside the
    string escaped, the one between the properties kept), what the source
    makes of it (the reverse), and the value the reply denotes. *)
Definition backslashRepaired : jsstring :=
  dq "{'score':70,'summary':'C:\\'," ++ [10] ++ dq "'issues':['one\ntwo']}".

Definition backslashMisrepaired : jsstring :=
  dq "{'score':70,'summary':'C:\\',\n'issues':['one" ++ [10] ++ dq "two']}".

Definition backslashValue : Json.json :=
  Json.JObject
    [(lit "score", Json.JNumber (Json.numberOfZ 70));
     (lit "summary", Json.JString (lit "C:" ++ [92]));
     (lit "issues", Json.JArray [Json.JString (lit "one" ++ [10] ++ lit "two")])].

(** A reply with raw line feed and tab inside its strings, and no
    backslash. *)
Definition rawControlReply : jsstring :=
  dq "{'score':70,'summary':'one" ++ [10] ++ dq "two','issues':['a" ++ [9] ++ dq "b']}".

Definition rawControlValue : Json.json :=
  Json.JObject
    [(lit "score", Json.JNumber (Json.numberOfZ 70));
     (lit "summary", Json.JString (lit "one" ++ [10] ++ lit "two"));
     (lit "issues", Json.JArray [Json.JString (lit "a" ++ [9] ++ lit "b")])].

(** Results whose score is not a number from 0 to 100, or not a finite
    number. *)
Definition overshoot : Json.json :=
  Json.JObject
    [(lit "score", Json.JNumber (Json.numberOfZ 250));
     (lit "summary", Json.JString (lit "ok"));
     (lit "issues", Json.JArray [])].

Definition notANumber : Json.json :=
  Json.JObject
    [(lit "score", Json.JNumber Json.NaN);
     (lit "summary", Json.JString (lit "ok"));
     (lit "issues", Json.JArray [])].

(** A network where only the first probe is answered, sparsely. *)
Definition onlyFirstNet : Net := fun n _ =>
  match n with
  | O => Some sparseAnswer
  | S _ => None
  end.

(** A network where every probe is answered from the CDN edge. *)
Definition akamaiNet : Net := fun _ _ => Some edgeAnswer.

(** [file:///srv/site/index], parsed: a URL with an opaque origin. *)
Definition localFile : URL :=
  mkURL (lit "file:") (lit "null") (lit "/srv/site/index")
        (lit "file:///srv/site/index").

(** A network where the first probe is answered sparsely and every later one
    from the edge. *)
Definition deeperNet : Net := fun n _ =>
  match n with
  | O => Some sparseAnswer
  | S _ => Some edgeAnswer
  end.

(** An answer that carries JSON, and a network that gives it to every
    probe. *)
Definition apiAnswer : Response :=
  mkResponse 200 (lit "OK")
    [(lit "server", lit "nginx");
     (lit "content-type", lit "application/json")].

Definition apiNet : Net := fun _ _ => Some apiAnswer.

(** An answer with a page and six headers, and a network that gives it to
    every probe. *)
Definition htmlAnswer : Response :=
  mkResponse 200 (lit "OK")
    [(lit "Server", lit "nginx");
     (lit "Content-Type", lit "text/html; charset=utf-8");
     (lit "Date", lit "Mon, 02 Nov 2026 10:00:00 GMT");
     (lit "Content-Length", lit "1024");
     (lit "Strict-Transport-Security", lit "max-age=31536000");
     (lit "X-Frame-Options", lit "DENY")].

Definition htmlNet : Net := fun _ _ => Some htmlAnswer.

(** Two cookies, the first with a date. *)
Definition sessionCookie : jsstring :=
  lit "sid=1; Expires=Wed, 21 Oct 2026 07:28:00 GMT; Secure".

Definition themeCookie : jsstring := lit "theme=dark; SameSite=Lax".

(** The reply, written once more as a JSON string literal. *)
Definition doubleEncoded : jsstring :=
  dq "'{\'score\':90,\'summary\':\'ok\',\'issues\':[]}'".

(** [https://www.example.com/], parsed, and a parser that knows
    [https://www.example.com] only. *)
Definition site : URL :=
  mkURL (lit "https:") (lit "https://www.example.com") (lit "/")
        (lit "https://www.example.com/").

Definition parseSite (url : jsstring) : option URL :=
  if streq url (lit "https://www.example.com") then Some site else None.

(** The request [{"url": "example.com"}], and the same with [bypass_cache]
    set. *)
Definition askBody : Json.json :=
  Json.JObject [(lit "url", Json.JString (lit "example.com"))].

Definition ask : App.Request := App.mkRequest (inr askBody) None.

Definition bypassBody : Json.json :=
  Json.JObject
    [(lit "url", Json.JString (lit "example.com"));
     (lit "bypass_cache", Json.JBool true)].

Definition askFresh : App.Request := App.mkRequest (inr bypassBody) None.

(** A worker whose cache holds [replyValue] under every key. *)
Definition cachedWorker : App.Platform :=
  App.mkPlatform parseSite (fun _ => lit "Invalid URL") noNet
    (fun _ => lit "internal error") (fun _ => inr Json.JNull)
    (fun _ => inr replyValue) (fun _ => None) (fun _ => None).

(** A worker with an empty cache whose model binding fails, on a network that
    answers with a page. *)
Definition modelDown : App.Platform :=
  App.mkPlatform parseSite (fun _ => lit "Invalid URL") htmlNet
    (fun _ => lit "internal error")
    (fun _ => inl (Analyzer.Error (lit "model unavailable")))
    (fun _ => inr Json.JNull) (fun _ => None) (fun _ => None).

(** A worker with an empty cache on a network where every probe times
    out. *)
Definition offline : App.Platform :=
  App.mkPlatform parseSite (fun _ => lit "Invalid URL") noNet
    (fun _ => lit "The operation was aborted due to timeout")
    (fun _ => inr Json.JNull) (fun _ => inr Json.JNull) (fun _ => None)
    (fun _ => None).

End Examples.

(** * Properties *)

(** Case analysis on the comparisons of code units in the goal. *)
Ltac units :=
  repeat match goal with
  | |- context [N.eqb ?a ?b] => destruct (N.eqb_spec a b); try lia; subst
  | |- context [N.leb ?a ?b] => destruct (N.leb_spec a b); try lia
  | |- context [N.ltb ?a ?b] => destruct (N.ltb_spec a b); try lia
  end; cbn [andb orb negb]; try lia.

Ltac units_in H :=
  repeat match type of H with
  | context [N.eqb ?a ?b] => destruct (N.eqb_spec a b); try lia; subst
  | context [N.leb ?a ?b] => destruct (N.leb_spec a b); try lia
  | context [N.ltb ?a ?b] => destruct (N.ltb_spec a b); try lia
  end; cbn [andb orb negb] in H; try discriminate; try lia.

(** Literals of the source, as code units. *)
Ltac lits :=
  repeat match goal with
  | |- context [lit ?s] =>
      let v := eval vm_compute in (lit s) in change (lit s) with v
  end.


(** ** Strings *)

Module JSSpec.

Lemma trimStart_headOk s : headOk s -> trimStart s = s.
Proof. destruct s as [|c s]; simpl; [done|]. by intros ->. Qed.

Lemma headOk_trimStart s : headOk (trimStart s).
Proof.
  induction s as [|c s IH]; simpl; [done|].
  destruct (isWhiteSpace c) eqn:E; [done|]. simpl. done.
Qed.

Lemma headOk_app a b : headOk a -> headOk b -> headOk (a ++ b).
Proof. destruct a; simpl; auto. Qed.

Lemma trimStart_snoc x c :
  isWhiteSpace c = false -> exists y, trimStart (x ++ [c]) = y ++ [c].
Proof.
  intros Hc. induction x as [|d x IH]; simpl.
  - rewrite Hc. by exists [].
  - destruct (isWhiteSpace d); [done|]. by exists (d :: x).
Qed.

Lemma headOk_trimEnd t : headOk t -> headOk (trimEnd t).
Proof.
  unfold trimEnd. destruct t as [|c t]; simpl; [done|]. intros Hc.
  destruct (trimStart_snoc (rev t) c Hc) as [y ->].
  rewrite rev_app_distr. simpl. done.
Qed.

Lemma headOk_rev_trimEnd t : headOk (rev (trimEnd t)).
Proof. unfold trimEnd. rewrite rev_involutive. apply headOk_trimStart. Qed.

(** A string with no white space at either end is what [trim] returns for
    it. *)
Lemma trim_tight s : headOk s -> headOk (rev s) -> trim s = s.
Proof.
  intros H1 H2. unfold trim, trimEnd. rewrite (trimStart_headOk s H1).
  rewrite (trimStart_headOk _ H2). apply rev_involutive.
Qed.

Lemma trim_headOk s : headOk (trim s).
Proof. apply headOk_trimEnd, headOk_trimStart. Qed.

Lemma trim_rev_headOk s : headOk (rev (trim s)).
Proof. apply headOk_rev_trimEnd. Qed.

Lemma trim_idempotent s : trim (trim s) = trim s.
Proof. apply trim_tight; [apply trim_headOk | apply trim_rev_headOk]. Qed.

Lemma startsWith_comparable a : forall b s,
  startsWith a s = true -> startsWith b s = true ->
  startsWith a b = true \/ startsWith b a = true.
Proof.
  induction a as [|c a IH]; intros b s Ha Hb; [by left|].
  destruct b as [|d b]; [by right|].
  destruct s as [|e s]; [done|]. simpl in *.
  apply andb_true_iff in Ha as [Hc Ha]. apply andb_true_iff in Hb as [Hd Hb].
  apply N.eqb_eq in Hc, Hd. subst. rewrite N.eqb_refl. simpl.
  eauto.
Qed.

Lemma startsWith_map (f : N -> N) a : forall s,
  startsWith a s = true -> startsWith (map f a) (map f s) = true.
Proof.
  induction a as [|c a IH]; intros [|d s]; simpl; try done.
  intros [Hc Ha]%andb_true_iff. apply N.eqb_eq in Hc. subst.
  rewrite N.eqb_refl. simpl. auto.
Qed.

Lemma endsWith_toLowerCase e p :
  endsWith e p = true -> endsWith (toLowerCase e) (toLowerCase p) = true.
Proof.
  unfold endsWith, toLowerCase. rewrite <- !map_rev. apply startsWith_map.
Qed.

Lemma spanUnits_app f a rest :
  forallb f a = true ->
  match rest with [] => True | c :: _ => f c = false end ->
  spanUnits f (a ++ rest) = (a, rest).
Proof.
  intros Ha Hrest. induction a as [|c a IH]; simpl.
  - destruct rest as [|c rest]; [done|]. simpl. by rewrite Hrest.
  - simpl in Ha. apply andb_true_iff in Ha as [Hc Ha]. rewrite Hc, (IH Ha). done.
Qed.

Lemma spanUnits_stop f c t : f c = false -> spanUnits f (c :: t) = ([], c :: t).
Proof. intros H. simpl. by rewrite H. Qed.

Lemma spanUnits_length f s : (length (snd (spanUnits f s)) <= length s)%nat.
Proof.
  induction s as [|c s IH]; simpl; [lia|].
  destruct (f c); [|simpl; lia]. destruct (spanUnits f s). simpl in *. lia.
Qed.

Lemma startsWith_length p : forall s,
  startsWith p s = true -> (length p <= length s)%nat.
Proof.
  induction p as [|c p IH]; intros [|d s]; simpl; try done; [lia|].
  intros [_ H]%andb_true_iff. apply IH in H. lia.
Qed.

Lemma trimStart_forallb f t : forallb f t = true -> forallb f (trimStart t) = true.
Proof.
  induction t as [|c t IH]; [done|]. cbn [trimStart].
  destruct (isWhiteSpace c); [|done]. cbn [forallb].
  intros [_ H]%andb_true_iff. auto.
Qed.

Lemma forallb_rev (f : N -> bool) t : forallb f (rev t) = forallb f t.
Proof.
  induction t as [|c t IH]; [reflexivity|]. cbn [rev forallb].
  rewrite forallb_app, IH. cbn [forallb]. rewrite andb_true_r. apply andb_comm.
Qed.

Lemma trim_forallb f t : forallb f t = true -> forallb f (trim t) = true.
Proof.
  intros H. unfold trim, trimEnd. rewrite forallb_rev.
  apply trimStart_forallb. rewrite forallb_rev. by apply trimStart_forallb.
Qed.

Lemma trimStart_line_feed t :
  trimStart (t ++ [10]) = match trimStart t with [] => [] | r => r ++ [10] end.
Proof.
  induction t as [|c t IH]; [reflexivity|]. cbn [app trimStart].
  destruct (isWhiteSpace c); [exact IH | reflexivity].
Qed.

Lemma trimEnd_line_feed r : trimEnd (r ++ [10]) = trimEnd r.
Proof. unfold trimEnd. by rewrite rev_unit. Qed.

Lemma trim_line_feed t : trim (t ++ [10]) = trim t.
Proof.
  unfold trim. rewrite trimStart_line_feed.
  destruct (trimStart t) as [|c r]; [reflexivity|]. apply trimEnd_line_feed.
Qed.

End JSSpec.

(** ** URL normalisation and the classification engine *)

Module UtilsSpec.
Import Utils JSSpec.

Lemma normalizeUrl_fixed r :
  headOk r -> headOk (rev r) -> matchesScheme r = true -> normalizeUrl r = r.
Proof.
  intros H1 H2 H3. unfold normalizeUrl. rewrite (trim_tight r H1 H2).
  by rewrite H3.
Qed.

Lemma https_prefix_normal x :
  headOk (rev x) -> normalizeUrl (lit "https://" ++ x) = lit "https://" ++ x.
Proof.
  intros Hx. apply normalizeUrl_fixed.
  - done.
  - rewrite rev_app_distr. apply headOk_app; [done|]. done.
  - reflexivity.
Qed.

(** C10.  [normalizeUrl] is idempotent, and the cache key of a normalised URL
    is the cache key of the input it was normalised from. *)
Theorem normalizeUrl_idempotent (u : jsstring) :
  normalizeUrl (normalizeUrl u) = normalizeUrl u /\
  getCacheKey (normalizeUrl u) = getCacheKey u.
Proof.
  assert (H : normalizeUrl (normalizeUrl u) = normalizeUrl u).
  { unfold normalizeUrl at 2 3.
    destruct (matchesScheme (trim u)) eqn:Hs.
    - apply normalizeUrl_fixed; [apply trim_headOk | apply trim_rev_headOk | done].
    - apply https_prefix_normal.
      destruct (baredomainPattern (trim u)); [|apply trim_rev_headOk].
      destruct (negb (startsWith (lit "www.") (trim u))); [|apply trim_rev_headOk].
      rewrite rev_app_distr. apply headOk_app; [apply trim_rev_headOk | done]. }
  split; [exact H|]. unfold getCacheKey. by rewrite H.
Qed.

(** *** The asset check *)

(** No extension of the list is the end of another one. *)
Lemma assetExtensions_apart :
  forallb (fun a => forallb (fun b => streq a b || negb (startsWith (rev a) (rev b)))
                            assetExtensions) assetExtensions = true.
Proof. vm_compute. reflexivity. Qed.

Lemma assetExtensions_lower :
  forallb (fun a => streq (toLowerCase a) a) assetExtensions = true.
Proof. vm_compute. reflexivity. Qed.

Lemma apart_eq a b :
  In a assetExtensions -> In b assetExtensions ->
  startsWith (rev a) (rev b) = true -> a = b.
Proof.
  intros Ha Hb Hs. pose proof assetExtensions_apart as H.
  rewrite forallb_forall in H. specialize (H a Ha).
  rewrite forallb_forall in H. specialize (H b Hb).
  rewrite Hs in H. simpl in H. rewrite orb_false_r in H.
  unfold streq in H. by apply bool_decide_eq_true in H.
Qed.

(** The extension [isAssetURL] returns is the one the lower-cased path ends
    in. *)
Lemma isAssetURL_ends u ext :
  In ext assetExtensions ->
  endsWith ext (toLowerCase (pathname u)) = true ->
  isAssetURL u = Some ext.
Proof.
  intros Hin Hend. unfold isAssetURL.
  destruct (find _ assetExtensions) as [ext'|] eqn:Hf.
  - apply find_some in Hf as [Hin' Hend']. f_equal.
    destruct (startsWith_comparable _ _ _ Hend' Hend) as [H|H].
    + by apply apart_eq.
    + symmetry. by apply apart_eq.
  - eapply find_none in Hf; [|exact Hin]. simpl in Hf. congruence.
Qed.

Lemma not_http u :
  protocol u <> lit "http:" -> streq (protocol u) (lit "http:") = false.
Proof. intros H. unfold streq. by apply bool_decide_eq_false. Qed.

(** C5, as the code has it.  For every URL whose scheme is not plaintext HTTP
    and whose path ends in a known asset extension, the classification is the
    asset outcome carrying that extension, and no probe is made. *)
Theorem asset_url_without_probe (u : URL) (net : Net) (ext : jsstring) :
  protocol u <> lit "http:" ->
  In ext assetExtensions ->
  endsWith ext (pathname u) = true ->
  run (fetchWithSmartFallback u) net
  = (inr (AssetURLWarning ext (assetMessage ext)), []).
Proof.
  intros Hp Hin Hend. unfold run, fetchWithSmartFallback.
  rewrite (not_http u Hp).
  assert (Hl : toLowerCase ext = ext).
  { pose proof assetExtensions_lower as H. rewrite forallb_forall in H.
    specialize (H ext Hin). unfold streq in H. by apply bool_decide_eq_true in H. }
  apply endsWith_toLowerCase in Hend. rewrite Hl in Hend.
  by rewrite (isAssetURL_ends u ext Hin Hend).
Qed.

(** The URL [https://example.com/logo.png], with a network that is never
    reached. *)
Lemma asset_url_without_probe_witness :
  run (fetchWithSmartFallback Examples.logo) Examples.noNet
  = (inr (AssetURLWarning (lit ".png") (assetMessage (lit ".png"))), []).
Proof.
  apply (asset_url_without_probe Examples.logo Examples.noNet (lit ".png")).
  - vm_compute. discriminate.
  - vm_compute. tauto.
  - vm_compute. reflexivity.
Defined.

(** C5 as stated fails on a plaintext-HTTP URL: [http://example.com/logo.png]
    ends in a known extension and is classified as HTTP-only. *)
Lemma asset_url_over_http :
  In (lit ".png") assetExtensions /\
  endsWith (lit ".png") (pathname Examples.logoOverHttp) = true /\
  run (fetchWithSmartFallback Examples.logoOverHttp) Examples.noNet
  = (inr (HTTPOnlyWarning httpOnlyMessage), []).
Proof. split; [vm_compute; tauto|]. split; vm_compute; reflexivity. Qed.

(** *** The first probe *)

(** The heuristic names the statuses 429 and 503, whatever the headers. *)
Lemma bot_protection_names_status headers statusCode :
  statusCode = 429%Z \/ statusCode = 503%Z ->
  exists detectedType, isBotProtectionResponse headers statusCode = Some detectedType.
Proof.
  intros H. unfold isBotProtectionResponse.
  destruct (_ && _); [eauto|]. destruct H as [-> | ->]; eauto.
Qed.

(** C1, what the code does.  A first probe that answers with a status other
    than 200, 429 and 503 included, is classified by the generic non-200
    outcome: the function returns before the bot-protection heuristic is
    consulted. *)
Theorem non200_before_bot_protection (u : URL) (net : Net) (res : Response) :
  protocol u <> lit "http:" ->
  isAssetURL u = None ->
  net 0%nat (href u) = Some res ->
  status res <> 200%Z ->
  run (fetchWithSmartFallback u) net
  = (inr (Non200StatusWarning (status res) (statusText res) (non200Message res)),
     [href u]).
Proof.
  intros Hp Ha Hnet Hst. unfold run, fetchWithSmartFallback.
  rewrite (not_http u Hp), Ha. unfold bind, fetch. simpl. rewrite Hnet.
  apply Z.eqb_neq in Hst. by rewrite Hst.
Qed.

(** A page answering 503 with a plain header set. *)
Lemma non200_before_bot_protection_witness :
  run (fetchWithSmartFallback Examples.page) Examples.unavailableNet
  = (inr (Non200StatusWarning 503 (lit "Service Unavailable")
            (non200Message Examples.unavailable)),
     [lit "https://example.com/"]).
Proof.
  apply (non200_before_bot_protection Examples.page Examples.unavailableNet
           Examples.unavailable).
  - vm_compute. discriminate.
  - vm_compute. reflexivity.
  - reflexivity.
  - vm_compute. discriminate.
Defined.

(** *** The escalation over the alternate paths *)

(** The alternate URLs of a URL whose origin is not opaque, and of one whose
    origin is. *)
Lemma retryUrl_tuple u path :
  streq (origin u) (lit "null") = false -> retryUrl path u = Some (origin u ++ path).
Proof. unfold retryUrl. by intros ->. Qed.

Lemma retryUrl_opaque u path :
  streq (origin u) (lit "null") = true -> retryUrl path u = None.
Proof. unfold retryUrl. by intros ->. Qed.

Lemma retryUrl_built u path target :
  retryUrl path u = Some target ->
  streq (origin u) (lit "null") = false /\ target = origin u ++ path.
Proof.
  unfold retryUrl. destruct (streq _ _); [done|]. by intros [= <-].
Qed.

(** One turn of the loop: when the URL of the path can be built it is probed
    and the probe is logged, the response is returned when it is rich, and
    nothing else decides; when it cannot, nothing is probed. *)
Lemma tryPath_run u path net log :
  tryPath u path net log
  = match retryUrl path u with
    | Some target =>
        (inr (match net (length log) target with
              | Some r => if rich (Some r) then Some (usableFrom r) else None
              | None => None
              end),
         log ++ [target])
    | None => (inr None, log)
    end.
Proof.
  unfold tryPath. destruct (retryUrl path u) as [target|]; [|reflexivity].
  unfold tryCatch, bind, fetch, ret, rich, usableFrom.
  destruct (net (length log) target) as [r|]; [|done].
  by destruct (_ && _).
Qed.

Lemma tryPaths_found u net r : forall paths i log,
  streq (origin u) (lit "null") = false ->
  (i < length paths)%nat ->
  (forall k, (k < i)%nat ->
     rich (net (length log + k)%nat (origin u ++ nth k paths [])) = false) ->
  net (length log + i)%nat (origin u ++ nth i paths []) = Some r ->
  rich (Some r) = true ->
  tryPaths u paths net log
  = (inr (Some (usableFrom r)),
     log ++ map (fun path => origin u ++ path) (firstn (S i) paths)).
Proof.
  induction paths as [|path paths IH]; intros i log Ho Hi Hbefore Hat Hrich;
    [simpl in Hi; lia|].
  cbn [tryPaths]. unfold bind. rewrite tryPath_run, (retryUrl_tuple u path Ho).
  destruct i as [|i].
  - rewrite Nat.add_0_r in Hat. cbn [nth] in Hat. rewrite Hat, Hrich.
    unfold ret. simpl. by destruct paths.
  - pose proof (Hbefore 0%nat ltac:(lia)) as H0.
    rewrite Nat.add_0_r in H0. cbn [nth] in H0.
    assert (Hnone : match net (length log) (origin u ++ path) with
                    | Some r0 => if rich (Some r0) then Some (usableFrom r0) else None
                    | None => None
                    end = None).
    { destruct (net (length log) (origin u ++ path)) as [r0|]; [|done].
      by rewrite H0. }
    rewrite Hnone.
    rewrite (IH i (log ++ [origin u ++ path])).
    + rewrite <- app_assoc. reflexivity.
    + exact Ho.
    + simpl in Hi. lia.
    + intros k Hk. rewrite length_app. simpl.
      specialize (Hbefore (S k) ltac:(lia)). cbn [nth] in Hbefore.
      by replace (length log + 1 + k)%nat with (length log + S k)%nat by lia.
    + rewrite length_app. simpl.
      by replace (length log + 1 + i)%nat with (length log + S i)%nat by lia.
    + done.
Qed.

Lemma firstn_paths u : forall paths n,
  (n <= length paths)%nat ->
  map (fun path => origin u ++ path) (firstn n paths)
  = map (fun k => origin u ++ nth k paths []) (seq 0 n).
Proof.
  induction paths as [|q paths IH]; intros [|n] Hn; try reflexivity.
  - simpl in Hn. lia.
  - cbn [firstn map seq nth]. f_equal. simpl in Hn. rewrite IH by lia.
    rewrite <- seq_shift, map_map. reflexivity.
Qed.

(** What the network answers to an alternate that can be built. *)
Lemma altAnswer_tuple net u k :
  streq (origin u) (lit "null") = false ->
  altAnswer net u k = net (S k) (altUrl u k).
Proof. intros Ho. unfold altAnswer. by rewrite (retryUrl_tuple _ _ Ho). Qed.

Lemma altAnswer_built net u k r :
  altAnswer net u k = Some r -> streq (origin u) (lit "null") = false.
Proof.
  unfold altAnswer. destruct (retryUrl _ u) as [target|] eqn:Hb; [|done].
  intros _. by apply retryUrl_built in Hb as [Ho _].
Qed.

(** What the first probe decides when its answer is sparse: the engine goes on
    to the alternate paths. *)
Lemma sparse_first_probe u net first :
  protocol u <> lit "http:" ->
  isAssetURL u = None ->
  net 0%nat (href u) = Some first ->
  sparse first ->
  run (fetchWithSmartFallback u) net
  = match tryPaths u altPaths net [href u] with
    | (inr (Some r), log) => (inr r, log)
    | (inr None, log) =>
        (inr (CDNDetectionResult
                (match serverOf (headersToObject (resHeaders first)) with
                 | [] => lit "unknown"
                 | server => server
                 end)
                (headerCount (headersToObject (resHeaders first))) sparseMessage),
         log)
    | (inl e, log) => (inl e, log)
    end.
Proof.
  intros Hp Ha Hnet (Hst & Hbot & Hct & Hcdn & Hcount).
  unfold run, fetchWithSmartFallback.
  rewrite (not_http u Hp), Ha. unfold bind at 1. unfold fetch. simpl length.
  rewrite Hnet. simpl app. rewrite Hst.
  change (negb (200 =? 200)%Z) with false. cbv iota.
  rewrite Hbot, Hct. fold (serverOf (headersToObject (resHeaders first))).
  rewrite Hcdn.
  apply Nat.ltb_lt in Hcount. rewrite Hcount.
  unfold bind. cbv beta.
  destruct (tryPaths u altPaths net [href u]) as [[e|[r|]] log]; try done.
  unfold ret. by destruct (serverOf _).
Qed.

(** C4.  When the first probe answers 200 with fewer than five headers and no
    earlier check fires, the alternate paths are probed in order and the
    result is the usable outcome carrying the headers of the first alternate
    that answers 200 with five headers or more; nothing is probed after
    it. *)
Theorem escalation_returns_first_rich (u : URL) (net : Net) (first found : Response)
    (i : nat) :
  protocol u <> lit "http:" ->
  isAssetURL u = None ->
  net 0%nat (href u) = Some first ->
  sparse first ->
  (i < length altPaths)%nat ->
  (forall k, (k < i)%nat -> rich (altAnswer net u k) = false) ->
  altAnswer net u i = Some found ->
  status found = 200%Z ->
  (5 <= headerCount (headersToObject (resHeaders found)))%nat ->
  run (fetchWithSmartFallback u) net
  = (inr (SuccessfulFetchResult found (headersToObject (resHeaders found))
            (orNull (headersToObject (resHeaders found) !! lit "content-type"))),
     href u :: map (altUrl u) (seq 0 (S i))).
Proof.
  intros Hp Ha Hnet Hsparse Hi Hbefore Hat Hst Hcount.
  pose proof (altAnswer_built net u i found Hat) as Ho.
  rewrite (sparse_first_probe u net first Hp Ha Hnet Hsparse).
  rewrite (tryPaths_found u net found altPaths i [href u] Ho Hi).
  - unfold usableFrom. rewrite (firstn_paths u altPaths (S i)) by lia.
    reflexivity.
  - intros k Hk. specialize (Hbefore k Hk).
    rewrite (altAnswer_tuple net u k Ho) in Hbefore. exact Hbefore.
  - rewrite (altAnswer_tuple net u i Ho) in Hat. exact Hat.
  - unfold rich. rewrite Hst. apply Nat.leb_le in Hcount. by rewrite Hcount.
Qed.

(** The page answers with three headers, [/en-us/] cannot be reached,
    [/index.html] answers with eight: the eight are returned, after three
    probes. *)
Lemma escalation_returns_first_rich_witness :
  run (fetchWithSmartFallback Examples.page) Examples.edgeNet
  = (inr (SuccessfulFetchResult Examples.edgeAnswer
            (headersToObject (resHeaders Examples.edgeAnswer))
            (orNull (headersToObject (resHeaders Examples.edgeAnswer)
                     !! lit "content-type"))),
     href Examples.page :: map (altUrl Examples.page) (seq 0 2)).
Proof.
  apply (escalation_returns_first_rich Examples.page Examples.edgeNet
           Examples.sparseAnswer Examples.edgeAnswer 1).
  - vm_compute. discriminate.
  - vm_compute. reflexivity.
  - vm_compute. reflexivity.
  - repeat split; try (vm_compute; reflexivity). vm_compute. lia.
  - vm_compute. lia.
  - intros [|k] Hk; [vm_compute; reflexivity | lia].
  - vm_compute. reflexivity.
  - reflexivity.
  - vm_compute. lia.
Defined.


End UtilsSpec.

(** ** The header preprocessor *)

Module HeaderProcessorSpec.
Import HeaderProcessor.

Lemma countIncludes_le token cookies :
  (countIncludes token cookies <= length cookies)%nat.
Proof. unfold countIncludes. apply List.filter_length_le. Qed.

Lemma analyzeCookies_bounds header :
  let stats := analyzeCookies header in
  (secure stats <= total stats)%nat /\
  (httpOnly stats <= total stats)%nat /\
  (sameSite stats <= total stats)%nat.
Proof.
  destruct header as [[|c header]|]; simpl; try lia.
  repeat split; apply countIncludes_le.
Qed.

(** C8.  The four cookie counts are natural numbers, none of the three
    attribute counts exceeds the total, and without a [set-cookie] header all
    four are zero. *)
Theorem cookieStats_bounds (headers : gmap jsstring jsstring) :
  let stats := cookieStats (metadata (preprocessHeaders headers)) in
  (0 <= total stats)%nat /\ (0 <= secure stats)%nat /\
  (0 <= httpOnly stats)%nat /\ (0 <= sameSite stats)%nat /\
  (secure stats <= total stats)%nat /\
  (httpOnly stats <= total stats)%nat /\
  (sameSite stats <= total stats)%nat /\
  (headers !! lit "set-cookie" = None -> stats = mkCookieStats 0 0 0 0).
Proof.
  intros stats. subst stats. unfold preprocessHeaders. cbn [metadata cookieStats].
  destruct (analyzeCookies_bounds (headers !! lit "set-cookie")) as (H1 & H2 & H3).
  repeat split; try lia; try assumption.
  intros Hnone. by rewrite Hnone.
Qed.

(** The example of the specification: two cookies folded into one header
    value. *)
Lemma two_cookies :
  analyzeCookies (Some (lit "a=1; Secure; HttpOnly, b=2; SameSite=Lax"))
  = mkCookieStats 2 1 1 1.
Proof. vm_compute. reflexivity. Qed.

End HeaderProcessorSpec.

(** ** [JSON.parse] after [JSON.stringify] *)

Module JsonSpec.
Import Json JSSpec.

(** *** String literals *)

Lemma hexValue_hexDigit n : n < 16 -> hexValue (hexDigit n) = Some n.
Proof.
  intros Hn. unfold hexValue, hexDigit, isDigit.
  destruct (N.ltb_spec n 10); units; f_equal; lia.
Qed.

Lemma hex4_hexPad4 c :
  c < 65536 ->
  hex4 (hexDigit ((c / 4096) mod 16)) (hexDigit ((c / 256) mod 16))
       (hexDigit ((c / 16) mod 16)) (hexDigit (c mod 16)) = Some c.
Proof.
  intros Hc. unfold hex4.
  rewrite !hexValue_hexDigit by (apply N.mod_lt; lia).
  f_equal. zify. Z.to_euclidean_division_equations. lia.
Qed.

(** Reading back what [QuoteJSONString] writes for one unit. *)
Lemma scanString_quoteUnit c t :
  scanString (quoteUnit c ++ t)
  = match scanString t with
    | Ok str rest => Ok (c :: str) rest
    | other => other
    end.
Proof.
  unfold quoteUnit.
  destruct (N.eqb_spec c 8); [subst; reflexivity|].
  destruct (N.eqb_spec c 9); [subst; reflexivity|].
  destruct (N.eqb_spec c 10); [subst; reflexivity|].
  destruct (N.eqb_spec c 12); [subst; reflexivity|].
  destruct (N.eqb_spec c 13); [subst; reflexivity|].
  destruct (N.eqb_spec c 34); [subst; reflexivity|].
  destruct (N.eqb_spec c 92); [subst; reflexivity|].
  destruct ((c <? 32) || isHighSurrogate c || isLowSurrogate c) eqn:He.
  - assert (Hc : c < 65536).
    { unfold isHighSurrogate, isLowSurrogate in He. units_in He. }
    unfold unicodeEscape. cbn [lit app N_of_ascii]. simpl scanString.
    cbn [hexPad4 app]. rewrite (hex4_hexPad4 c Hc). reflexivity.
  - apply orb_false_iff in He as [He _]. apply orb_false_iff in He as [He _].
    cbn [app scanString].
    destruct (N.eqb_spec c 34); [done|]. destruct (N.eqb_spec c 92); [done|].
    rewrite He. reflexivity.
Qed.

Lemma scanString_quoteUnits_bound n : forall s rest,
  (length s <= n)%nat -> scanString (quoteUnits s ++ 34 :: rest) = Ok s rest.
Proof.
  induction n as [|n IH]; intros s rest Hlen.
  - destruct s; [reflexivity | simpl in Hlen; lia].
  - destruct s as [|c s]; [reflexivity|]. cbn [quoteUnits].
    simpl in Hlen.
    assert (Hone : scanString ((quoteUnit c ++ quoteUnits s) ++ 34 :: rest)
                   = Ok (c :: s) rest).
    { rewrite <- app_assoc, scanString_quoteUnit, IH by lia. reflexivity. }
    destruct (isHighSurrogate c) eqn:Hh; [|exact Hone].
    destruct s as [|d s]; [by rewrite app_nil_r in Hone|].
    destruct (isLowSurrogate d) eqn:Hl; [|exact Hone].
    unfold isHighSurrogate in Hh. unfold isLowSurrogate in Hl.
    cbn [app scanString].
    assert (Hc : (c =? 34) = false /\ (c =? 92) = false /\ (c <? 32) = false).
    { units_in Hh. repeat split; units. }
    assert (Hd : (d =? 34) = false /\ (d =? 92) = false /\ (d <? 32) = false).
    { units_in Hl. repeat split; units. }
    destruct Hc as (-> & -> & ->). destruct Hd as (-> & -> & ->).
    simpl in Hlen. rewrite IH by lia. reflexivity.
Qed.

(** A quoted string is read back as it was. *)
Lemma scanString_quote s rest :
  scanString (quoteUnits s ++ 34 :: rest) = Ok s rest.
Proof. by apply (scanString_quoteUnits_bound (length s)). Qed.

(** *** Numbers *)

Lemma digitsOfUint_digits u : forallb isDigit (digitsOfUint u) = true.
Proof. induction u; simpl; auto. Qed.

Lemma uintOfDigits_digitsOfUint u : uintOfDigits (digitsOfUint u) = u.
Proof. induction u; simpl; rewrite ?IHu; reflexivity. Qed.

Lemma digitsOfUint_nonnil u : u <> Decimal.Nil -> digitsOfUint u <> [].
Proof. destruct u; simpl; congruence. Qed.

(** The decimal digits [String(z)] writes for a natural number. *)
Lemma ofZ_nonneg z :
  (0 <= z)%Z ->
  exists u, ofZ z = digitsOfUint u /\ Z.of_uint u = z /\ u <> Decimal.Nil.
Proof.
  intros Hz. destruct z as [|p|p]; [| |lia].
  - exists (Decimal.D0 Decimal.Nil). repeat split. discriminate.
  - exists (Pos.to_uint p). split; [reflexivity|]. split.
    + unfold Z.of_uint. rewrite DecimalPos.Unsigned.of_to. reflexivity.
    + apply DecimalPos.Unsigned.to_uint_nonnil.
Qed.

Lemma dropZeros_repeat a s : dropZeros (repeat 48 a ++ s) = dropZeros s.
Proof.
  unfold dropZeros. induction a as [|a IH]; [reflexivity|]. simpl.
  destruct (spanUnits isZeroDigit (repeat 48 a ++ s)). exact IH.
Qed.

Lemma dropZeros_head d s : isZeroDigit d = false -> dropZeros (d :: s) = d :: s.
Proof. intros H. unfold dropZeros. simpl. by rewrite H. Qed.

Lemma rev_repeat_unit (c : N) a : rev (repeat c a) = repeat c a.
Proof.
  induction a as [|a IH]; [reflexivity|]. simpl. rewrite IH.
  clear IH. induction a as [|a IH]; [reflexivity|]. simpl. by rewrite IH.
Qed.

Lemma rev_lastUnit ds : ds <> [] -> exists t, rev ds = lastUnit ds :: t.
Proof.
  induction ds as [|c ds _] using rev_ind; [done|]. intros _.
  unfold lastUnit. rewrite List.last_last, rev_unit. eauto.
Qed.

(** The value of a literal whose digits are those of [ds] between [a] zeros in
    front and [b] zeros at the end. *)
Lemma mkNumber_digits negative int frac e a b d ds :
  isZeroDigit d = false ->
  isZeroDigit (lastUnit (d :: ds)) = false ->
  int ++ frac = repeat 48 a ++ (d :: ds) ++ repeat 48 b ->
  mkNumber negative int frac e
  = Finite negative (d :: ds) (Z.of_nat (length int) + e - Z.of_nat a).
Proof.
  intros Hd Hlast Hm. unfold mkNumber. rewrite Hm.
  rewrite dropZeros_repeat. cbn [app]. rewrite (dropZeros_head d _ Hd).
  change (d :: ds ++ repeat 48 b) with ((d :: ds) ++ repeat 48 b).
  rewrite rev_app_distr, rev_repeat_unit, dropZeros_repeat.
  destruct (rev_lastUnit (d :: ds)) as [t Ht]; [done|].
  rewrite Ht, (dropZeros_head _ _ Hlast), <- Ht, rev_involutive.
  f_equal. rewrite !length_app, repeat_length. lia.
Qed.

Lemma delimited_not_digit rest :
  delimited rest -> match rest with [] => True | c :: _ => isDigit c = false end.
Proof.
  destruct rest as [|c rest]; [done|]. unfold isDigit. simpl.
  intros [-> | [-> | ->]]; reflexivity.
Qed.

Lemma scanExponent_none negative int frac rest :
  delimited rest ->
  scanExponent negative int frac rest = Some (mkNumber negative int frac 0, rest).
Proof.
  destruct rest as [|c rest]; [done|]. simpl.
  intros [-> | [-> | ->]]; reflexivity.
Qed.

Lemma scanFraction_none negative int rest :
  delimited rest ->
  scanFraction negative int rest = Some (mkNumber negative int [] 0, rest).
Proof.
  intros H. rewrite <- (scanExponent_none negative int [] rest H).
  destruct rest as [|c rest]; [done|]. simpl in H.
  destruct H as [-> | [-> | ->]]; reflexivity.
Qed.

(** The exponent part [Number::toString] writes is read back. *)
Lemma scanExponent_written negative int frac e rest :
  delimited rest ->
  scanExponent negative int frac
    (lit "e" ++ (if (e <? 0)%Z then lit "-" else lit "+") ++ ofZ (Z.abs e) ++ rest)
  = Some (mkNumber negative int frac e, rest).
Proof.
  intros Hrest.
  destruct (ofZ_nonneg (Z.abs e)) as (u & Hu & Hv & Hnil); [lia|].
  rewrite Hu. pose proof (digitsOfUint_nonnil u Hnil) as Hne.
  pose proof (spanUnits_app isDigit (digitsOfUint u) rest
                (digitsOfUint_digits u) (delimited_not_digit rest Hrest)) as Hspan.
  lits. cbn [app scanExponent].
  change ((101 =? 101) || (101 =? 69)) with true. cbv iota.
  assert (Hsign : scanSign ((if (e <? 0)%Z then [45] else [43])
                            ++ digitsOfUint u ++ rest)
                  = ((e <? 0)%Z, digitsOfUint u ++ rest)).
  { by destruct (e <? 0)%Z. }
  rewrite Hsign, Hspan.
  destruct (digitsOfUint u) as [|c ds] eqn:Hds; [done|].
  rewrite <- Hds, uintOfDigits_digitsOfUint, Hv. do 3 f_equal.
  destruct (e <? 0)%Z eqn:He.
  - apply Z.ltb_lt in He. lia.
  - apply Z.ltb_ge in He. lia.
Qed.

Lemma digit_cases d :
  isDigit d = true ->
  d = 48 \/ d = 49 \/ d = 50 \/ d = 51 \/ d = 52 \/ d = 53 \/ d = 54 \/ d = 55
  \/ d = 56 \/ d = 57.
Proof. unfold isDigit. intros H. units_in H. Qed.

(** After the sign, a literal is read from its first digit. *)
Lemma scanNumber_signed (negative : bool) (d : N) (t : jsstring) :
  isDigit d = true ->
  scanNumber ((if negative then lit "-" else []) ++ d :: t)
  = scanDigits negative (d :: t).
Proof.
  intros Hd. lits. destruct negative; [reflexivity|]. cbn [app scanNumber].
  destruct (N.eqb_spec d 45) as [->|_]; [discriminate | reflexivity].
Qed.

Lemma scanDigits_nonzero negative d t :
  isDigit d = true -> isZeroDigit d = false ->
  scanDigits negative (d :: t)
  = let '(ds, r1) := spanUnits isDigit t in scanFraction negative (d :: ds) r1.
Proof. intros Hd Hz. cbn [scanDigits]. by rewrite Hz, Hd. Qed.

Lemma scanFraction_written negative int frac r :
  frac <> [] ->
  forallb isDigit frac = true ->
  match r with [] => True | c :: _ => isDigit c = false end ->
  scanFraction negative int (46 :: frac ++ r) = scanExponent negative int frac r.
Proof.
  intros Hne Hd Hr. cbn [scanFraction]. change (46 =? 46) with true. cbv iota.
  rewrite (spanUnits_app _ _ _ Hd Hr). by destruct frac.
Qed.

Lemma forallb_isDigit_zeros a : forallb isDigit (repeat 48 a) = true.
Proof. induction a; simpl; auto. Qed.

Lemma forallb_split (f : N -> bool) m (l : jsstring) :
  forallb f l = true ->
  forallb f (firstn m l) = true /\ forallb f (skipn m l) = true.
Proof.
  intros H. rewrite <- (firstn_skipn m l), forallb_app in H.
  by apply andb_true_iff.
Qed.

(** What [Number::toString] writes for a finite number is read back as that
    number. *)
Lemma scanNumber_toString x rest :
  canonical x = true ->
  delimited rest ->
  scanNumber (numberToString x ++ rest) = Some (x, rest).
Proof.
  intros Hx Hrest. destruct x as [| | |negative ds n]; try discriminate.
  cbn [canonical] in Hx. apply andb_true_iff in Hx as [Hds Hx].
  destruct ds as [|d ds].
  { apply andb_true_iff in Hx as [Hneg Hn]. apply Z.eqb_eq in Hn. subst n.
    destruct negative; [discriminate|]. cbn [numberToString]. lits.
    cbn [app]. change (scanNumber (48 :: rest)) with (scanFraction false [48] rest).
    rewrite (scanFraction_none _ _ _ Hrest). reflexivity. }
  apply andb_true_iff in Hx as [Hd Hlast].
  apply negb_true_iff in Hd, Hlast.
  cbn [forallb] in Hds. apply andb_true_iff in Hds as [Hdd Hds].
  pose proof (delimited_not_digit rest Hrest) as Hnd.
  cbn [numberToString]. rewrite <- app_assoc.
  set (k := Z.of_nat (length (d :: ds))).
  assert (Hk : k = (1 + Z.of_nat (length ds))%Z) by (subst k; simpl length; lia).
  destruct ((k <=? n)%Z && (n <=? 21)%Z) eqn:C1.
  { (* the digits, then zeros *)
    apply andb_true_iff in C1 as [C1 _]. apply Z.leb_le in C1.
    unfold zeros. cbn [app].
    rewrite (scanNumber_signed _ _ _ Hdd), (scanDigits_nonzero _ _ _ Hdd Hd).
    rewrite <- !app_assoc, (app_assoc ds).
    rewrite (spanUnits_app isDigit (ds ++ repeat 48 (Z.to_nat (n - k))) rest).
    - rewrite (scanFraction_none _ _ _ Hrest). f_equal. f_equal.
      rewrite (mkNumber_digits negative _ [] 0 0 (Z.to_nat (n - k)) d ds Hd Hlast).
      + f_equal. simpl length. rewrite length_app, repeat_length. lia.
      + rewrite app_nil_r. reflexivity.
    - rewrite forallb_app, Hds. apply forallb_isDigit_zeros.
    - exact Hnd. }
  destruct ((0 <? n)%Z && (n <=? 21)%Z) eqn:C2.
  { (* a decimal point inside the digits *)
    apply andb_true_iff in C2 as [C2 C2']. apply Z.ltb_lt in C2.
    apply andb_false_iff in C1 as [C1|C1]; [|congruence].
    apply Z.leb_gt in C1.
    destruct (Z.to_nat n) as [|m] eqn:Hm; [lia|].
    cbn [firstn skipn app].
    rewrite (scanNumber_signed _ _ _ Hdd), (scanDigits_nonzero _ _ _ Hdd Hd).
    lits. rewrite <- !app_assoc. cbn [app].
    destruct (forallb_split isDigit m ds Hds) as [Hfirst Hskip].
    rewrite (spanUnits_app isDigit (firstn m ds) (46 :: skipn m ds ++ rest));
      [|exact Hfirst | reflexivity].
    assert (Hlen : (m < length ds)%nat) by lia.
    rewrite scanFraction_written.
    - rewrite (scanExponent_none _ _ _ _ Hrest). f_equal. f_equal.
      rewrite (mkNumber_digits negative _ _ 0 0 0 d ds Hd Hlast).
      + f_equal. simpl length. rewrite length_firstn. lia.
      + cbn [repeat app]. rewrite app_nil_r. f_equal. apply firstn_skipn.
    - intros Hnil. apply (f_equal (@length N)) in Hnil.
      rewrite length_skipn in Hnil. simpl in Hnil. lia.
    - exact Hskip.
    - exact Hnd. }
  destruct ((-6 <? n)%Z && (n <=? 0)%Z) eqn:C3.
  { (* zero, a decimal point, zeros, the digits *)
    apply andb_true_iff in C3 as [_ C3]. apply Z.leb_le in C3.
    lits. unfold zeros. cbn [app].
    rewrite (scanNumber_signed negative 48 _ eq_refl).
    change (scanDigits negative (48 :: ?t)) with (scanFraction negative [48] t).
    rewrite <- !app_assoc.
    rewrite (app_assoc (repeat 48 _) (d :: ds) rest).
    rewrite scanFraction_written.
    - rewrite (scanExponent_none _ _ _ _ Hrest). f_equal. f_equal.
      rewrite (mkNumber_digits negative [48] _ 0 (S (Z.to_nat (- n))) 0 d ds Hd Hlast).
      + f_equal. simpl length. lia.
      + rewrite app_nil_r. reflexivity.
    - destruct (repeat 48 (Z.to_nat (- n))); discriminate.
    - rewrite forallb_app, forallb_isDigit_zeros. simpl. by rewrite Hdd, Hds.
    - exact Hnd. }
  (* exponent notation *)
  destruct ds as [|d' ds].
  - cbn [app].
    rewrite (scanNumber_signed _ _ _ Hdd), (scanDigits_nonzero _ _ _ Hdd Hd).
    rewrite <- !app_assoc.
    replace (spanUnits isDigit (lit "e" ++
               (if (n - 1 <? 0)%Z then lit "-" else lit "+") ++
               ofZ (Z.abs (n - 1)) ++ rest))
      with (@nil N, lit "e" ++ (if (n - 1 <? 0)%Z then lit "-" else lit "+") ++
                    ofZ (Z.abs (n - 1)) ++ rest) by reflexivity.
    replace (scanFraction negative [d] (lit "e" ++
               (if (n - 1 <? 0)%Z then lit "-" else lit "+") ++
               ofZ (Z.abs (n - 1)) ++ rest))
      with (scanExponent negative [d] [] (lit "e" ++
               (if (n - 1 <? 0)%Z then lit "-" else lit "+") ++
               ofZ (Z.abs (n - 1)) ++ rest)) by reflexivity.
    rewrite (scanExponent_written _ _ _ _ _ Hrest). f_equal. f_equal.
    rewrite (mkNumber_digits negative [d] [] _ 0 0 d [] Hd Hlast); [|reflexivity].
    f_equal. simpl length. lia.
  - cbn [app].
    rewrite (scanNumber_signed _ _ _ Hdd), (scanDigits_nonzero _ _ _ Hdd Hd).
    lits. rewrite <- ?app_assoc. cbn [app]. rewrite <- ?app_assoc. cbn [app].
    rewrite (spanUnits_stop isDigit 46 _ eq_refl).
    change (46 :: d' :: ds ++ 101 :: ?t) with (46 :: (d' :: ds) ++ 101 :: t).
    rewrite scanFraction_written; [|discriminate|exact Hds|reflexivity].
    rewrite <- ?app_assoc.
    pose proof (scanExponent_written negative [d] (d' :: ds) (n - 1) rest Hrest) as He.
    revert He. lits. cbn [app]. intros ->. f_equal. f_equal.
    rewrite (mkNumber_digits negative [d] (d' :: ds) _ 0 0 d (d' :: ds) Hd Hlast);
      [|cbn [repeat app]; by rewrite app_nil_r].
    f_equal. simpl length. lia.
Qed.

(** *** Values *)

(** Induction on values, with the hypothesis on every element of an array and
    every value of a property. *)
Lemma json_nested_ind (P : json -> Prop) :
  P JNull ->
  (forall b, P (JBool b)) ->
  (forall x, P (JNumber x)) ->
  (forall str, P (JString str)) ->
  (forall elements, Forall P elements -> P (JArray elements)) ->
  (forall properties, Forall (fun kv => P (snd kv)) properties ->
                      P (JObject properties)) ->
  forall v, P v.
Proof.
  intros Hnull Hbool Hnum Hstr Harr Hobj. fix IH 1. intros [ |b|x|str|l|props].
  - exact Hnull.
  - apply Hbool.
  - apply Hnum.
  - apply Hstr.
  - apply Harr. induction l as [|e l IHl]; constructor; [apply IH | exact IHl].
  - apply Hobj. induction props as [|[k w] props IHp]; constructor;
      [apply IH | exact IHp].
Qed.

Lemma valueStart_cases c :
  valueStart c = true ->
  c = 123 \/ c = 91 \/ c = 34 \/ c = 116 \/ c = 102 \/ c = 110 \/ c = 45
  \/ isDigit c = true.
Proof.
  unfold valueStart. intros H.
  repeat (apply orb_true_iff in H as [H|H]); try (apply N.eqb_eq in H); tauto.
Qed.

Ltac start_cases c H :=
  destruct (valueStart_cases c H) as [->|[->|[->|[->|[->|[->|[->|Hdigit]]]]]]];
  [..| destruct (digit_cases c Hdigit)
         as [->|[->|[->|[->|[->|[->|[->|[->|[->| ->]]]]]]]]]].

Lemma numberToString_head x :
  canonical x = true ->
  exists c t, numberToString x = c :: t /\ (c = 45 \/ isDigit c = true).
Proof.
  destruct x as [| | |negative ds n]; try discriminate.
  cbn [canonical]. intros [Hds Hx]%andb_true_iff.
  destruct ds as [|d ds]; [exists 48, []; split; [reflexivity | by right]|].
  cbn [forallb] in Hds. apply andb_true_iff in Hds as [Hd _].
  assert (Hv : d = 45 \/ isDigit d = true) by (by right).
  clear Hx. cbn [numberToString].
  destruct negative; [eexists 45, _; split; [reflexivity | by left]|]. cbn [app].
  destruct (_ && _); [eexists d, _; split; [reflexivity | exact Hv]|].
  destruct (_ && _) eqn:C2.
  { apply andb_true_iff in C2 as [C2 _]. apply Z.ltb_lt in C2.
    destruct (Z.to_nat n) eqn:Hn; [lia|].
    eexists d, _; split; [reflexivity | exact Hv]. }
  clear C2. destruct (_ && _); [eexists 48, _; split; [reflexivity | by right]|].
  destruct ds; eexists d, _; (split; [reflexivity | exact Hv]).
Qed.

Lemma stringify_head v :
  serializable v = true -> exists c t, stringify v = c :: t /\ valueStart c = true.
Proof.
  destruct v as [ |[|]|x|str|l|props]; intros Hv.
  - by exists 110, (lit "ull").
  - by exists 116, (lit "rue").
  - by exists 102, (lit "alse").
  - cbn [stringify serializable] in *.
    destruct x; try discriminate. cbn [isFinite].
    destruct (numberToString_head _ Hv) as (c & t & Hc & Hcase).
    exists c, t. split; [exact Hc|]. destruct Hcase as [->|Hd]; [reflexivity|].
    unfold valueStart. rewrite Hd. by rewrite !orb_true_r.
  - eexists 34, _; split; reflexivity.
  - eexists 91, _; split; reflexivity.
  - eexists 123, _; split; reflexivity.
Qed.

Lemma parseElements_step fuel acc s :
  parseElements (S fuel) acc s
  = match parseValue fuel s with
    | Ok v rest =>
        match skipSpace rest with
        | c :: r =>
            if c =? 44 then parseElements fuel (acc ++ [v]) r
            else if c =? 93 then Ok (JArray (acc ++ [v])) r
            else Rejected Unexpected
        | [] => Rejected Unexpected
        end
    | other => other
    end.
Proof. reflexivity. Qed.

Lemma parseMembers_step fuel acc key r1 :
  parseMembers (S fuel) acc (34 :: quoteUnits key ++ 34 :: 58 :: r1)
  = match parseValue fuel r1 with
    | Ok v rest1 =>
        match skipSpace rest1 with
        | c :: r2 =>
            if c =? 44 then parseMembers fuel (setProp key v acc) r2
            else if c =? 125 then Ok (JObject (setProp key v acc)) r2
            else Rejected Unexpected
        | [] => Rejected Unexpected
        end
    | other => other
    end.
Proof.
  cbn [parseMembers]. change (skipSpace (34 :: ?t)) with (34 :: t). cbv iota.
  change (34 =? 34) with true. cbv iota. rewrite scanString_quote.
  reflexivity.
Qed.

Lemma parseValue_number fuel c t :
  c = 45 \/ isDigit c = true ->
  parseValue (S fuel) (c :: t)
  = match scanNumber (c :: t) with
    | Some (x, rest) => Ok (JNumber x) rest
    | None => Rejected Unexpected
    end.
Proof.
  intros [->|H]; [reflexivity|].
  destruct (digit_cases c H) as [->|[->|[->|[->|[->|[->|[->|[->|[->| ->]]]]]]]]];
    reflexivity.
Qed.

Lemma parseValue_array fuel c t :
  valueStart c = true ->
  parseValue (S fuel) (91 :: c :: t) = parseElements fuel [] (c :: t).
Proof. intros H. start_cases c H; reflexivity. Qed.

Lemma parseValue_object fuel t :
  parseValue (S fuel) (123 :: 34 :: t) = parseMembers fuel [] (34 :: t).
Proof. reflexivity. Qed.

Lemma setProp_fresh key v acc :
  ~ In key (map fst acc) -> setProp key v acc = acc ++ [(key, v)].
Proof.
  induction acc as [|[k w] acc IH]; intros Hin; [reflexivity|].
  simpl in *. unfold streq. rewrite bool_decide_eq_false_2 by tauto.
  rewrite IH by tauto. reflexivity.
Qed.

Lemma joinComma_cons x y parts :
  joinComma (x :: y :: parts) = x ++ 44 :: joinComma (y :: parts).
Proof. reflexivity. Qed.

Lemma skipSpace_comma t : skipSpace (44 :: t) = 44 :: t.
Proof. reflexivity. Qed.

Lemma skipSpace_bracket t : skipSpace (93 :: t) = 93 :: t.
Proof. reflexivity. Qed.

Lemma skipSpace_brace t : skipSpace (125 :: t) = 125 :: t.
Proof. reflexivity. Qed.

Lemma parseElements_stringify l :
  l <> [] ->
  Forall roundTrips l ->
  forall fuel acc rest,
    (2 * length (joinComma (map stringify l)) + 1 < fuel)%nat ->
    parseElements fuel acc (joinComma (map stringify l) ++ 93 :: rest)
    = Ok (JArray (acc ++ l)) rest.
Proof.
  induction l as [|e l IH]; [done|]. intros _ Hall fuel acc rest Hfuel.
  apply Forall_cons_iff in Hall as [He Hall].
  destruct fuel as [|fuel]; [lia|]. rewrite parseElements_step.
  destruct l as [|e2 l].
  - cbn [map joinComma] in *.
    rewrite (He fuel (93 :: rest)); [|lia|simpl; tauto].
    rewrite skipSpace_bracket. reflexivity.
  - change (map stringify (e :: e2 :: l))
      with (stringify e :: stringify e2 :: map stringify l) in Hfuel |- *.
    rewrite joinComma_cons in Hfuel |- *.
    change (stringify e2 :: map stringify l) with (map stringify (e2 :: l)) in *.
    set (tail := joinComma (map stringify (e2 :: l))) in *.
    rewrite length_app in Hfuel. cbn [length] in Hfuel.
    rewrite <- app_assoc. cbn [app].
    rewrite (He fuel (44 :: tail ++ 93 :: rest)); [|lia|simpl; tauto].
    rewrite skipSpace_comma. change (44 =? 44) with true. cbv iota. subst tail.
    rewrite (IH ltac:(done) Hall fuel (acc ++ [e]) rest) by lia.
    by rewrite <- app_assoc.
Qed.

Lemma member_written k w t :
  member (k, w) ++ t = 34 :: quoteUnits k ++ 34 :: 58 :: stringify w ++ t.
Proof.
  cbn [member]. unfold quote. lits. rewrite <- !app_assoc. reflexivity.
Qed.

Lemma member_length k w :
  length (member (k, w)) = (3 + length (quoteUnits k) + length (stringify w))%nat.
Proof.
  cbn [member]. unfold quote. lits. rewrite !length_app. cbn [length]. lia.
Qed.

Lemma parseMembers_stringify props :
  props <> [] ->
  Forall (fun kv => roundTrips (snd kv)) props ->
  forall fuel acc rest,
    List.NoDup (map fst (acc ++ props)) ->
    (2 * length (joinComma (map member props)) + 1 < fuel)%nat ->
    parseMembers fuel acc (joinComma (map member props) ++ 125 :: rest)
    = Ok (JObject (acc ++ props)) rest.
Proof.
  induction props as [|[k w] props IH]; [done|].
  intros _ Hall fuel acc rest Hdup Hfuel.
  apply Forall_cons_iff in Hall as [Hw Hall]. cbn [snd] in Hw.
  destruct fuel as [|fuel]; [lia|].
  assert (Hfresh : setProp k w acc = acc ++ [(k, w)]).
  { apply setProp_fresh. rewrite map_app in Hdup. cbn [map fst] in Hdup.
    apply NoDup_remove_2 in Hdup. intros Hin. apply Hdup.
    apply in_or_app. by left. }
  destruct props as [|kv2 props].
  - cbn [map joinComma] in Hfuel |- *. rewrite member_length in Hfuel.
    rewrite member_written, parseMembers_step.
    rewrite (Hw fuel (125 :: rest)); [|lia|simpl; tauto].
    rewrite skipSpace_brace. change (125 =? 44) with false.
    change (125 =? 125) with true. cbv iota. by rewrite Hfresh.
  - change (map member ((k, w) :: kv2 :: props))
      with (member (k, w) :: member kv2 :: map member props) in Hfuel |- *.
    rewrite joinComma_cons in Hfuel |- *.
    change (member kv2 :: map member props) with (map member (kv2 :: props)) in *.
    set (tail := joinComma (map member (kv2 :: props))) in *.
    rewrite length_app, member_length in Hfuel. cbn [length] in Hfuel.
    rewrite <- app_assoc. cbn [app]. rewrite member_written, parseMembers_step.
    rewrite (Hw fuel (44 :: tail ++ 125 :: rest)); [|lia|simpl; tauto].
    rewrite skipSpace_comma. change (44 =? 44) with true. cbv iota.
    subst tail. rewrite Hfresh.
    rewrite (IH ltac:(done) Hall fuel (acc ++ [(k, w)]) rest).
    + by rewrite <- app_assoc.
    + by rewrite <- app_assoc.
    + lia.
Qed.

Lemma serializable_elements l :
  serializable (JArray l) = true -> Forall (fun e => serializable e = true) l.
Proof.
  cbn [serializable]. intros H. apply Forall_forall. intros e He.
  rewrite forallb_forall in H. apply H. by apply list_elem_of_In.
Qed.

Lemma uniqueKeys_NoDup keys : uniqueKeys keys = true -> List.NoDup keys.
Proof.
  induction keys as [|k keys IH]; cbn [uniqueKeys]; [constructor|].
  intros [Hk Hrest]%andb_true_iff. constructor; [|auto].
  intros Hin. apply negb_true_iff in Hk.
  assert (existsb (streq k) keys = true); [|congruence].
  apply existsb_exists. exists k. split; [exact Hin|].
  unfold streq. by apply bool_decide_eq_true.
Qed.

Lemma serializable_properties props :
  serializable (JObject props) = true ->
  List.NoDup (map fst props)
  /\ Forall (fun kv => serializable (snd kv) = true) props.
Proof.
  cbn [serializable]. intros [Hdup H]%andb_true_iff.
  split; [by apply uniqueKeys_NoDup|].
  apply Forall_forall. intros kv Hkv. rewrite forallb_forall in H. apply H.
  by apply list_elem_of_In.
Qed.

Lemma stringify_object props :
  stringify (JObject props) = lit "{" ++ joinComma (map member props) ++ lit "}".
Proof. reflexivity. Qed.

(** Every serializable value is read back from the text [JSON.stringify]
    writes for it. *)
Lemma parseValue_stringify v : serializable v = true -> roundTrips v.
Proof.
  induction v as [ |b|x|str|l IH|props IH] using json_nested_ind;
    intros Hv fuel rest Hfuel Hrest;
    (destruct fuel as [|fuel]; [lia|]).
  - reflexivity.
  - destruct b; reflexivity.
  - cbn [serializable] in Hv. cbn [stringify].
    destruct x as [| | |negative ds n]; try discriminate. cbn [isFinite].
    destruct (numberToString_head _ Hv) as (c & t & Hc & Hstart).
    pose proof (scanNumber_toString _ rest Hv Hrest) as Hscan.
    rewrite Hc in Hscan |- *. cbn [app] in Hscan |- *.
    by rewrite (parseValue_number _ _ _ Hstart), Hscan.
  - cbn [stringify]. unfold quote. rewrite <- ?app_assoc. cbn [app].
    change (parseValue (S fuel) (34 :: ?t))
      with (match scanString t with
            | Ok s r => Ok (JString s) r
            | Rejected e => Rejected e
            | OutOfFuel => OutOfFuel
            end).
    by rewrite scanString_quote.
  - cbn [stringify] in Hfuel |- *. revert Hfuel. lits. rewrite ?length_app.
    cbn [length]. intros Hfuel. rewrite <- ?app_assoc. cbn [app].
    destruct l as [|e l]; [reflexivity|].
    pose proof (serializable_elements _ Hv) as Hall.
    assert (Hrt : Forall roundTrips (e :: l)).
    { clear -IH Hall. induction Hall; inversion IH; subst; constructor; auto. }
    destruct (stringify_head e) as (c & t & Hc & Hstart);
      [by inversion Hall|].
    assert (Hj : exists t', joinComma (map stringify (e :: l)) = c :: t').
    { cbn [map joinComma]. rewrite Hc. destruct (map stringify l); eauto. }
    destruct Hj as [t' Hj]. rewrite Hj at 1. cbn [app].
    rewrite (parseValue_array _ _ _ Hstart).
    change (c :: t' ++ 93 :: rest) with ((c :: t') ++ 93 :: rest). rewrite <- Hj.
    rewrite (parseElements_stringify (e :: l) ltac:(done) Hrt fuel [] rest) by lia.
    reflexivity.
  - rewrite stringify_object in Hfuel |- *. revert Hfuel. lits.
    rewrite ?length_app. cbn [length]. intros Hfuel.
    rewrite <- ?app_assoc. cbn [app].
    destruct props as [|[k w] props]; [reflexivity|].
    destruct (serializable_properties _ Hv) as [Hdup Hall].
    assert (Hrt : Forall (fun kv => roundTrips (snd kv)) ((k, w) :: props)).
    { clear -IH Hall. induction Hall; inversion IH; subst; constructor; auto. }
    assert (Hj : exists t', joinComma (map member ((k, w) :: props)) = 34 :: t').
    { cbn [map joinComma member]. unfold quote. destruct (map member props); eauto. }
    destruct Hj as [t' Hj]. rewrite Hj at 1. cbn [app].
    rewrite parseValue_object.
    change (34 :: t' ++ 125 :: rest) with ((34 :: t') ++ 125 :: rest). rewrite <- Hj.
    rewrite (parseMembers_stringify ((k, w) :: props) ltac:(done) Hrt fuel [] rest Hdup)
      by lia.
    reflexivity.
Qed.

(** *** Fuel *)

Lemma skipSpace_length s : (length (skipSpace s) <= length s)%nat.
Proof. apply spanUnits_length. Qed.

Lemma scanString_progress n : forall s,
  (length s <= n)%nat ->
  scanString s <> OutOfFuel /\
  forall str rest, scanString s = Ok str rest -> (length rest < length s)%nat.
Proof.
  induction n as [|n IH]; intros [|c s] Hlen; try (split; [done|discriminate]).
  { simpl in Hlen. lia. }
  simpl in Hlen. cbn [scanString].
  destruct (c =? 34); [split; [done|]; intros ? ? [= <- <-]; simpl; lia|].
  destruct (c =? 92).
  - destruct s as [|e s]; [split; [done|discriminate]|]. simpl in Hlen.
    destruct (e =? 117).
    + destruct s as [|h1 [|h2 [|h3 [|h4 s]]]]; try (split; [done|discriminate]).
      destruct (hex4 h1 h2 h3 h4); [|split; [done|discriminate]].
      simpl in Hlen. destruct (IH s ltac:(lia)) as [Hf Hl].
      destruct (scanString s) as [str rest|e'|]; [|split; [done|discriminate]|done].
      split; [done|]. intros ? ? [= <- <-]. specialize (Hl _ _ eq_refl).
      simpl. lia.
    + destruct (unescape e); [|split; [done|discriminate]].
      destruct (IH s ltac:(lia)) as [Hf Hl].
      destruct (scanString s) as [str rest|e'|]; [|split; [done|discriminate]|done].
      split; [done|]. intros ? ? [= <- <-]. specialize (Hl _ _ eq_refl).
      simpl. lia.
  - destruct (c <? 32); [split; [done|discriminate]|].
    destruct (IH s ltac:(lia)) as [Hf Hl].
    destruct (scanString s) as [str rest|e'|]; [|split; [done|discriminate]|done].
    split; [done|]. intros ? ? [= <- <-]. specialize (Hl _ _ eq_refl).
    simpl. lia.
Qed.

Lemma scanSign_length s : (length (snd (scanSign s)) <= length s)%nat.
Proof.
  destruct s as [|c r]; simpl; [lia|].
  destruct (c =? 45); [simpl; lia|]. destruct (c =? 43); simpl; lia.
Qed.

Lemma scanExponent_length negative int frac s x rest :
  scanExponent negative int frac s = Some (x, rest) ->
  (length rest <= length s)%nat.
Proof.
  destruct s as [|e r]; cbn [scanExponent]; [by intros [= _ <-]|].
  destruct (_ || _); [|by intros [= _ <-]].
  pose proof (scanSign_length r) as H1. destruct (scanSign r) as [eneg r1].
  pose proof (spanUnits_length isDigit r1) as H2.
  destruct (spanUnits isDigit r1) as [ds r2]. destruct ds; [discriminate|].
  intros [= _ <-]. simpl in *. lia.
Qed.

Lemma scanFraction_length negative int s x rest :
  scanFraction negative int s = Some (x, rest) -> (length rest <= length s)%nat.
Proof.
  destruct s as [|c r]; cbn [scanFraction]; [apply scanExponent_length|].
  destruct (c =? 46); [|apply scanExponent_length].
  pose proof (spanUnits_length isDigit r) as H.
  destruct (spanUnits isDigit r) as [frac r1]. destruct frac; [discriminate|].
  intros Hx%scanExponent_length. simpl in *. lia.
Qed.

Lemma scanDigits_length negative s x rest :
  scanDigits negative s = Some (x, rest) -> (length rest < length s)%nat.
Proof.
  destruct s as [|d r]; cbn [scanDigits]; [discriminate|].
  destruct (isZeroDigit d); [intros H%scanFraction_length; simpl; lia|].
  destruct (isDigit d); [|discriminate].
  pose proof (spanUnits_length isDigit r) as H.
  destruct (spanUnits isDigit r) as [ds r1].
  intros Hx%scanFraction_length. simpl in *. lia.
Qed.

Lemma scanNumber_length s x rest :
  scanNumber s = Some (x, rest) -> (length rest < length s)%nat.
Proof.
  destruct s as [|c r]; cbn [scanNumber]; [discriminate|].
  destruct (c =? 45); intros H%scanDigits_length; simpl in *; lia.
Qed.

Lemma expect_length word v s v' rest :
  word <> [] -> expect word v s = Ok v' rest -> (length rest < length s)%nat.
Proof.
  unfold expect. intros Hw. destruct (startsWith word s) eqn:H; [|discriminate].
  apply startsWith_length in H. intros [= _ <-]. rewrite length_skipn.
  destruct word; [done|]. simpl in *. lia.
Qed.

Lemma expect_fuel word v s : expect word v s <> OutOfFuel.
Proof. unfold expect. by destruct (startsWith word s). Qed.

Lemma progresses_rejected e s : progresses (Rejected e) s.
Proof. split; [done | discriminate]. Qed.

Lemma progresses_ok v rest s :
  (length rest < length s)%nat -> progresses (Ok v rest) s.
Proof. intros H. split; [done|]. by intros ? ? [= <- <-]. Qed.

Lemma progresses_shorter result r s :
  progresses result r -> (length r <= length s)%nat -> progresses result s.
Proof.
  intros [Hf Hl] Hlen. split; [done|]. intros v rest H.
  specialize (Hl v rest H). lia.
Qed.

(** With fuel above twice the length of the input no call of the parser runs
    out of it. *)
Lemma parser_progresses fuel :
  (forall s, (2 * length s + 2 <= fuel)%nat -> progresses (parseValue fuel s) s) /\
  (forall s acc, (2 * length s + 3 <= fuel)%nat ->
                 progresses (parseElements fuel acc s) s) /\
  (forall s acc, (2 * length s + 2 <= fuel)%nat ->
                 progresses (parseMembers fuel acc s) s).
Proof.
  induction fuel as [|fuel (IHv & IHe & IHm)];
    [repeat split; intros; lia|].
  split; [|split].
  - intros s Hfuel. cbn [parseValue].
    pose proof (skipSpace_length s) as Hs.
    destruct (skipSpace s) as [|c r]; [apply progresses_rejected|].
    simpl in Hs. pose proof (skipSpace_length r) as Hr.
    destruct (c =? 123).
    { destruct (startsWith [125] (skipSpace r)).
      - apply progresses_ok. rewrite length_skipn. lia.
      - apply (progresses_shorter _ r); [apply IHm|]; lia. }
    destruct (c =? 91).
    { destruct (startsWith [93] (skipSpace r)).
      - apply progresses_ok. rewrite length_skipn. lia.
      - apply (progresses_shorter _ r); [apply IHe|]; lia. }
    destruct (c =? 34).
    { destruct (scanString_progress (length r) r (le_n _)) as [Hf Hl].
      destruct (scanString r) as [str rest|e|]; [|apply progresses_rejected|done].
      apply progresses_ok. specialize (Hl _ _ eq_refl). lia. }
    destruct (c =? 116).
    { split; [apply expect_fuel|]. intros v rest H%expect_length; [|done].
      simpl in H. lia. }
    destruct (c =? 102).
    { split; [apply expect_fuel|]. intros v rest H%expect_length; [|done].
      simpl in H. lia. }
    destruct (c =? 110).
    { split; [apply expect_fuel|]. intros v rest H%expect_length; [|done].
      simpl in H. lia. }
    destruct (scanNumber (c :: r)) as [[x rest]|] eqn:Hn;
      [|apply progresses_rejected].
    apply progresses_ok. apply scanNumber_length in Hn. simpl in Hn. lia.
  - intros s acc Hfuel. cbn [parseElements].
    destruct (IHv s ltac:(lia)) as [Hf Hl].
    destruct (parseValue fuel s) as [v rest|e|];
      [|apply progresses_rejected|done].
    specialize (Hl _ _ eq_refl). pose proof (skipSpace_length rest) as Hr.
    destruct (skipSpace rest) as [|c r]; [apply progresses_rejected|].
    simpl in Hr. destruct (c =? 44).
    { apply (progresses_shorter _ r); [apply IHe|]; lia. }
    destruct (c =? 93); [|apply progresses_rejected].
    apply progresses_ok. lia.
  - intros s acc Hfuel. cbn [parseMembers].
    pose proof (skipSpace_length s) as Hs.
    destruct (skipSpace s) as [|q r]; [apply progresses_rejected|].
    simpl in Hs. destruct (q =? 34); [|apply progresses_rejected].
    destruct (scanString_progress (length r) r (le_n _)) as [Hf Hl].
    destruct (scanString r) as [key rest|e|]; [|apply progresses_rejected|done].
    specialize (Hl _ _ eq_refl). pose proof (skipSpace_length rest) as Hr.
    destruct (skipSpace rest) as [|colon r1]; [apply progresses_rejected|].
    simpl in Hr. destruct (colon =? 58); [|apply progresses_rejected].
    destruct (IHv r1 ltac:(lia)) as [Hf1 Hl1].
    destruct (parseValue fuel r1) as [v rest1|e|];
      [|apply progresses_rejected|done].
    specialize (Hl1 _ _ eq_refl). pose proof (skipSpace_length rest1) as Hr1.
    destruct (skipSpace rest1) as [|c r2]; [apply progresses_rejected|].
    simpl in Hr1. destruct (c =? 44).
    { apply (progresses_shorter _ r2); [apply IHm|]; lia. }
    destruct (c =? 125); [|apply progresses_rejected].
    apply progresses_ok. lia.
Qed.

(** [JSON.parse] never stops for lack of fuel. *)
Lemma parse_fuel text : parseValue (fuelFor text) text <> OutOfFuel.
Proof.
  destruct (parser_progresses (fuelFor text)) as (Hv & _ & _).
  apply (Hv text). unfold fuelFor. lia.
Qed.

End JsonSpec.

(** ** The recovery parser *)

Module AnalyzerSpec.
Import Json Analyzer JSSpec.

Lemma parse_stringify v : serializable v = true -> parse (stringify v) = inr v.
Proof.
  intros Hv. unfold parse.
  pose proof (JsonSpec.parseValue_stringify v Hv (fuelFor (stringify v)) []) as H.
  rewrite app_nil_r in H. rewrite H; [reflexivity | unfold fuelFor; lia | exact I].
Qed.

Lemma validate_result analysis v :
  validate analysis = inr v -> v = analysis /\ isAnalysisResult v = true.
Proof.
  unfold validate.
  destruct analysis as [ |b|x|str|l|props]; cbn [getProperty]; try discriminate.
  destruct (isNumber _) eqn:H1, (isString _) eqn:H2, (isArray _) eqn:H3;
    cbn [negb orb andb]; try discriminate.
  intros [= <-]. split; [reflexivity|].
  unfold isAnalysisResult. by rewrite H1, H2, H3.
Qed.

Lemma validate_shaped v : isAnalysisResult v = true -> validate v = inr v.
Proof.
  unfold validate, isAnalysisResult.
  destruct v as [ |b|x|str|l|props]; try discriminate. cbn [getProperty].
  intros H. apply andb_true_iff in H as [H H3]. apply andb_true_iff in H as [H1 H2].
  by rewrite H1, H2, H3.
Qed.

Lemma recoverBody_shaped response v :
  recoverBody response = inr v -> isAnalysisResult v = true.
Proof.
  unfold recoverBody.
  destruct (negb _ && negb _); [discriminate|].
  destruct (if _ && _ then _ else _) as [e|[ |b|x|jsonText|l|props]];
    try discriminate.
  destruct (parseWithRepair jsonText) as [e|analysis]; [discriminate|].
  intros H. by apply validate_result in H as [_ H].
Qed.

Lemma stripFences_tight t : trim (stripFences (trim t)) = stripFences (trim t).
Proof.
  unfold stripFences. destruct (startsWith fence (trim t)); apply trim_idempotent.
Qed.

Lemma endsWith_unit c d s :
  endsWith [c] s = true -> endsWith [d] s = true -> c = d.
Proof.
  unfold endsWith. cbn [rev app]. destruct (rev s) as [|e r]; [done|].
  cbn [startsWith]. rewrite !andb_true_r. intros H1 H2.
  apply N.eqb_eq in H1, H2. congruence.
Qed.

(** A text that passes the completeness check does not end with a double
    quote: the branch that unwraps a reply written as a string literal is not
    taken, and the text parsed is the reply, trimmed and without fences. *)
Lemma complete_not_quoted response :
  truncated response = false ->
  startsWith [34] (stripFences (trim response))
  && endsWith [34] (stripFences (trim response)) = false.
Proof.
  unfold truncated. rewrite stripFences_tight. intros Ht.
  destruct (endsWith [34] _) eqn:Hq; [|by rewrite andb_false_r].
  destruct (endsWith (lit "}") _) eqn:H1.
  { by pose proof (endsWith_unit _ _ _ H1 Hq). }
  destruct (endsWith (lit "]") _) eqn:H2.
  { by pose proof (endsWith_unit _ _ _ H2 Hq). }
  done.
Qed.

Lemma recoverBody_complete response :
  truncated response = false ->
  recoverBody response
  = match parseWithRepair (stripFences (trim response)) with
    | inr analysis => validate analysis
    | inl e => inl e
    end.
Proof.
  intros Ht. pose proof (complete_not_quoted response Ht) as Hq.
  unfold truncated in Ht. rewrite stripFences_tight in Ht.
  unfold recoverBody. rewrite stripFences_tight, Ht, Hq. reflexivity.
Qed.

Lemma validate_unshaped v :
  isAnalysisResult v = false -> exists e, validate v = inl e.
Proof.
  unfold validate, isAnalysisResult.
  destruct v as [ |b|x|str|l|props]; cbn [getProperty]; intros H; eauto.
  destruct (isNumber _), (isString _), (isArray _); cbn [negb orb]; eauto; done.
Qed.

(** What [recover] makes of a value read from a complete text, and of a
    complete text from which none is read. *)
Lemma recover_read response analysis :
  truncated response = false ->
  parseWithRepair (stripFences (trim response)) = inr analysis ->
  recover response = if isAnalysisResult analysis then analysis else degraded.
Proof.
  intros Ht Hp. unfold recover. rewrite (recoverBody_complete response Ht), Hp.
  destruct (isAnalysisResult analysis) eqn:Hs.
  - by rewrite (validate_shaped analysis Hs).
  - by destruct (validate_unshaped analysis Hs) as [e ->].
Qed.

Lemma recover_unread response e :
  truncated response = false ->
  parseWithRepair (stripFences (trim response)) = inl e ->
  recover response = degraded.
Proof.
  intros Ht Hp. unfold recover. by rewrite (recoverBody_complete response Ht), Hp.
Qed.

(** C2.  [recover] is a total function to values of the shape of an analysis
    result: whatever the [try] block throws is turned into the degraded
    result.  A text that fails the completeness check gives the degraded
    result.  For a text that passes it, what is parsed is the reply, trimmed
    and without its fences: when [JSON.parse] rejects it, for another reason
    than a control character or once more after the repair pass, the result
    is the degraded one; when a value is read, at the first or the second
    attempt, the result is that value if it has a numeric score, a string
    summary and an array of issues, and the degraded one if it has not.  A
    reply with a comma before its closing brace, a reply whose score is a
    string and a reply the repair pass does not mend show the three
    failures.  The degraded result has score 50, the stock summary and the
    one synthetic issue, named Analysis Error, of medium severity. *)
Theorem recover_never_throws (response : jsstring) :
  isAnalysisResult (recover response) = true /\
  (truncated response = true -> recover response = degraded) /\
  (forall e, recoverBody response = inl e -> recover response = degraded) /\
  (truncated response = false ->
   (parse (stripFences (trim response)) = inl Unexpected ->
    recover response = degraded) /\
   (parse (stripFences (trim response)) = inl BadControlCharacter ->
    forall e,
      parse (repairControlCharacters (stripFences (trim response))) = inl e ->
      recover response = degraded) /\
   (forall analysis,
      parse (stripFences (trim response)) = inr analysis \/
      (parse (stripFences (trim response)) = inl BadControlCharacter /\
       parse (repairControlCharacters (stripFences (trim response))) = inr analysis) ->
      recover response = if isAnalysisResult analysis then analysis else degraded)) /\
  (truncated Examples.trailingComma = false /\
   parse Examples.trailingComma = inl Unexpected /\
   recover Examples.trailingComma = degraded) /\
  (truncated Examples.stringScore = false /\
   parse Examples.stringScore = inr Examples.stringScoreValue /\
   isAnalysisResult Examples.stringScoreValue = false /\
   recover Examples.stringScore = degraded) /\
  (truncated Examples.backslashReply = false /\
   parse Examples.backslashReply = inl BadControlCharacter /\
   parse (repairControlCharacters Examples.backslashReply) = inl Unexpected /\
   recover Examples.backslashReply = degraded) /\
  (exists issue,
     degraded
     = JObject
         [(lit "score", JNumber (numberOfZ 50));
          (lit "summary",
           JString (lit "Unable to complete AI analysis. Basic header check shows moderate security concerns."));
          (lit "issues", JArray [JObject issue])]
     /\ numberToString (numberOfZ 50) = lit "50"
     /\ getProp (lit "name") issue = Some (JString (lit "Analysis Error"))
     /\ getProp (lit "severity") issue = Some (JString (lit "medium"))).
Proof.
  split; [|split; [|split; [|split; [|split; [|split; [|split]]]]]].
  - unfold recover. destruct (recoverBody response) as [e|v] eqn:Hbody.
    + reflexivity.
    + by apply recoverBody_shaped in Hbody.
  - unfold truncated, recover, recoverBody. by intros ->.
  - intros e He. unfold recover. by rewrite He.
  - intros Ht. split; [|split].
    + intros Hp. apply (recover_unread response (SyntaxError Unexpected) Ht).
      unfold parseWithRepair. by rewrite Hp.
    + intros Hp e He. apply (recover_unread response (SyntaxError e) Ht).
      unfold parseWithRepair. by rewrite Hp, He.
    + intros analysis Hp. apply (recover_read response analysis Ht).
      unfold parseWithRepair. destruct Hp as [-> | [-> ->]]; reflexivity.
  - repeat split; vm_compute; reflexivity.
  - repeat split; vm_compute; reflexivity.
  - repeat split; vm_compute; reflexivity.
  - eexists. split; [reflexivity|]. repeat split; vm_compute; reflexivity.
Qed.

(** A reply cut inside a string fails the completeness check.  A reply cut
    before its closing brace, after a bracket, passes it and fails to parse.
    Both yield the degraded result. *)
Lemma recover_cut_reply :
  truncated Examples.cutSummary = true /\
  recover Examples.cutSummary = degraded /\
  truncated Examples.cutReply = false /\
  recoverBody Examples.cutReply = inl (SyntaxError Unexpected) /\
  recover Examples.cutReply = degraded.
Proof. repeat split; vm_compute; reflexivity. Qed.

(** *** The round trip *)

Lemma recover_object text v :
  headOk text -> headOk (rev text) ->
  startsWith fence text = false ->
  endsWith (lit "}") text = true ->
  startsWith [34] text = false ->
  parse text = inr v ->
  isAnalysisResult v = true ->
  recover text = v.
Proof.
  intros H1 H2 Hfence Hend Hquote Hparse Hshape.
  unfold recover, recoverBody.
  rewrite (trim_tight text H1 H2). unfold stripFences. rewrite Hfence.
  rewrite (trim_tight text H1 H2), Hend, Hquote.
  cbn [negb andb]. unfold parseWithRepair. rewrite Hparse.
  by rewrite (validate_shaped v Hshape).
Qed.

Lemma stringify_object_ends props :
  exists t, rev (stringify (JObject props)) = 125 :: t.
Proof.
  rewrite JsonSpec.stringify_object. rewrite !rev_app_distr. by eexists.
Qed.

(** C7, as the code has it.  For every analysis result that [JSON.stringify]
    writes without loss (finite numbers, the score among them), [recover] of
    its text is the result itself: nothing is altered, the score is not
    clamped. *)
Theorem recover_stringify (v : json) :
  serializable v = true ->
  isAnalysisResult v = true ->
  recover (stringify v) = v.
Proof.
  intros Hser Hshape. destruct v as [ |b|x|str|l|props]; try discriminate.
  destruct (stringify_object_ends props) as [t Ht].
  apply recover_object; try done.
  - by rewrite Ht.
  - unfold endsWith. by rewrite Ht.
  - by apply parse_stringify.
Qed.

(** A score of 250 comes back as 250. *)
Lemma recover_stringify_witness :
  recover (stringify Examples.overshoot) = Examples.overshoot.
Proof. apply recover_stringify; vm_compute; reflexivity. Defined.

(** C7 as stated fails for a score that is a number and not finite:
    [JSON.stringify] writes [NaN] as [null], which the shape check rejects, and
    the degraded result is returned in place of the value. *)
Lemma recover_stringify_nan :
  isAnalysisResult Examples.notANumber = true /\
  stringify Examples.notANumber = dq "{'score':null,'summary':'ok','issues':[]}" /\
  recover (stringify Examples.notANumber) = degraded /\
  degraded <> Examples.notANumber.
Proof.
  split; [reflexivity|]. split; [vm_compute; reflexivity|].
  split; [vm_compute; reflexivity|]. discriminate.
Qed.

(** *** The repair pass *)

Lemma repairLoop_without_backslash s : forall prevChar inString,
  existsb (N.eqb 92) s = false ->
  prevChar <> Some 92 ->
  repairLoop s prevChar inString false = specRepairLoop s inString false.
Proof.
  induction s as [|char s IH]; intros prevChar inString Hs Hprev; [reflexivity|].
  cbn [existsb] in Hs. apply orb_false_iff in Hs as [Hc Hs].
  assert (Hnext : Some char <> Some 92).
  { intros [= ->]. discriminate. }
  cbn [repairLoop specRepairLoop].
  rewrite N.eqb_sym in Hc. rewrite Hc.
  rewrite (bool_decide_eq_false_2 _ Hprev). cbn [negb]. rewrite andb_true_r.
  destruct inString, (char =? 34); cbn [negb]; by rewrite IH.
Qed.

(** On a text with no backslash the repair pass of the source is the
    specified one. *)
Lemma repair_without_backslash jsonText :
  existsb (N.eqb 92) jsonText = false ->
  repairControlCharacters jsonText = specRepair jsonText.
Proof. intros H. by apply repairLoop_without_backslash. Qed.

(** A reply with raw line feed and tab inside its strings, and no backslash,
    is recovered with the two characters in the decoded strings. *)
Lemma recover_raw_control :
  parse Examples.rawControlReply = inl BadControlCharacter /\
  recover Examples.rawControlReply = Examples.rawControlValue.
Proof. split; vm_compute; reflexivity. Qed.

(** C3, what the code does.  After a string literal that ends with an escaped
    backslash the repair pass of the source takes the closing quote for an
    escaped one and stays inside the string: the line feed between the two
    properties is rewritten, the one inside the next string is not, and the
    reply, which the specified pass repairs, is answered with the degraded
    result. *)
Theorem repair_after_escaped_backslash :
  parse Examples.backslashReply = inl BadControlCharacter /\
  specRepair Examples.backslashReply = Examples.backslashRepaired /\
  parse Examples.backslashRepaired = inr Examples.backslashValue /\
  repairControlCharacters Examples.backslashReply = Examples.backslashMisrepaired /\
  parse Examples.backslashMisrepaired = inl Unexpected /\
  recover Examples.backslashReply = degraded.
Proof. repeat split; vm_compute; reflexivity. Qed.

(** *** Code fences *)

Lemma removeMatches_plain t : forall tail,
  noBacktick t = true ->
  removeMatches openingFence 0 (t ++ tail) = t ++ removeMatches openingFence 0 tail.
Proof.
  induction t as [|c t IH]; intros tail Ht; [reflexivity|].
  cbn [noBacktick forallb] in Ht. apply andb_true_iff in Ht as [Hc Ht].
  apply negb_true_iff in Hc. cbn [app removeMatches].
  assert (Hopen : openingFence (c :: t ++ tail) = 0%nat).
  { unfold openingFence. lits. cbn [startsWith]. rewrite N.eqb_sym, Hc. reflexivity. }
  rewrite Hopen. f_equal. by apply IH.
Qed.

Lemma removeClosingFence_plain t : forall tail,
  noBacktick t = true ->
  removeClosingFence (t ++ tail) = t ++ removeClosingFence tail.
Proof.
  induction t as [|c t IH]; intros tail Ht; [reflexivity|].
  cbn [noBacktick forallb] in Ht. apply andb_true_iff in Ht as [Hc Ht].
  apply negb_true_iff, N.eqb_neq in Hc. cbn [app removeClosingFence].
  unfold streq, fence. lits. cbn [app].
  rewrite !bool_decide_eq_false_2 by (intros [= ? _]; done).
  cbn [orb]. f_equal. by apply IH.
Qed.

(** The text between a fence tagged [json] and a closing fence is what is left
    once the fences are stripped, when it holds no backtick itself. *)
Lemma stripFences_tagged t :
  noBacktick t = true ->
  stripFences (trim (lit "```json" ++ [10] ++ t ++ [10] ++ lit "```")) = trim t.
Proof.
  intros Ht. lits. cbn [app].
  rewrite trim_tight; [|done|].
  2:{ change (96 :: 96 :: 96 :: 106 :: 115 :: 111 :: 110 :: 10 :: t ++ [10; 96; 96; 96])
        with ([96; 96; 96; 106; 115; 111; 110; 10] ++ t ++ [10; 96; 96; 96]).
      rewrite !rev_app_distr. done. }
  unfold stripFences. cbn [startsWith fence]. lits. cbn [startsWith].
  change (96 =? 96) with true. cbn [andb]. cbv iota.
  change (removeMatches openingFence 0
            (96 :: 96 :: 96 :: 106 :: 115 :: 111 :: 110 :: 10 :: t ++ [10; 96; 96; 96]))
    with (removeMatches openingFence 0 (t ++ [10; 96; 96; 96])).
  rewrite (removeMatches_plain t _ Ht).
  change (removeMatches openingFence 0 [10; 96; 96; 96]) with [10; 96; 96; 96].
  rewrite (removeClosingFence_plain t _ Ht).
  change (removeClosingFence [10; 96; 96; 96]) with [10].
  apply trim_line_feed.
Qed.

Lemma stripFences_plain t : noBacktick t = true -> stripFences (trim t) = trim t.
Proof.
  intros Ht. unfold stripFences. apply (trim_forallb _ t) in Ht.
  destruct (trim t) as [|c r]; [reflexivity|].
  cbn [forallb] in Ht. apply andb_true_iff in Ht as [Hc _].
  apply negb_true_iff in Hc. unfold fence. lits. cbn [startsWith].
  rewrite N.eqb_sym, Hc. reflexivity.
Qed.

Lemma recoverBody_stripped a b :
  stripFences (trim a) = stripFences (trim b) -> recoverBody a = recoverBody b.
Proof. intros H. unfold recoverBody. by rewrite H. Qed.

(** Inside a fence tagged [json] a text with no backtick is recovered as the
    text itself is. *)
Lemma recover_tagged_fence t :
  noBacktick t = true ->
  recover (lit "```json" ++ [10] ++ t ++ [10] ++ lit "```") = recover t.
Proof.
  intros Ht. unfold recover.
  rewrite (recoverBody_stripped _ t); [reflexivity|].
  by rewrite (stripFences_tagged t Ht), (stripFences_plain t Ht).
Qed.

(** C6, what the code does.  The reply inside a fence tagged [json] is
    recovered as the bare reply is.  Inside a fence with no tag the opening
    marker is not removed, the text does not parse and the degraded result is
    returned. *)
Theorem bare_fence_not_stripped :
  recover Examples.reply = Examples.replyValue /\
  recover Examples.taggedFence = Examples.replyValue /\
  stripFences (trim Examples.bareFence) = lit "```" ++ [10] ++ Examples.reply /\
  recover Examples.bareFence = degraded.
Proof. repeat split; vm_compute; reflexivity. Qed.

End AnalyzerSpec.

(** ** White space around an input, and the shape of a normalised URL *)

Module NormalizeSpec.
Import Utils JSSpec UtilsSpec.

Lemma trimStart_padding a s :
  forallb isWhiteSpace a = true -> trimStart (a ++ s) = trimStart s.
Proof.
  induction a as [|c a IH]; [done|]. cbn [forallb app trimStart].
  intros [-> Ha]%andb_true_iff. auto.
Qed.

Lemma trimStart_blank b : forallb isWhiteSpace b = true -> trimStart b = [].
Proof.
  intros H. rewrite <- (app_nil_r b). by rewrite trimStart_padding.
Qed.

Lemma trimStart_app s b :
  trimStart (s ++ b) = match trimStart s with [] => trimStart b | r => r ++ b end.
Proof.
  induction s as [|c s IH]; cbn [app trimStart]; [by destruct (trimStart b)|].
  destruct (isWhiteSpace c); [exact IH | reflexivity].
Qed.

Lemma trimEnd_padding s b :
  forallb isWhiteSpace b = true -> trimEnd (s ++ b) = trimEnd s.
Proof.
  intros Hb. unfold trimEnd. rewrite rev_app_distr, trimStart_padding; [done|].
  by rewrite forallb_rev.
Qed.

(** [trim] removes the white space put around a string. *)
Lemma trim_padding a s b :
  forallb isWhiteSpace a = true -> forallb isWhiteSpace b = true ->
  trim (a ++ s ++ b) = trim s.
Proof.
  intros Ha Hb. unfold trim. rewrite (trimStart_padding a _ Ha), trimStart_app.
  destruct (trimStart s) as [|c r] eqn:E.
  - by rewrite (trimStart_blank b Hb).
  - by apply trimEnd_padding.
Qed.

(** X1.  White space before and after the input changes neither the
    normalised URL nor the cache key. *)
Theorem normalizeUrl_ignores_padding (a u b : jsstring) :
  forallb isWhiteSpace a = true ->
  forallb isWhiteSpace b = true ->
  normalizeUrl (a ++ u ++ b) = normalizeUrl u /\
  getCacheKey (a ++ u ++ b) = getCacheKey u.
Proof.
  intros Ha Hb. unfold getCacheKey, normalizeUrl.
  by rewrite (trim_padding a u b Ha Hb).
Qed.

(** [example.com] between two spaces and a tab and a line feed. *)
Lemma normalizeUrl_ignores_padding_witness :
  normalizeUrl (lit "  " ++ lit "example.com" ++ [9; 10])
  = normalizeUrl (lit "example.com") /\
  getCacheKey (lit "  " ++ lit "example.com" ++ [9; 10])
  = getCacheKey (lit "example.com").
Proof.
  apply (normalizeUrl_ignores_padding (lit "  ") (lit "example.com") [9; 10]);
    vm_compute; reflexivity.
Defined.

Lemma normalized_tail_headOk u :
  headOk (rev (if baredomainPattern (trim u) then
                 if negb (startsWith (lit "www.") (trim u)) then lit "www." ++ trim u
                 else trim u
               else trim u)).
Proof.
  destruct (baredomainPattern (trim u)); [|apply trim_rev_headOk].
  destruct (negb (startsWith (lit "www.") (trim u))); [|apply trim_rev_headOk].
  rewrite rev_app_distr. apply headOk_app; [apply trim_rev_headOk | done].
Qed.

(** What [normalizeUrl] returns has no white space at either end and starts
    with a scheme. *)
Lemma normalizeUrl_shape u :
  headOk (normalizeUrl u) /\ headOk (rev (normalizeUrl u)) /\
  matchesScheme (normalizeUrl u) = true.
Proof.
  unfold normalizeUrl. destruct (matchesScheme (trim u)) eqn:Hs.
  - split; [apply trim_headOk|]. split; [apply trim_rev_headOk | exact Hs].
  - split; [done|]. split; [|reflexivity].
    rewrite rev_app_distr. apply headOk_app; [apply normalized_tail_headOk | done].
Qed.

Lemma normalizeUrl_normal u : normalizeUrl (normalizeUrl u) = normalizeUrl u.
Proof.
  destruct (normalizeUrl_shape u) as (H1 & H2 & H3). by apply normalizeUrl_fixed.
Qed.

(** The key of the cache entry of a URL that is normalised already. *)
Lemma getCacheKey_normal url : getCacheKey (normalizeUrl url) = getCacheKey url.
Proof. unfold getCacheKey. by rewrite normalizeUrl_normal. Qed.

(** X2.  Whatever the input, the normalised URL starts with [http://] or
    [https://] (in any case of the letters) and has no white space at either
    end. *)
Theorem normalizeUrl_has_scheme (u : jsstring) :
  matchesScheme (normalizeUrl u) = true /\
  trim (normalizeUrl u) = normalizeUrl u.
Proof.
  destruct (normalizeUrl_shape u) as (H1 & H2 & H3).
  split; [exact H3 | by apply trim_tight].
Qed.

(** *** Bare domains *)

Lemma eqi_domain c l : isLowerAZ l = true -> eqi c l = true -> isDomainUnit c = true.
Proof.
  unfold eqi, isDomainUnit, isLetter, isUpperAZ, isLowerAZ.
  intros Hl [H|H]%orb_true_iff; apply N.eqb_eq in H; subst c; units_in Hl; units.
Qed.

Lemma startsWith_colon r :
  startsWith (lit "://") r = true -> exists b, r = 58 :: b.
Proof.
  destruct r as [|c r]; [done|]. cbn. intros [H _]%andb_true_iff.
  apply N.eqb_eq in H. subst. eauto.
Qed.

(** A string with a scheme has a colon after a run of letters. *)
Lemma matchesScheme_colon s :
  matchesScheme s = true ->
  exists a b, s = a ++ 58 :: b /\ forallb isDomainUnit a = true.
Proof.
  destruct s as [|h [|t1 [|t2 [|p r]]]]; try done. cbn [matchesScheme].
  intros [[[[Hh Ht1]%andb_true_iff Ht2]%andb_true_iff Hp]%andb_true_iff Hr]%andb_true_iff.
  apply eqi_domain in Hh, Ht1, Ht2, Hp; try reflexivity.
  destruct r as [|x r']; [done|].
  apply orb_true_iff in Hr as [[Hx Hr]%andb_true_iff | Hr].
  - apply eqi_domain in Hx; [|reflexivity].
    destruct (startsWith_colon _ Hr) as [b ->].
    exists [h; t1; t2; p; x], b. split; [reflexivity|].
    cbn [forallb]. by rewrite Hh, Ht1, Ht2, Hp, Hx.
  - destruct (startsWith_colon _ Hr) as [b Hb]. injection Hb as -> ->.
    exists [h; t1; t2; p], b. split; [reflexivity|].
    cbn [forallb]. by rewrite Hh, Ht1, Ht2, Hp.
Qed.

(** A host name has no scheme: its first unit outside [[a-zA-Z0-9-]] is a
    dot, not a colon. *)
Lemma host_without_scheme label rest :
  forallb isDomainUnit label = true -> matchesScheme (label ++ 46 :: rest) = false.
Proof.
  intros Hl. destruct (matchesScheme _) eqn:Hs; [|reflexivity].
  destruct (matchesScheme_colon _ Hs) as (a & b & Heq & Ha).
  pose proof (spanUnits_app isDomainUnit label (46 :: rest) Hl eq_refl) as H1.
  pose proof (spanUnits_app isDomainUnit a (58 :: b) Ha eq_refl) as H2.
  rewrite Heq, H2 in H1. by injection H1.
Qed.

Lemma baredomainPattern_host label tld rest :
  label <> [] ->
  forallb isDomainUnit label = true ->
  forallb isLetter tld = true ->
  (2 <= length tld)%nat ->
  pathOrEnd rest = true ->
  baredomainPattern (label ++ [46] ++ tld ++ rest) = true.
Proof.
  intros Hne Hl Ht Hlen Hrest. unfold baredomainPattern.
  change (label ++ [46] ++ tld ++ rest) with (label ++ 46 :: tld ++ rest).
  rewrite (spanUnits_app isDomainUnit label (46 :: tld ++ rest) Hl eq_refl).
  destruct label as [|c label]; [done|].
  rewrite (spanUnits_app isLetter tld rest Ht).
  - apply Nat.leb_le in Hlen. rewrite Hlen.
    destruct rest as [|d p]; [done|]. cbn in Hrest.
    apply andb_true_iff in Hrest as [Hd Hp]. apply N.eqb_eq in Hd. by subst.
  - destruct rest as [|d p]; [done|]. cbn in Hrest.
    apply andb_true_iff in Hrest as [Hd _]. apply N.eqb_eq in Hd. by subst.
Qed.

(** X3.  An input that, trimmed, is one label, a dot and a top-level domain
    of two letters or more, with or without a path, gets the scheme [https]
    and, unless it starts with [www.] already, the prefix [www.]. *)
Theorem bare_domain_gets_www (u label tld rest : jsstring) :
  trim u = label ++ [46] ++ tld ++ rest ->
  label <> [] ->
  forallb isDomainUnit label = true ->
  forallb isLetter tld = true ->
  (2 <= length tld)%nat ->
  pathOrEnd rest = true ->
  normalizeUrl u
  = if startsWith (lit "www.") (trim u) then lit "https://" ++ trim u
    else lit "https://www." ++ trim u.
Proof.
  intros Hu Hne Hl Ht Hlen Hrest. unfold normalizeUrl. rewrite Hu.
  change (label ++ [46] ++ tld ++ rest) with (label ++ 46 :: tld ++ rest).
  rewrite (host_without_scheme label (tld ++ rest) Hl).
  change (label ++ 46 :: tld ++ rest) with (label ++ [46] ++ tld ++ rest).
  rewrite (baredomainPattern_host label tld rest Hne Hl Ht Hlen Hrest).
  by destruct (startsWith _ _).
Qed.

(** [example.com/a b], with a space before and after. *)
Lemma bare_domain_gets_www_witness :
  normalizeUrl (lit " example.com/a b ")
  = if startsWith (lit "www.") (trim (lit " example.com/a b "))
    then lit "https://" ++ trim (lit " example.com/a b ")
    else lit "https://www." ++ trim (lit " example.com/a b ").
Proof.
  apply (bare_domain_gets_www (lit " example.com/a b ") (lit "example") (lit "com")
           (lit "/a b")).
  - vm_compute. reflexivity.
  - discriminate.
  - vm_compute. reflexivity.
  - vm_compute. reflexivity.
  - vm_compute. lia.
  - vm_compute. reflexivity.
Defined.

(** The unit a run of [f] stops at, in a string that holds a unit [f]
    refuses. *)
Lemma spanUnits_stops_inside (f P : N -> bool) a c r :
  forallb P a = true -> P c = true -> f c = false ->
  match snd (spanUnits f (a ++ c :: r)) with
  | d :: _ => P d = true
  | [] => False
  end.
Proof.
  intros Ha Hc Hf. induction a as [|d a IH]; cbn [app spanUnits].
  - by rewrite Hf.
  - cbn [forallb] in Ha. apply andb_true_iff in Ha as [Hd Ha].
    destruct (f d); [|done]. specialize (IH Ha).
    by destruct (spanUnits f (a ++ c :: r)).
Qed.

(** A host of three labels or more is no bare domain: after the second label
    comes a dot, where the pattern wants a slash or the end. *)
Lemma baredomainPattern_subdomain label1 label2 rest :
  forallb isDomainUnit label1 = true ->
  forallb isDomainUnit label2 = true ->
  baredomainPattern (label1 ++ [46] ++ label2 ++ [46] ++ rest) = false.
Proof.
  intros H1 H2. unfold baredomainPattern.
  change (label1 ++ [46] ++ label2 ++ [46] ++ rest)
    with (label1 ++ 46 :: label2 ++ 46 :: rest).
  rewrite (spanUnits_app isDomainUnit label1 (46 :: label2 ++ 46 :: rest) H1 eq_refl).
  destruct label1 as [|c label1]; [done|]. cbn [app].
  assert (Hall : forallb (fun d => isDomainUnit d || (d =? 46)) label2 = true).
  { apply forallb_forall. intros x Hx. rewrite forallb_forall in H2.
    by rewrite (H2 x Hx). }
  pose proof (spanUnits_stops_inside isLetter
                (fun d => isDomainUnit d || (d =? 46)) label2 46 rest
                Hall eq_refl eq_refl) as H.
  destruct (spanUnits isLetter (label2 ++ 46 :: rest)) as [tld r3].
  cbn [snd] in H. destruct r3 as [|d r3]; [done|].
  destruct (N.eqb_spec d 47) as [->|Hn]; [done|].
  rewrite andb_false_iff. right.
  destruct d as [|p]; [done|].
  do 8 (destruct p as [p|p|]; try done).
Qed.

(** X4.  An input that, trimmed, starts with two labels and a dot after each
    (a host with a subdomain) gets the scheme [https] and no [www.]. *)
Theorem subdomain_gets_no_www (u label1 label2 rest : jsstring) :
  trim u = label1 ++ [46] ++ label2 ++ [46] ++ rest ->
  forallb isDomainUnit label1 = true ->
  forallb isDomainUnit label2 = true ->
  normalizeUrl u = lit "https://" ++ trim u.
Proof.
  intros Hu H1 H2. unfold normalizeUrl. rewrite Hu.
  change (label1 ++ [46] ++ label2 ++ [46] ++ rest)
    with (label1 ++ 46 :: label2 ++ 46 :: rest).
  rewrite (host_without_scheme label1 (label2 ++ 46 :: rest) H1).
  change (label1 ++ 46 :: label2 ++ 46 :: rest)
    with (label1 ++ [46] ++ label2 ++ [46] ++ rest).
  by rewrite (baredomainPattern_subdomain label1 label2 rest H1 H2).
Qed.

(** [api.example.com]. *)
Lemma subdomain_gets_no_www_witness :
  normalizeUrl (lit "api.example.com") = lit "https://" ++ trim (lit "api.example.com").
Proof.
  apply (subdomain_gets_no_www (lit "api.example.com") (lit "api") (lit "example")
           (lit "com")); vm_compute; reflexivity.
Defined.

End NormalizeSpec.

(** ** The header object *)

Module HeadersSpec.
Import Utils HeaderProcessor JSSpec.

Lemma lowerUnit_idempotent c : lowerUnit (lowerUnit c) = lowerUnit c.
Proof.
  unfold lowerUnit, isUpperAZ.
  destruct ((65 <=? c) && (c <=? 90)) eqn:E1.
  - units_in E1. units.
  - destruct ((192 <=? c) && (c <=? 222) && negb (c =? 215)) eqn:E2.
    + units_in E2. units.
    + by rewrite E1, E2.
Qed.

Lemma toLowerCase_idempotent s : toLowerCase (toLowerCase s) = toLowerCase s.
Proof.
  unfold toLowerCase. rewrite map_map. apply map_ext. intros c.
  apply lowerUnit_idempotent.
Qed.

(** The object after one more pair has been visited. *)
Lemma headersToObject_snoc hs name value :
  headersToObject (hs ++ [(name, value)])
  = setProperty (toLowerCase name) value (headersToObject hs).
Proof. unfold headersToObject. by rewrite fold_left_app. Qed.

(** What the object holds under a key: the value of the last pair with that
    name, and nothing under [__proto__]. *)
Lemma headersToObject_find hs k :
  headersToObject hs !! k
  = if streq k (lit "__proto__") then None else lastValue k hs.
Proof.
  unfold lastValue.
  induction hs as [|[name value] hs IH] using rev_ind.
  - cbn. rewrite lookup_empty. by destruct (streq _ _).
  - rewrite headersToObject_snoc, rev_unit. cbn [List.find]. unfold named at 1.
    cbn [fst]. unfold setProperty, streq in *.
    destruct (bool_decide (toLowerCase name = k)) eqn:Ek.
    + apply bool_decide_eq_true in Ek. subst k.
      destruct (bool_decide (toLowerCase name = lit "__proto__")) eqn:Ep.
      * rewrite IH. reflexivity.
      * by rewrite lookup_insert_eq.
    + apply bool_decide_eq_false in Ek.
      destruct (bool_decide (toLowerCase name = lit "__proto__")) eqn:Ep.
      * exact IH.
      * rewrite lookup_insert_ne by done. exact IH.
Qed.

Lemma find_named_app k l1 kv l2 :
  named k kv = true ->
  (forall x, In x l1 -> named k x = false) ->
  List.find (named k) (l1 ++ kv :: l2) = Some kv.
Proof.
  intros Hkv Hl1. induction l1 as [|x l1 IH]; cbn [app List.find].
  - by rewrite Hkv.
  - rewrite (Hl1 x (or_introl eq_refl)). apply IH. intros y Hy. apply Hl1. by right.
Qed.

(** X5.  A header is found under its lower-cased name, whatever the case it
    was delivered in, and of several pairs with one name the last one
    decides. *)
Theorem header_last_value_wins (before after : list (jsstring * jsstring))
    (name value : jsstring) :
  toLowerCase name <> lit "__proto__" ->
  (forall kv, In kv after -> toLowerCase (fst kv) <> toLowerCase name) ->
  headersToObject (before ++ (name, value) :: after) !! toLowerCase name = Some value.
Proof.
  intros Hproto Hafter. rewrite headersToObject_find.
  unfold lastValue, streq. rewrite bool_decide_eq_false_2 by done.
  rewrite rev_app_distr. cbn [rev]. rewrite <- app_assoc. cbn [app].
  rewrite (find_named_app (toLowerCase name) (rev after) (name, value) (rev before)).
  - reflexivity.
  - unfold named, streq. by apply bool_decide_eq_true.
  - intros x Hx. apply in_rev in Hx. unfold named, streq.
    apply bool_decide_eq_false. by apply Hafter.
Qed.

(** [Server: nginx], then [SERVER: cloudflare], then a date. *)
Lemma header_last_value_wins_witness :
  headersToObject
    ([(lit "Server", lit "nginx")] ++ (lit "SERVER", lit "cloudflare")
       :: [(lit "Date", lit "today")])
  !! toLowerCase (lit "SERVER") = Some (lit "cloudflare").
Proof.
  apply (header_last_value_wins [(lit "Server", lit "nginx")]
           [(lit "Date", lit "today")] (lit "SERVER") (lit "cloudflare")).
  - vm_compute. discriminate.
  - intros kv [<-|[]]. vm_compute. discriminate.
Defined.

Lemma setProperty_size key value o :
  (size (setProperty key value o) <= S (size o))%nat.
Proof.
  unfold setProperty. destruct (streq _ _); [lia|].
  destruct (o !! key) eqn:E.
  - rewrite map_size_insert_Some; [lia | done].
  - rewrite map_size_insert_None; [lia | done].
Qed.

Lemma headerCount_le hs : (headerCount (headersToObject hs) <= length hs)%nat.
Proof.
  unfold headerCount. induction hs as [|[name value] hs IH] using rev_ind; [done|].
  rewrite headersToObject_snoc, length_app. cbn [length].
  pose proof (setProperty_size (toLowerCase name) value (headersToObject hs)). lia.
Qed.

(** X6.  Every key of the header object is in lower case and is not
    [__proto__], every value is the value of a pair delivered under that
    name, and the object has no more keys than pairs were delivered. *)
Theorem headersToObject_keys (hs : list (jsstring * jsstring)) :
  (forall k v, headersToObject hs !! k = Some v ->
     toLowerCase k = k /\ k <> lit "__proto__" /\
     exists name, In (name, v) hs /\ toLowerCase name = k) /\
  (headerCount (headersToObject hs) <= length hs)%nat.
Proof.
  split; [|apply headerCount_le].
  intros k v. rewrite headersToObject_find. unfold lastValue, streq.
  destruct (bool_decide (k = lit "__proto__")) eqn:Ep; [done|].
  apply bool_decide_eq_false in Ep.
  destruct (List.find (named k) (rev hs)) as [[name w]|] eqn:Ef; [|done].
  cbn. intros [= <-]. apply find_some in Ef as [Hin Hk].
  unfold named, streq in Hk. apply bool_decide_eq_true in Hk. cbn [fst] in Hk.
  split; [|split; [done|]].
  - rewrite <- Hk. apply toLowerCase_idempotent.
  - exists name. split; [by apply in_rev | done].
Qed.

(** X7.  On the headers of a response the preprocessor keeps the object as it
    is and computes each flag and the cookie statistics from the last value
    delivered under the name, in whatever case the name was delivered. *)
Theorem preprocess_reads_last_values (hs : list (jsstring * jsstring)) :
  let processed := preprocessHeaders (headersToObject hs) in
  rawHeaders processed = headersToObject hs /\
  hasCsp (metadata processed) = truthy (lastValue (lit "content-security-policy") hs) /\
  hasCspReportOnly (metadata processed)
  = truthy (lastValue (lit "content-security-policy-report-only") hs) /\
  hasHsts (metadata processed)
  = truthy (lastValue (lit "strict-transport-security") hs) /\
  cookieStats (metadata processed) = analyzeCookies (lastValue (lit "set-cookie") hs).
Proof.
  intros processed. subst processed. unfold preprocessHeaders.
  cbn [rawHeaders metadata hasCsp hasCspReportOnly hasHsts cookieStats].
  rewrite !headersToObject_find.
  repeat split.
Qed.

End HeadersSpec.

(** ** The engine, probe by probe *)

Module EngineSpec.
Import Utils JSSpec UtilsSpec.

(** The alternate URLs that can be built: all of them, or none. *)
Lemma omap_retryUrl_tuple u paths :
  streq (origin u) (lit "null") = false ->
  omap (fun path => retryUrl path u) paths = map (fun path => origin u ++ path) paths.
Proof.
  intros Ho. induction paths as [|path paths IH]; [reflexivity|].
  cbn [omap list_omap map]. by rewrite (retryUrl_tuple u path Ho), <- IH.
Qed.

Lemma omap_retryUrl_opaque u paths :
  streq (origin u) (lit "null") = true ->
  omap (fun path => retryUrl path u) paths = [].
Proof.
  intros Ho. induction paths as [|path paths IH]; [reflexivity|].
  cbn [omap list_omap]. by rewrite (retryUrl_opaque u path Ho).
Qed.

Lemma probeOrder_cases u :
  probeOrder u
  = if streq (origin u) (lit "null") then [href u]
    else href u :: map (altUrl u) (seq 0 4).
Proof.
  unfold probeOrder. destruct (streq _ _) eqn:Ho.
  - by rewrite (omap_retryUrl_opaque u altPaths Ho).
  - by rewrite (omap_retryUrl_tuple u altPaths Ho).
Qed.

(** One turn of the loop over the alternate paths of a URL whose origin is not
    opaque: the answer is rich and returned, or it is not and the loop goes
    on. *)
Lemma tryPath_cases u path net log :
  streq (origin u) (lit "null") = false ->
  (exists res,
     net (length log) (origin u ++ path) = Some res /\ rich (Some res) = true /\
     tryPath u path net log = (inr (Some (usableFrom res)), log ++ [origin u ++ path])) \/
  (rich (net (length log) (origin u ++ path)) = false /\
   tryPath u path net log = (inr None, log ++ [origin u ++ path])).
Proof.
  intros Ho. rewrite tryPath_run, (retryUrl_tuple u path Ho).
  destruct (net (length log) (origin u ++ path)) as [res|] eqn:Hnet; [|by right].
  destruct (rich (Some res)) eqn:Hrich; [left; by exists res | by right].
Qed.

Lemma tryPaths_tuple u net : forall paths log,
  streq (origin u) (lit "null") = false ->
  exists found n,
    (n <= length paths)%nat /\
    tryPaths u paths net log
    = (inr found, log ++ map (fun path => origin u ++ path) (firstn n paths)) /\
    match found with
    | Some r =>
        exists res k, r = usableFrom res /\ rich (Some res) = true /\
          (k < n)%nat /\ n = S k /\
          net (length log + k)%nat (origin u ++ nth k paths []) = Some res
    | None => n = length paths
    end.
Proof.
  induction paths as [|path paths IH]; intros log Ho.
  - exists None, 0%nat. cbn. rewrite app_nil_r. repeat split; lia.
  - cbn [tryPaths]. unfold bind.
    destruct (tryPath_cases u path net log Ho) as [(res & Hnet & Hrich & ->)|[Hpoor ->]].
    + exists (Some (usableFrom res)), 1%nat. cbn [length firstn map]. unfold ret.
      split; [lia|]. split; [reflexivity|].
      exists res, 0%nat. rewrite Nat.add_0_r. cbn [nth]. repeat split; try done. lia.
    + destruct (IH (log ++ [origin u ++ path]) Ho) as (found & n & Hn & Hrun & Hfound).
      exists found, (S n). cbn [length firstn map]. split; [lia|].
      rewrite Hrun, <- app_assoc. split; [reflexivity|].
      rewrite length_app in Hfound. cbn [length] in Hfound.
      destruct found as [r|].
      * destruct Hfound as (res' & k & -> & Hr & Hk & -> & Hat).
        exists res', (S k). repeat split; try done; try lia.
        cbn [nth]. by replace (length log + S k)%nat with (length log + 1 + k)%nat by lia.
      * by rewrite Hfound.
Qed.

(** The loop over the alternate paths of a URL whose origin is opaque: no URL
    can be built, nothing is probed and nothing is found. *)
Lemma tryPaths_opaque u net : forall paths log,
  streq (origin u) (lit "null") = true ->
  tryPaths u paths net log = (inr None, log).
Proof.
  induction paths as [|path paths IH]; intros log Ho; [reflexivity|].
  cbn [tryPaths]. unfold bind.
  rewrite tryPath_run, (retryUrl_opaque u path Ho). by apply IH.
Qed.

(** The loop over the alternate paths never throws; it probes the alternate
    URLs that can be built, in order, up to the one it accepts, and what it
    accepts is a rich answer to its last probe. *)
Lemma tryPaths_run u net : forall paths log,
  exists found n,
    (n <= length paths)%nat /\
    tryPaths u paths net log
    = (inr found, log ++ omap (fun path => retryUrl path u) (firstn n paths)) /\
    match found with
    | Some r =>
        exists res k, r = usableFrom res /\ rich (Some res) = true /\
          (k < n)%nat /\ n = S k /\
          streq (origin u) (lit "null") = false /\
          net (length log + k)%nat (origin u ++ nth k paths []) = Some res
    | None => n = length paths
    end.
Proof.
  intros paths log. destruct (streq (origin u) (lit "null")) eqn:Ho.
  - exists None, (length paths). split; [lia|].
    rewrite (tryPaths_opaque u net paths log Ho), (omap_retryUrl_opaque u _ Ho), app_nil_r.
    by split.
  - destruct (tryPaths_tuple u net paths log Ho) as (found & n & Hn & Hrun & Hfound).
    exists found, n. split; [exact Hn|].
    rewrite (omap_retryUrl_tuple u _ Ho). split; [exact Hrun|].
    destruct found as [r|]; [|exact Hfound].
    destruct Hfound as (res & k & H1 & H2 & H3 & H4 & H5).
    exists res, k. repeat split; done.
Qed.

(** The probes made are the first ones of the list. *)
Lemma firstn_probeOrder u n :
  href u :: omap (fun path => retryUrl path u) (firstn n altPaths)
  = firstn (S n) (probeOrder u).
Proof.
  unfold probeOrder. rewrite firstn_cons. f_equal.
  destruct (streq (origin u) (lit "null")) eqn:Ho.
  - rewrite !(omap_retryUrl_opaque u _ Ho). by destruct n.
  - rewrite !(omap_retryUrl_tuple u _ Ho). by rewrite firstn_map.
Qed.

(** X8.  Whatever the network answers, the engine makes at most five probes,
    and they are the first ones of a fixed list: the URL itself, then the
    four alternate paths on its origin, in the order of [altPaths] (the URL
    alone when its origin is opaque and no alternate URL can be built). *)
Theorem probes_in_fixed_order (u : URL) (net : Net) :
  exists n, (n <= 5)%nat /\
    snd (run (fetchWithSmartFallback u) net) = firstn n (probeOrder u).
Proof.
  unfold run, fetchWithSmartFallback.
  destruct (streq (protocol u) (lit "http:")); [by exists 0%nat; split; [lia|]|].
  destruct (isAssetURL u); [by exists 0%nat; split; [lia|]|].
  unfold bind at 1, fetch.
  change (length (@nil jsstring)) with 0%nat. change ([] ++ [href u]) with [href u].
  assert (Hone : exists n, (n <= 5)%nat /\ [href u] = firstn n (probeOrder u)).
  { exists 1%nat. split; [lia | reflexivity]. }
  destruct (net 0%nat (href u)) as [first|]; [|exact Hone].
  destruct (negb (status first =? 200)%Z); [exact Hone|].
  destruct (isBotProtectionResponse _ _); [exact Hone|].
  destruct (nonHtml _); [exact Hone|].
  destruct (cdnSignature _); [exact Hone|].
  destruct (_ <? 5)%nat; [|exact Hone].
  unfold bind.
  destruct (tryPaths_run u net altPaths [href u]) as (found & n & Hn & -> & _).
  exists (S n). split; [cbn in Hn; lia|].
  rewrite <- firstn_probeOrder.
  by destruct found.
Qed.

Lemma rich_spec res :
  rich (Some res) = true ->
  status res = 200%Z /\ (5 <= headerCount (headersToObject (resHeaders res)))%nat.
Proof.
  unfold rich. intros [H1 H2]%andb_true_iff.
  split; [by apply Z.eqb_eq | by apply Nat.leb_le].
Qed.

(** X9.  A usable result always carries a response with status 200 and five
    headers or more: the response is the answer to the last probe made, the
    headers are its header object and the content type is read from them. *)
Theorem usable_result_is_rich (u : URL) (net : Net) (res : Response)
    (headers : gmap jsstring jsstring) (contentType : option jsstring)
    (log : list jsstring) :
  run (fetchWithSmartFallback u) net
  = (inr (SuccessfulFetchResult res headers contentType), log) ->
  status res = 200%Z /\
  (5 <= headerCount headers)%nat /\
  headers = headersToObject (resHeaders res) /\
  contentType = orNull (headers !! lit "content-type") /\
  net (length log - 1)%nat (List.last log []) = Some res.
Proof.
  unfold run, fetchWithSmartFallback.
  destruct (streq (protocol u) (lit "http:")); [done|].
  destruct (isAssetURL u); [done|].
  unfold bind at 1, fetch.
  change (length (@nil jsstring)) with 0%nat. change ([] ++ [href u]) with [href u].
  destruct (net 0%nat (href u)) as [first|] eqn:Hnet; [|done].
  destruct (negb (status first =? 200)%Z) eqn:Hst; [done|].
  destruct (isBotProtectionResponse _ _); [done|].
  destruct (nonHtml _); [done|].
  destruct (cdnSignature _); [done|].
  destruct (headerCount (headersToObject (resHeaders first)) <? 5)%nat eqn:Hcount.
  - unfold bind.
    destruct (tryPaths_run u net altPaths [href u]) as (found & n & Hn & -> & Hfound).
    destruct found as [r|]; [|unfold ret; by destruct (serverOf _)].
    destruct Hfound as (res' & k & -> & Hrich & Hk & -> & Ho & Hat).
    change (length [href u] + k)%nat with (S k) in Hat.
    rewrite (omap_retryUrl_tuple u _ Ho), (firstn_paths u altPaths (S k)) by done.
    rewrite seq_S, map_app.
    change (map ?f [?x]) with [f x]. change (0 + k)%nat with k.
    remember (map (fun i => origin u ++ nth i altPaths []) (seq 0 k)) as before.
    assert (Hlen : length before = k) by (subst before; by rewrite length_map, length_seq).
    unfold ret, usableFrom. intros [Hv <-]%pair_equal_spec.
    injection Hv as <- <- <-.
    destruct (rich_spec _ Hrich) as [H1 H2]. repeat split; try done.
    rewrite app_assoc, last_last, !length_app, Hlen.
    cbn [length]. by replace (1 + k + 1 - 1)%nat with (S k) by lia.
  - unfold ret. intros [= <- <- <- <-].
    apply negb_false_iff, Z.eqb_eq in Hst. apply Nat.ltb_ge in Hcount.
    repeat split; done.
Qed.

(** The page answers with three headers, [/en-us/] cannot be reached,
    [/index.html] answers with eight. *)
Lemma usable_result_is_rich_witness :
  run (fetchWithSmartFallback Examples.page) Examples.edgeNet
  = (inr (usableFrom Examples.edgeAnswer),
     href Examples.page :: map (altUrl Examples.page) (seq 0 2)) /\
  status Examples.edgeAnswer = 200%Z /\
  (5 <= headerCount (headersToObject (resHeaders Examples.edgeAnswer)))%nat.
Proof.
  assert (H : run (fetchWithSmartFallback Examples.page) Examples.edgeNet
              = (inr (usableFrom Examples.edgeAnswer),
                 href Examples.page :: map (altUrl Examples.page) (seq 0 2))).
  { vm_compute. reflexivity. }
  split; [exact H|].
  destruct (usable_result_is_rich _ _ _ _ _ _ H) as (H1 & H2 & _).
  split; [exact H1 | exact H2].
Defined.

(** X10.  When the first probe fails in transport the engine throws what
    [fetch] threw, after that one probe: no alternate path is tried. *)
Theorem first_probe_failure_is_thrown (u : URL) (net : Net) :
  protocol u <> lit "http:" ->
  isAssetURL u = None ->
  net 0%nat (href u) = None ->
  run (fetchWithSmartFallback u) net = (inl (TransportError (href u)), [href u]).
Proof.
  intros Hp Ha Hnet. unfold run, fetchWithSmartFallback.
  rewrite (not_http u Hp), Ha. unfold bind, fetch.
  change (length (@nil jsstring)) with 0%nat. by rewrite Hnet.
Qed.

(** The page, on a network that is down. *)
Lemma first_probe_failure_is_thrown_witness :
  run (fetchWithSmartFallback Examples.page) Examples.noNet
  = (inl (TransportError (href Examples.page)), [href Examples.page]).
Proof.
  apply (first_probe_failure_is_thrown Examples.page Examples.noNet).
  - vm_compute. discriminate.
  - vm_compute. reflexivity.
  - reflexivity.
Defined.

(** X11.  When the first answer is sparse and no alternate path gives a rich
    answer (a probe that fails in transport counts as none), every alternate
    URL that can be built is probed and the result is the CDN outcome for the
    first answer: its server header, or [unknown], and its number of headers.
    The probes are the URL and the four alternates, or the URL alone when its
    origin is opaque. *)
Theorem escalation_exhausted (u : URL) (net : Net) (first : Response) :
  protocol u <> lit "http:" ->
  isAssetURL u = None ->
  net 0%nat (href u) = Some first ->
  sparse first ->
  (forall k, (k < length altPaths)%nat -> rich (altAnswer net u k) = false) ->
  run (fetchWithSmartFallback u) net
  = (inr (CDNDetectionResult
            (match serverOf (headersToObject (resHeaders first)) with
             | [] => lit "unknown"
             | server => server
             end)
            (headerCount (headersToObject (resHeaders first))) sparseMessage),
     probeOrder u) /\
  probeOrder u
  = if streq (origin u) (lit "null") then [href u]
    else href u :: map (altUrl u) (seq 0 4).
Proof.
  intros Hp Ha Hnet Hsparse Hnone. split; [|apply probeOrder_cases].
  rewrite (sparse_first_probe u net first Hp Ha Hnet Hsparse).
  destruct (tryPaths_run u net altPaths [href u]) as (found & n & Hn & -> & Hfound).
  destruct found as [r|].
  - destruct Hfound as (res & k & _ & Hrich & Hk & -> & Ho & Hat).
    specialize (Hnone k ltac:(lia)).
    rewrite (altAnswer_tuple net u k Ho) in Hnone. unfold altUrl in Hnone.
    change (length [href u] + k)%nat with (S k) in Hat.
    rewrite Hat in Hnone. congruence.
  - rewrite Hfound. by rewrite firstn_all.
Qed.

(** The page answers with three headers and no other probe is answered. *)
Lemma escalation_exhausted_witness :
  run (fetchWithSmartFallback Examples.page) Examples.onlyFirstNet
  = (inr (CDNDetectionResult (lit "unknown") 3 sparseMessage), probeOrder Examples.page) /\
  probeOrder Examples.page
  = if streq (origin Examples.page) (lit "null") then [href Examples.page]
    else href Examples.page :: map (altUrl Examples.page) (seq 0 4).
Proof.
  apply (escalation_exhausted Examples.page Examples.onlyFirstNet Examples.sparseAnswer).
  - vm_compute. discriminate.
  - vm_compute. reflexivity.
  - reflexivity.
  - repeat split; try (vm_compute; reflexivity). vm_compute. lia.
  - intros k _. reflexivity.
Defined.

(** On a network where every alternate would answer richly, the page is
    answered from [/en-us/] after two probes; the URL with an opaque origin
    has no alternate that can be built and gets the CDN outcome after its one
    probe. *)
Lemma opaque_origin_is_not_escalated :
  run (fetchWithSmartFallback Examples.page) Examples.deeperNet
  = (inr (usableFrom Examples.edgeAnswer),
     [lit "https://example.com/"; lit "https://example.com/en-us/"]) /\
  retryUrl (lit "/en-us/") Examples.localFile = None /\
  run (fetchWithSmartFallback Examples.localFile) Examples.deeperNet
  = (inr (CDNDetectionResult (lit "unknown") 3 sparseMessage),
     [lit "file:///srv/site/index"]).
Proof. repeat split; vm_compute; reflexivity. Qed.

(** What the heuristic answers for the status 200. *)
Lemma bot_protection_at_200 headers detectedType :
  isBotProtectionResponse headers 200 = Some detectedType ->
  detectedType = lit "Cloudflare Challenge" \/ detectedType = lit "Akamai Bot Protection".
Proof.
  unfold isBotProtectionResponse. destruct (_ && _); [intros [= <-]; by left|].
  change (200 =? 429)%Z with false. change (200 =? 503)%Z with false. cbv iota.
  destruct (match headers !! lit "server" with Some _ => _ | None => _ end);
    [intros [= <-]; by right | done].
Qed.

(** X12.  A bot-protection outcome is always for a first answer with status
    200, after one probe, and its type is the Cloudflare challenge or the
    Akamai one: the engine never reports the types the heuristic has for the
    statuses 429 and 503. *)
Theorem bot_protection_never_names_a_status (u : URL) (net : Net)
    (detectedType message : jsstring) (log : list jsstring) :
  run (fetchWithSmartFallback u) net
  = (inr (BotProtectionWarning detectedType message), log) ->
  (detectedType = lit "Cloudflare Challenge" \/
   detectedType = lit "Akamai Bot Protection") /\
  message = botProtectionMessage detectedType /\
  log = [href u] /\
  exists res, net 0%nat (href u) = Some res /\ status res = 200%Z.
Proof.
  unfold run, fetchWithSmartFallback.
  destruct (streq (protocol u) (lit "http:")); [done|].
  destruct (isAssetURL u); [done|].
  unfold bind at 1, fetch.
  change (length (@nil jsstring)) with 0%nat. change ([] ++ [href u]) with [href u].
  destruct (net 0%nat (href u)) as [first|] eqn:Hnet; [|done].
  destruct (negb (status first =? 200)%Z) eqn:Hst; [done|].
  apply negb_false_iff, Z.eqb_eq in Hst. rewrite Hst.
  destruct (isBotProtectionResponse _ _) as [t|] eqn:Hbot.
  { unfold ret. intros [Hv <-]%pair_equal_spec. injection Hv as <- <-.
    split; [exact (bot_protection_at_200 _ _ Hbot)|]. repeat split. by exists first. }
  destruct (nonHtml _); [done|].
  destruct (cdnSignature _); [done|].
  destruct (_ <? 5)%nat; [|done].
  unfold bind.
  destruct (tryPaths_run u net altPaths [href u]) as (found & n & Hn & -> & Hfound).
  destruct found as [r|]; [|unfold ret; by destruct (serverOf _)].
  destruct Hfound as (res' & k & -> & _). done.
Qed.

(** The page, answered from the CDN edge. *)
Lemma bot_protection_never_names_a_status_witness :
  run (fetchWithSmartFallback Examples.page) Examples.akamaiNet
  = (inr (BotProtectionWarning (lit "Akamai Bot Protection")
            (botProtectionMessage (lit "Akamai Bot Protection"))),
     [href Examples.page]) /\
  exists res,
    Examples.akamaiNet 0%nat (href Examples.page) = Some res /\ status res = 200%Z.
Proof.
  assert (H : run (fetchWithSmartFallback Examples.page) Examples.akamaiNet
              = (inr (BotProtectionWarning (lit "Akamai Bot Protection")
                        (botProtectionMessage (lit "Akamai Bot Protection"))),
                 [href Examples.page])).
  { vm_compute. reflexivity. }
  split; [exact H|].
  destruct (bot_protection_never_names_a_status _ _ _ _ _ H) as (_ & _ & _ & Hres).
  exact Hres.
Defined.

(** X13.  A non-200 outcome comes after one probe and is of two kinds: the
    first answer had another status than 200, which the outcome carries with
    its status text; or it had status 200 and a content type that is neither
    HTML nor XHTML, and the outcome carries the status code 200. *)
Theorem non200_warning_kinds (u : URL) (net : Net) (statusCode : Z)
    (text message : jsstring) (log : list jsstring) :
  run (fetchWithSmartFallback u) net
  = (inr (Non200StatusWarning statusCode text message), log) ->
  log = [href u] /\
  exists res,
    net 0%nat (href u) = Some res /\ statusCode = status res /\
    ((statusCode <> 200%Z /\ text = statusText res /\ message = non200Message res) \/
     (statusCode = 200%Z /\
      exists ct,
        headersToObject (resHeaders res) !! lit "content-type" = Some ct /\
        includes (lit "text/html") ct = false /\
        includes (lit "application/xhtml") ct = false /\
        text = lit "Non-HTML Content (" ++ ct ++ lit ")" /\
        message = nonHtmlMessage ct)).
Proof.
  unfold run, fetchWithSmartFallback.
  destruct (streq (protocol u) (lit "http:")); [done|].
  destruct (isAssetURL u); [done|].
  unfold bind at 1, fetch.
  change (length (@nil jsstring)) with 0%nat. change ([] ++ [href u]) with [href u].
  destruct (net 0%nat (href u)) as [first|] eqn:Hnet; [|done].
  destruct (negb (status first =? 200)%Z) eqn:Hst.
  { unfold ret. intros [Hv <-]%pair_equal_spec. injection Hv as <- <- <-.
    split; [done|]. exists first. repeat split. left.
    apply negb_true_iff, Z.eqb_neq in Hst. done. }
  apply negb_false_iff, Z.eqb_eq in Hst.
  destruct (isBotProtectionResponse _ _); [done|].
  destruct (nonHtml _) as [ct|] eqn:Hct.
  { unfold ret. intros [Hv <-]%pair_equal_spec. injection Hv as <- <- <-.
    split; [done|]. exists first. repeat split. right. split; [done|].
    exists ct. unfold nonHtml, orNull in Hct.
    destruct (headersToObject (resHeaders first) !! lit "content-type") as [v|];
      [|done].
    destruct (truthy (Some v)); [|done].
    destruct (negb (includes (lit "text/html") v)) eqn:H1; [|done].
    destruct (negb (includes (lit "application/xhtml") v)) eqn:H2; [|done].
    injection Hct as ->. apply negb_true_iff in H1, H2. done. }
  destruct (cdnSignature _); [done|].
  destruct (_ <? 5)%nat; [|done].
  unfold bind.
  destruct (tryPaths_run u net altPaths [href u]) as (found & n & Hn & -> & Hfound).
  destruct found as [r|]; [|unfold ret; by destruct (serverOf _)].
  destruct Hfound as (res' & k & -> & _). done.
Qed.

(** The page, answered with JSON. *)
Lemma non200_warning_kinds_witness :
  run (fetchWithSmartFallback Examples.page) Examples.apiNet
  = (inr (Non200StatusWarning 200 (lit "Non-HTML Content (application/json)")
            (nonHtmlMessage (lit "application/json"))),
     [href Examples.page]) /\
  exists res,
    Examples.apiNet 0%nat (href Examples.page) = Some res /\ 200%Z = status res.
Proof.
  assert (H : run (fetchWithSmartFallback Examples.page) Examples.apiNet
              = (inr (Non200StatusWarning 200 (lit "Non-HTML Content (application/json)")
                        (nonHtmlMessage (lit "application/json"))),
                 [href Examples.page])).
  { vm_compute. reflexivity. }
  split; [exact H|].
  destruct (non200_warning_kinds _ _ _ _ _ _ H) as (_ & res & Hnet & Hst & _).
  exists res. split; [exact Hnet | exact Hst].
Defined.

(** X14.  An asset outcome is given without any probe, for a URL whose
    scheme is not plaintext HTTP, and the extension it carries is one of the
    list, with which the path of the URL, lower-cased, ends. *)
Theorem asset_warning_is_for_an_asset_path (u : URL) (net : Net)
    (extension message : jsstring) (log : list jsstring) :
  run (fetchWithSmartFallback u) net = (inr (AssetURLWarning extension message), log) ->
  log = [] /\
  protocol u <> lit "http:" /\
  In extension assetExtensions /\
  endsWith extension (toLowerCase (pathname u)) = true /\
  message = assetMessage extension.
Proof.
  unfold run, fetchWithSmartFallback.
  destruct (streq (protocol u) (lit "http:")) eqn:Hp; [done|].
  unfold streq in Hp. apply bool_decide_eq_false in Hp.
  destruct (isAssetURL u) as [ext|] eqn:Ha.
  { unfold ret. intros [Hv <-]%pair_equal_spec. injection Hv as <- <-.
    unfold isAssetURL in Ha. apply find_some in Ha as [Hin Hend]. done. }
  unfold bind at 1, fetch.
  change (length (@nil jsstring)) with 0%nat. change ([] ++ [href u]) with [href u].
  destruct (net 0%nat (href u)) as [first|] eqn:Hnet; [|done].
  destruct (negb (status first =? 200)%Z); [done|].
  destruct (isBotProtectionResponse _ _); [done|].
  destruct (nonHtml _); [done|].
  destruct (cdnSignature _); [done|].
  destruct (_ <? 5)%nat; [|done].
  unfold bind.
  destruct (tryPaths_run u net altPaths [href u]) as (found & n & Hn & -> & Hfound).
  destruct found as [r|]; [|unfold ret; by destruct (serverOf _)].
  destruct Hfound as (res' & k & -> & _). done.
Qed.

(** [https://example.com/logo.png]. *)
Lemma asset_warning_is_for_an_asset_path_witness :
  run (fetchWithSmartFallback Examples.logo) Examples.noNet
  = (inr (AssetURLWarning (lit ".png") (assetMessage (lit ".png"))), []) /\
  In (lit ".png") assetExtensions /\
  endsWith (lit ".png") (toLowerCase (pathname Examples.logo)) = true.
Proof.
  assert (H : run (fetchWithSmartFallback Examples.logo) Examples.noNet
              = (inr (AssetURLWarning (lit ".png") (assetMessage (lit ".png"))), [])).
  { vm_compute. reflexivity. }
  split; [exact H|].
  destruct (asset_warning_is_for_an_asset_path _ _ _ _ _ H) as (_ & _ & H1 & H2 & _).
  split; [exact H1 | exact H2].
Defined.

(** X15.  A CDN outcome is for a first answer with status 200 whose number
    of headers it carries, and is of two kinds: the server header of the
    answer holds [akamai], [ghost] or [netstorage], one probe was made and
    the message is the one about the CDN edge; or it does not, the answer has
    fewer than five headers, the URL and every alternate URL that can be
    built were probed (all four, or none when the origin of the URL is
    opaque) and the message is the one about too few headers. *)
Theorem cdn_outcome_kinds (u : URL) (net : Net) (detectedServer : jsstring)
    (count : nat) (message : jsstring) (log : list jsstring) :
  run (fetchWithSmartFallback u) net
  = (inr (CDNDetectionResult detectedServer count message), log) ->
  exists first,
    net 0%nat (href u) = Some first /\
    status first = 200%Z /\
    count = headerCount (headersToObject (resHeaders first)) /\
    ((message = cdnMessage /\ log = [href u] /\
      detectedServer = serverOf (headersToObject (resHeaders first)) /\
      cdnSignature detectedServer = true) \/
     (message = sparseMessage /\ log = probeOrder u /\
      probeOrder u
      = (if streq (origin u) (lit "null") then [href u]
         else href u :: map (altUrl u) (seq 0 4)) /\
      (count < 5)%nat /\
      cdnSignature (serverOf (headersToObject (resHeaders first))) = false /\
      detectedServer
      = match serverOf (headersToObject (resHeaders first)) with
        | [] => lit "unknown"
        | server => server
        end)).
Proof.
  unfold run, fetchWithSmartFallback.
  destruct (streq (protocol u) (lit "http:")); [done|].
  destruct (isAssetURL u); [done|].
  unfold bind at 1, fetch.
  change (length (@nil jsstring)) with 0%nat. change ([] ++ [href u]) with [href u].
  destruct (net 0%nat (href u)) as [first|] eqn:Hnet; [|done].
  destruct (negb (status first =? 200)%Z) eqn:Hst; [done|].
  apply negb_false_iff, Z.eqb_eq in Hst.
  destruct (isBotProtectionResponse _ _); [done|].
  destruct (nonHtml _); [done|].
  fold (serverOf (headersToObject (resHeaders first))).
  destruct (cdnSignature _) eqn:Hcdn.
  { unfold ret. intros [Hv <-]%pair_equal_spec. injection Hv as <- <- <-.
    exists first. repeat split; try done. by left. }
  destruct (_ <? 5)%nat eqn:Hcount; [|done].
  apply Nat.ltb_lt in Hcount.
  unfold bind.
  destruct (tryPaths_run u net altPaths [href u]) as (found & n & Hn & -> & Hfound).
  destruct found as [r|].
  { destruct Hfound as (res' & k & -> & _). done. }
  rewrite Hfound, firstn_all. fold (probeOrder u).
  unfold ret. intros [Hv <-]%pair_equal_spec. injection Hv as <- <- <-.
  exists first. repeat split; try done. right.
  split; [reflexivity|]. split; [reflexivity|]. split; [apply probeOrder_cases|].
  repeat split; try done.
  by destruct (serverOf _).
Qed.

(** The page answers with three headers and no other probe is answered. *)
Lemma cdn_outcome_kinds_witness :
  run (fetchWithSmartFallback Examples.page) Examples.onlyFirstNet
  = (inr (CDNDetectionResult (lit "unknown") 3 sparseMessage), probeOrder Examples.page) /\
  exists first,
    Examples.onlyFirstNet 0%nat (href Examples.page) = Some first /\
    status first = 200%Z /\
    3%nat = headerCount (headersToObject (resHeaders first)).
Proof.
  assert (H : run (fetchWithSmartFallback Examples.page) Examples.onlyFirstNet
              = (inr (CDNDetectionResult (lit "unknown") 3 sparseMessage),
                 probeOrder Examples.page)).
  { vm_compute. reflexivity. }
  split; [exact H|].
  destruct (cdn_outcome_kinds _ _ _ _ _ _ H) as (first & H1 & H2 & H3 & _).
  exists first. split; [exact H1 | split; [exact H2 | exact H3]].
Defined.

End EngineSpec.

(** ** Cookies folded into one header value *)

Module CookieSpec.
Import Utils HeaderProcessor JSSpec.

Lemma spanUnits_inv f : forall s x y,
  spanUnits f s = (x, y) ->
  s = x ++ y /\ forallb f x = true /\
  match y with [] => True | c :: _ => f c = false end.
Proof.
  induction s as [|c s IH]; intros x y; cbn [spanUnits].
  - by intros [= <- <-].
  - destruct (f c) eqn:Hc.
    + destruct (spanUnits f s) as [a b]. intros [= <- <-].
      destruct (IH a b eq_refl) as (-> & Ha & Hb). cbn [forallb]. by rewrite Hc.
    + intros [= <- <-]. by rewrite Hc.
Qed.

(** A run that is cut by a comma or by the end of the input is the run of the
    input before it. *)
Lemma spanUnits_before f s rest :
  f 44 = false -> commaOrEnd rest ->
  spanUnits f (s ++ rest) = (fst (spanUnits f s), snd (spanUnits f s) ++ rest).
Proof.
  intros Hf Hrest. destruct (spanUnits f s) as [a b] eqn:E.
  destruct (spanUnits_inv f s a b E) as (-> & Ha & Hb). cbn [fst snd].
  rewrite <- app_assoc. apply spanUnits_app; [done|].
  destruct b as [|c b]; [|done]. destruct rest as [|d rest]; [done|].
  cbn in Hrest. by subst.
Qed.

Lemma startsCookie_before s rest :
  commaOrEnd rest -> startsCookie (s ++ rest) = startsCookie s.
Proof.
  intros Hrest. unfold startsCookie.
  rewrite (spanUnits_before isCookieNameUnit s rest eq_refl Hrest).
  destruct (spanUnits isCookieNameUnit s) as [name r]. cbn [fst snd].
  destruct name as [|n name]; [done|].
  destruct r as [|c r]; [|done]. destruct rest as [|d rest]; [done|].
  cbn in Hrest. by subst.
Qed.

Lemma cookieSeparator_other c s : c <> 44 -> cookieSeparator (c :: s) = 0%nat.
Proof.
  intros Hc. unfold cookieSeparator.
  destruct c as [|p]; [done|].
  do 6 (destruct p as [p|p|]; try done).
Qed.

(** Whether the separator matches at a unit of a cookie does not depend on
    what follows the cookie in a joined value. *)
Lemma cookieSeparator_before c s rest :
  commaOrEnd rest ->
  cookieSeparator ((c :: s) ++ rest) = cookieSeparator (c :: s).
Proof.
  intros Hrest. cbn [app].
  destruct (N.eqb_spec c 44) as [->|Hc].
  - unfold cookieSeparator.
    rewrite (spanUnits_before isWhiteSpace s rest eq_refl Hrest).
    destruct (spanUnits isWhiteSpace s) as [ws r]. cbn [fst snd].
    by rewrite (startsCookie_before r rest Hrest).
  - by rewrite !cookieSeparator_other.
Qed.

(** The units of a piece with no separator inside are read into the piece at
    hand. *)
Lemma splitLoop_quiet piece rest : forall cur,
  quiet piece = true -> commaOrEnd rest ->
  splitLoop cookieSeparator 0 cur (piece ++ rest)
  = splitLoop cookieSeparator 0 (rev piece ++ cur) rest.
Proof.
  intros cur Hp Hrest. revert cur.
  induction piece as [|c piece IH]; intros cur; [reflexivity|].
  cbn [quiet] in Hp. apply andb_true_iff in Hp as [Hc Hp]. apply Nat.eqb_eq in Hc.
  pose proof (cookieSeparator_before c piece rest Hrest) as Hsep.
  cbn [app] in Hsep. cbn [app splitLoop]. rewrite Hsep, Hc, (IH Hp).
  cbn [rev]. by rewrite <- app_assoc.
Qed.

(** The units a match of the separator covers are passed over. *)
Lemma splitLoop_skip sep ws : forall cur rest,
  splitLoop sep (length ws) cur (ws ++ rest) = splitLoop sep 0 cur rest.
Proof. induction ws as [|c ws IH]; intros cur rest; [reflexivity|]. apply IH. Qed.

Lemma startsCookie_head s :
  startsCookie s = true ->
  exists c s', s = c :: s' /\ isCookieNameUnit c = true.
Proof.
  unfold startsCookie. destruct (spanUnits isCookieNameUnit s) as [name r] eqn:E.
  destruct (spanUnits_inv _ _ _ _ E) as (-> & Hn & _).
  destruct name as [|n name]; [done|]. intros _.
  cbn [forallb] in Hn. apply andb_true_iff in Hn as [Hn _]. by exists n, (name ++ r).
Qed.

Lemma name_unit_no_space c : isCookieNameUnit c = true -> isWhiteSpace c = false.
Proof.
  unfold isCookieNameUnit, isLetter, isUpperAZ, isLowerAZ, isDigit, isWhiteSpace.
  intros H. units_in H; units.
Qed.

Lemma name_unit_no_comma c : isCookieNameUnit c = true -> c <> 44.
Proof. intros H ->. done. Qed.

(** The separator between two joined cookies: the comma and the space. *)
Lemma cookieSeparator_joint next :
  startsCookie next = true -> cookieSeparator (44 :: 32 :: next) = 2%nat.
Proof.
  intros Hn. destruct (startsCookie_head next Hn) as (c & s' & -> & Hc).
  change (cookieSeparator (44 :: 32 :: c :: s'))
    with (let '(ws, r') := spanUnits isWhiteSpace ([32] ++ c :: s') in
          if startsCookie r' then S (length ws) else 0%nat).
  rewrite (spanUnits_app isWhiteSpace [32] (c :: s') eq_refl (name_unit_no_space c Hc)).
  by rewrite Hn.
Qed.

Lemma joinCookies_cons cookie next rest :
  joinCookies (cookie :: next :: rest)
  = cookie ++ 44 :: 32 :: joinCookies (next :: rest).
Proof. reflexivity. Qed.

Lemma startsCookie_joinCookies cookie rest :
  forallb wellFormed (cookie :: rest) = true ->
  startsCookie (joinCookies (cookie :: rest)) = true.
Proof.
  cbn [forallb]. intros [[Hc _]%andb_true_iff _]%andb_true_iff.
  destruct rest as [|next rest]; [exact Hc|].
  rewrite joinCookies_cons.
  by rewrite (startsCookie_before cookie (44 :: 32 :: joinCookies (next :: rest)) eq_refl).
Qed.

(** Splitting what [joinCookies] joined gives the cookies back. *)
Lemma splitLoop_joinCookies : forall cookies cookie,
  forallb wellFormed (cookie :: cookies) = true ->
  splitLoop cookieSeparator 0 [] (joinCookies (cookie :: cookies)) = cookie :: cookies.
Proof.
  induction cookies as [|next rest IH]; intros cookie Hall.
  - cbn [forallb] in Hall. apply andb_true_iff in Hall as [[_ Hq]%andb_true_iff _].
    cbn [joinCookies]. rewrite <- (app_nil_r cookie) at 1.
    rewrite (splitLoop_quiet cookie [] [] Hq I). cbn [splitLoop].
    by rewrite app_nil_r, rev_involutive.
  - pose proof Hall as Hall'. cbn [forallb] in Hall.
    apply andb_true_iff in Hall as [[_ Hq]%andb_true_iff Hrest].
    rewrite joinCookies_cons.
    rewrite (splitLoop_quiet cookie (44 :: 32 :: joinCookies (next :: rest)) [] Hq eq_refl).
    cbn [splitLoop].
    rewrite (cookieSeparator_joint _ (startsCookie_joinCookies next rest Hrest)).
    cbn [splitLoop]. rewrite app_nil_r, rev_involutive. f_equal.
    by apply IH.
Qed.

Lemma wellFormed_nonEmpty cookies :
  forallb wellFormed cookies = true -> List.filter nonEmpty cookies = cookies.
Proof.
  induction cookies as [|c cookies IH]; [done|]. cbn [forallb List.filter].
  intros [[Hc _]%andb_true_iff Hall]%andb_true_iff.
  destruct (startsCookie_head c Hc) as (n & s' & -> & _). cbn [nonEmpty].
  by rewrite (IH Hall).
Qed.

(** X16.  When the header value is one or more cookies joined with a comma
    and a space, each starting with its name and an equals sign and with no
    separator inside (a comma in an [Expires] date is none), the cookies
    counted are exactly the cookies joined: the total is their number and
    each attribute count is the number of them that hold the attribute's
    name. *)
Theorem joined_cookies_are_split_back (cookie : jsstring) (cookies : list jsstring) :
  forallb wellFormed (cookie :: cookies) = true ->
  analyzeCookies (Some (joinCookies (cookie :: cookies)))
  = mkCookieStats (length (cookie :: cookies))
      (countIncludes (lit "secure") (cookie :: cookies))
      (countIncludes (lit "httponly") (cookie :: cookies))
      (countIncludes (lit "samesite") (cookie :: cookies)).
Proof.
  intros Hall. unfold analyzeCookies, splitBy.
  rewrite (splitLoop_joinCookies cookies cookie Hall), (wellFormed_nonEmpty _ Hall).
  destruct (joinCookies (cookie :: cookies)) eqn:E; [|reflexivity].
  pose proof (startsCookie_joinCookies cookie cookies Hall) as H.
  rewrite E in H. done.
Qed.

(** A session cookie with an expiry date and the [Secure] attribute, and a
    second cookie with [SameSite]. *)
Lemma joined_cookies_are_split_back_witness :
  analyzeCookies (Some (joinCookies [Examples.sessionCookie; Examples.themeCookie]))
  = mkCookieStats 2
      (countIncludes (lit "secure") [Examples.sessionCookie; Examples.themeCookie])
      (countIncludes (lit "httponly") [Examples.sessionCookie; Examples.themeCookie])
      (countIncludes (lit "samesite") [Examples.sessionCookie; Examples.themeCookie]).
Proof.
  apply (joined_cookies_are_split_back Examples.sessionCookie [Examples.themeCookie]).
  vm_compute. reflexivity.
Defined.

(** The first piece of a split that has read a unit already is not empty. *)
Lemma splitLoop_first sep : forall s cur,
  cur <> [] ->
  exists piece pieces, splitLoop sep 0 cur s = piece :: pieces /\ piece <> [].
Proof.
  assert (Hrev : forall cur : jsstring, cur <> [] -> rev cur <> []).
  { intros cur Hcur Hr. apply Hcur. by rewrite <- (rev_involutive cur), Hr. }
  induction s as [|c s IH]; intros cur Hcur; cbn [splitLoop].
  - exists (rev cur), []. split; [done | by apply Hrev].
  - destruct (sep (c :: s)) as [|k].
    + by apply IH.
    + exists (rev cur), (splitLoop sep k [] s). split; [done | by apply Hrev].
Qed.

(** X17.  A header value that is not empty counts one cookie at least,
    whatever it holds. *)
Theorem header_counts_a_cookie (header : jsstring) :
  header <> [] -> (1 <= total (analyzeCookies (Some header)))%nat.
Proof.
  intros Hne. destruct header as [|c s]; [done|].
  unfold analyzeCookies. cbn [total]. unfold splitBy. cbn [splitLoop].
  assert (Hone : forall cur s', cur <> [] -> forall front,
            (1 <= length (List.filter nonEmpty
                            (front ++ splitLoop cookieSeparator 0 cur s')))%nat).
  { intros cur s' Hcur front.
    destruct (splitLoop_first cookieSeparator s' cur Hcur) as (p & ps & -> & Hp).
    rewrite List.filter_app, length_app. cbn [List.filter].
    destruct p; [done|]. cbn [nonEmpty length]. lia. }
  destruct (cookieSeparator (c :: s)) as [|k] eqn:Hsep.
  - apply (Hone [c] s ltac:(done) []).
  - destruct (N.eqb_spec c 44) as [->|Hc];
      [|by rewrite (cookieSeparator_other c s Hc) in Hsep].
    unfold cookieSeparator in Hsep.
    destruct (spanUnits isWhiteSpace s) as [ws r] eqn:Hws.
    destruct (startsCookie r) eqn:Hr; [|done]. injection Hsep as <-.
    destruct (spanUnits_inv _ _ _ _ Hws) as (-> & _ & _).
    rewrite splitLoop_skip.
    destruct (startsCookie_head r Hr) as (n & r' & -> & Hn).
    cbn [splitLoop]. rewrite (cookieSeparator_other n r' (name_unit_no_comma n Hn)).
    apply (Hone [n] r' ltac:(done) [[]]).
Qed.

(** A header value that is a comma and a cookie. *)
Lemma header_counts_a_cookie_witness :
  (1 <= total (analyzeCookies (Some (lit ", a=1"))))%nat.
Proof. apply (header_counts_a_cookie (lit ", a=1")). discriminate. Defined.

End CookieSpec.

(** ** The reply of the model, from the binding to the result *)

Module ReplySpec.
Import Json Utils HeaderProcessor Analyzer JSSpec AnalyzerSpec NormalizeSpec.

(** X18.  White space before and after the reply does not change what is
    recovered from it. *)
Theorem recover_ignores_padding (a response b : jsstring) :
  forallb isWhiteSpace a = true ->
  forallb isWhiteSpace b = true ->
  recover (a ++ response ++ b) = recover response.
Proof.
  intros Ha Hb. unfold recover.
  rewrite (recoverBody_stripped (a ++ response ++ b) response); [reflexivity|].
  by rewrite (trim_padding a response b Ha Hb).
Qed.

(** The reply after a line feed and a space, and before a line feed. *)
Lemma recover_ignores_padding_witness :
  recover ([10; 32] ++ Examples.reply ++ [10]) = recover Examples.reply.
Proof.
  apply (recover_ignores_padding [10; 32] Examples.reply [10]); reflexivity.
Defined.

(** *** A fence tagged [json] *)

(** The opening fence is removed with the line feed after it, and the body
    and the closing fence are left. *)
Lemma removeMatches_tagged t :
  noBacktick t = true ->
  removeMatches openingFence 0 (lit "```json" ++ t ++ lit "```")
  = match t with
    | c :: t' => if c =? 10 then t' else t
    | [] => []
    end ++ lit "```".
Proof.
  intros Ht. lits. cbn [app].
  destruct t as [|c t].
  - reflexivity.
  - cbn [noBacktick forallb] in Ht. apply andb_true_iff in Ht as [Hc Ht].
    destruct (N.eqb_spec c 10) as [->|Hn].
    + change (removeMatches openingFence 0
                (96 :: 96 :: 96 :: 106 :: 115 :: 111 :: 110 :: (10 :: t) ++ [96; 96; 96]))
        with (removeMatches openingFence 0 (t ++ [96; 96; 96])).
      by rewrite (removeMatches_plain t _ Ht).
    + assert (Hopen : openingFence
                (96 :: 96 :: 96 :: 106 :: 115 :: 111 :: 110 :: (c :: t) ++ [96; 96; 96])
              = 7%nat).
      { unfold openingFence. lits. cbn [startsWith app skipn N.eqb Pos.eqb andb].
        destruct c as [|p]; [done|]. do 4 (destruct p as [p|p|]; try done). }
      cbn [removeMatches]. rewrite Hopen. cbn [removeMatches].
      change (c :: t ++ [96; 96; 96]) with ((c :: t) ++ [96; 96; 96]).
      rewrite (removeMatches_plain (c :: t) [96; 96; 96]); [reflexivity|].
      cbn [noBacktick forallb]. by rewrite Hc, Ht.
Qed.

Lemma stripFences_json_tag t :
  noBacktick t = true ->
  stripFences (lit "```json" ++ t ++ lit "```") = trim t.
Proof.
  intros Ht. unfold stripFences.
  change (startsWith fence (lit "```json" ++ t ++ lit "```")) with true. cbv iota.
  rewrite (removeMatches_tagged t Ht).
  assert (H : forall t', noBacktick t' = true ->
            trim (removeClosingFence (t' ++ lit "```")) = trim t').
  { intros t' Ht'. rewrite (removeClosingFence_plain t' _ Ht').
    change (removeClosingFence (lit "```")) with (@nil N). by rewrite app_nil_r. }
  destruct t as [|c t]; [by apply H|].
  destruct (N.eqb_spec c 10) as [->|Hn]; [|by apply H].
  cbn [noBacktick forallb] in Ht. apply andb_true_iff in Ht as [_ Ht].
  rewrite (H t Ht). reflexivity.
Qed.

(** X19.  A reply inside a fence tagged [json], with white space around the
    fence or not, with a line feed after the tag and before the closing fence
    or not, is recovered as the text inside the fence is, when that text
    holds no backtick. *)
Theorem tagged_fence_is_stripped (a t b : jsstring) :
  forallb isWhiteSpace a = true ->
  forallb isWhiteSpace b = true ->
  noBacktick t = true ->
  recover (a ++ (lit "```json" ++ t ++ lit "```") ++ b) = recover t.
Proof.
  intros Ha Hb Ht. unfold recover.
  rewrite (recoverBody_stripped _ t); [reflexivity|].
  rewrite (trim_padding a _ b Ha Hb), (stripFences_plain t Ht).
  rewrite trim_tight.
  - by apply stripFences_json_tag.
  - done.
  - rewrite !rev_app_distr. done.
Qed.

(** The reply on a line of its own inside the fence, with a space before the
    fence and a line feed after it. *)
Lemma tagged_fence_is_stripped_witness :
  recover ([32] ++ (lit "```json" ++ ([10] ++ Examples.reply ++ [10]) ++ lit "```") ++ [10])
  = recover ([10] ++ Examples.reply ++ [10]).
Proof.
  apply (tagged_fence_is_stripped [32] ([10] ++ Examples.reply ++ [10]) [10]);
    vm_compute; reflexivity.
Defined.

(** *** The unwrapping of a double-encoded reply *)

(** X20.  The branch that unwraps a reply written as a JSON string literal
    never runs: a text that starts and ends with a double quote fails the
    completeness check before, and the degraded result is returned. *)
Theorem unwrapping_never_runs (response : jsstring) :
  let responseText := stripFences (trim response) in
  startsWith [34] responseText && endsWith [34] responseText = true ->
  truncated response = true /\ recover response = degraded.
Proof.
  intros responseText [_ Hq]%andb_true_iff. subst responseText.
  assert (Ht : truncated response = true).
  { unfold truncated. rewrite stripFences_tight.
    destruct (endsWith (lit "}") _) eqn:H1.
    { by pose proof (endsWith_unit _ _ _ H1 Hq). }
    destruct (endsWith (lit "]") _) eqn:H2.
    { by pose proof (endsWith_unit _ _ _ H2 Hq). }
    reflexivity. }
  split; [exact Ht|]. unfold truncated in Ht. unfold recover, recoverBody.
  by rewrite Ht.
Qed.

(** The reply, written once more as a JSON string literal. *)
Lemma unwrapping_never_runs_witness :
  truncated Examples.doubleEncoded = true /\ recover Examples.doubleEncoded = degraded.
Proof.
  apply (unwrapping_never_runs Examples.doubleEncoded). vm_compute. reflexivity.
Defined.

(** *** The repair pass on a text without control characters *)

Lemma escapeControl_plain c : (c <? 32) = false -> escapeControl c = [c].
Proof.
  intros Hc. unfold escapeControl. rewrite Hc. cbn [andb].
  apply N.ltb_ge in Hc. by units.
Qed.

Lemma repairLoop_plain s : forall prevChar inString escapeNext,
  noControl s = true -> repairLoop s prevChar inString escapeNext = s.
Proof.
  induction s as [|c s IH]; intros prevChar inString escapeNext Hs; [reflexivity|].
  cbn [noControl forallb] in Hs. apply andb_true_iff in Hs as [Hc Hs].
  apply negb_true_iff in Hc. cbn [repairLoop].
  destruct escapeNext; [by rewrite IH|].
  destruct (c =? 92); [by rewrite IH|].
  destruct ((c =? 34) && _); [by rewrite IH|].
  destruct inString; [|by rewrite IH].
  by rewrite (escapeControl_plain c Hc), IH.
Qed.

Lemma escapeControl_length c : (1 <= length (escapeControl c))%nat.
Proof.
  unfold escapeControl.
  repeat match goal with |- context [if ?b then _ else _] => destruct b end;
    cbn; lia.
Qed.

Lemma repairLoop_length s : forall prevChar inString escapeNext,
  (length s <= length (repairLoop s prevChar inString escapeNext))%nat.
Proof.
  induction s as [|c s IH]; intros prevChar inString escapeNext; [done|].
  cbn [repairLoop].
  destruct escapeNext; [cbn [length]; specialize (IH (Some c) inString false); lia|].
  destruct (c =? 92); [cbn [length]; specialize (IH (Some c) inString true); lia|].
  destruct ((c =? 34) && _);
    [cbn [length]; specialize (IH (Some c) (negb inString) false); lia|].
  destruct inString; [|cbn [length]; specialize (IH (Some c) false false); lia].
  rewrite length_app. specialize (IH (Some c) true false).
  pose proof (escapeControl_length c). cbn [length]. lia.
Qed.

(** X21.  The repair pass returns a text without control characters as it
    is, and never returns a text shorter than the one it was given. *)
Theorem repair_keeps_clean_text (jsonText : jsstring) :
  (noControl jsonText = true -> repairControlCharacters jsonText = jsonText) /\
  (length jsonText <= length (repairControlCharacters jsonText))%nat.
Proof.
  split; [apply repairLoop_plain | apply repairLoop_length].
Qed.

(** *** From the binding to the result *)

Lemma recover_shaped response : isAnalysisResult (recover response) = true.
Proof.
  unfold recover. destruct (recoverBody response) as [e|v] eqn:Hbody; [reflexivity|].
  by apply recoverBody_shaped in Hbody.
Qed.

(** X22.  Whatever the model binding does, [analyzeHeaders] returns a value
    of the shape of an analysis result.  When the binding rejects, or what it
    resolves to has no string under [response], the value is the degraded
    result; when it has one, the value is what [recover] makes of that
    string. *)
Theorem analyzeHeaders_never_throws (ai : AI) (headers : gmap jsstring jsstring) :
  let outcome := ai (preprocessHeaders headers) in
  isAnalysisResult (analyzeHeaders ai headers) = true /\
  (forall e, outcome = inl e -> analyzeHeaders ai headers = degraded) /\
  (forall result,
     outcome = inr result ->
     (forall text, read result (lit "response") <> Some (JString text)) ->
     analyzeHeaders ai headers = degraded) /\
  (forall result text,
     outcome = inr result ->
     read result (lit "response") = Some (JString text) ->
     analyzeHeaders ai headers = recover text).
Proof.
  intros outcome. unfold analyzeHeaders. fold outcome.
  split; [|split; [|split]].
  - destruct (replyText outcome); [reflexivity | apply recover_shaped].
  - by intros e ->.
  - intros result -> Hno. unfold replyText, read in *.
    destruct (truthyValue result); [|reflexivity]. cbn [negb].
    destruct (getProperty result (lit "response")) as [e|response]; [reflexivity|].
    destruct (truthyRead response); [|reflexivity]. cbn [negb].
    destruct response as [[ |b|x|text|l|props]|]; try reflexivity.
    by destruct (Hno text).
  - intros result text -> Hread. unfold replyText, read in *.
    destruct result as [ |b|x|str|l|props]; try discriminate.
    cbn [truthyValue negb getProperty] in *. rewrite Hread.
    destruct text as [|c text]; reflexivity.
Qed.

End ReplySpec.

(** ** The routes *)

Module AppSpec.
Import Json Utils HeaderProcessor Analyzer App AnalyzerSpec NormalizeSpec.

(** The route [/api/analyze] up to the test of the cache, for a request that
    asks for a valid URL. *)
Lemma analyze_valid p req body url :
  asks req body url ->
  isValidUrl (parseURL p) (normalizeUrl url) = true ->
  analyze p req
  = if negb (bypasses (read body (lit "bypass_cache")) (bypassQuery req)) then
      match cacheGet p (getCacheKey url) with
      | inl error =>
          mkOutcome (analyzeFailed error) (Some (getCacheKey url)) [] None None None
      | inr cached =>
          if truthyValue cached then
            mkOutcome (mkReply 200 cached) (Some (getCacheKey url)) [] None None None
          else analyzeFresh p (normalizeUrl url) (getCacheKey url) (Some (getCacheKey url))
      end
    else analyzeFresh p (normalizeUrl url) (getCacheKey url) None.
Proof.
  intros (Hbody & Hurl & Hne) Hvalid. unfold analyze. rewrite Hbody.
  unfold read in Hurl |- *.
  destruct (getProperty body (lit "url")) as [e|u]; [done|]. subst u.
  destruct url as [|c url]; [done|]. cbn [truthyRead truthyValue negb].
  rewrite Hvalid. cbn [negb]. by rewrite getCacheKey_normal.
Qed.

(** X23.  A request for a valid URL that does not bypass the cache and finds
    a truthy value under the key of the URL is answered with that value and
    status 200: nothing is probed, the model is not run and nothing is
    written. *)
Theorem cache_hit_short_circuits (p : Platform) (req : Request) (body : json)
    (url : jsstring) (cached : json) :
  asks req body url ->
  isValidUrl (parseURL p) (normalizeUrl url) = true ->
  bypasses (read body (lit "bypass_cache")) (bypassQuery req) = false ->
  cacheGet p (getCacheKey url) = inr cached ->
  truthyValue cached = true ->
  analyze p req
  = mkOutcome (mkReply 200 cached) (Some (getCacheKey url)) [] None None None.
Proof.
  intros Hasks Hvalid Hbypass Hget Hcached.
  rewrite (analyze_valid p req body url Hasks Hvalid), Hbypass. cbn [negb].
  by rewrite Hget, Hcached.
Qed.

(** The request for [example.com] on a worker whose cache holds a result. *)
Lemma cache_hit_short_circuits_witness :
  analyze Examples.cachedWorker Examples.ask
  = mkOutcome (mkReply 200 Examples.replyValue)
      (Some (getCacheKey (lit "example.com"))) [] None None None.
Proof.
  apply (cache_hit_short_circuits Examples.cachedWorker Examples.ask Examples.askBody
           (lit "example.com") Examples.replyValue).
  - repeat split. discriminate.
  - vm_compute. reflexivity.
  - reflexivity.
  - reflexivity.
  - reflexivity.
Defined.

(** What [analyzeFresh] wrote, it wrote for a usable result of the engine. *)
Lemma analyzeFresh_written p normalizedUrl cacheKey cacheRead put :
  cacheWritten (analyzeFresh p normalizedUrl cacheKey cacheRead) = Some put ->
  exists parsed res headers contentType,
    parseURL p normalizedUrl = Some parsed /\
    run (fetchWithSmartFallback parsed) (net p)
    = (inr (SuccessfulFetchResult res headers contentType),
       probes (analyzeFresh p normalizedUrl cacheKey cacheRead)) /\
    put = mkPut cacheKey (stringify (analyzeHeaders (ai p) headers)) 86400 /\
    consulted (analyzeFresh p normalizedUrl cacheKey cacheRead)
    = Some (preprocessHeaders headers).
Proof.
  unfold analyzeFresh.
  destruct (parseURL p normalizedUrl) as [parsed|]; [|done].
  destruct (run (fetchWithSmartFallback parsed) (net p))
    as [[[url]|fetchResult] log] eqn:Hrun; [done|].
  destruct fetchResult as [server n m|m|ext m|sc st m|t m|res headers ct];
    cbn [warningFor]; try done.
  destruct (cachePut p _); cbn [cacheWritten probes consulted]; intros [= <-];
    by exists parsed, res, headers, ct.
Qed.

Lemma analyzeFresh_consulted p normalizedUrl cacheKey cacheRead :
  consulted (analyzeFresh p normalizedUrl cacheKey cacheRead) = None <->
  cacheWritten (analyzeFresh p normalizedUrl cacheKey cacheRead) = None.
Proof.
  unfold analyzeFresh.
  destruct (parseURL p normalizedUrl) as [parsed|]; [|done].
  destruct (run (fetchWithSmartFallback parsed) (net p)) as [[[url]|fetchResult] log];
    [done|].
  destruct (warningFor fetchResult); [done|].
  by destruct (cachePut p _).
Qed.

Lemma analyzeFresh_cacheRead p normalizedUrl cacheKey read :
  cacheRead (analyzeFresh p normalizedUrl cacheKey read) = read.
Proof.
  unfold analyzeFresh. destruct (parseURL p _); [|done].
  destruct (run _ _) as [[[failed]|r] log]; [done|].
  destruct (warningFor r); [done|]. by destruct (cachePut p _).
Qed.

(** The route stops before the engine, or it is [analyzeFresh]. *)
Lemma analyze_cases p req :
  (consulted (analyze p req) = None /\ cacheWritten (analyze p req) = None /\
   probes (analyze p req) = []) \/
  exists body url cacheRead,
    asks req body url /\
    analyze p req = analyzeFresh p (normalizeUrl url) (getCacheKey url) cacheRead.
Proof.
  unfold analyze.
  destruct (jsonBody req) as [e|body] eqn:Hbody; [by left|].
  destruct (getProperty body (lit "url")) as [e|url] eqn:Hurl; [by left|].
  destruct (truthyRead url) eqn:Htruthy; cbn [negb]; [|by left].
  destruct url as [[ |b|x|url|l|props]|]; try by left.
  destruct (isValidUrl _ _); cbn [negb]; [|by left].
  assert (Hasks : asks req body url).
  { split; [done|]. unfold read. rewrite Hurl. split; [done|]. by destruct url. }
  rewrite getCacheKey_normal.
  destruct (bypasses _ _); cbn [negb].
  - right. by exists body, url, None.
  - destruct (cacheGet p (getCacheKey url)) as [e|cached]; [by left|].
    destruct (truthyValue cached); [by left|].
    right. by exists body, url, (Some (getCacheKey url)).
Qed.

(** X24.  The model is run exactly when something is written to the cache,
    and what is written is written for a usable result of the engine: under
    the key of the URL asked for, the text of the analysis of the headers of
    that result, to expire after 86400 seconds.  No warning is analysed or
    cached. *)
Theorem only_usable_results_are_cached (p : Platform) (req : Request) :
  (consulted (analyze p req) = None <-> cacheWritten (analyze p req) = None) /\
  (forall put,
     cacheWritten (analyze p req) = Some put ->
     exists body url parsed res headers contentType,
       asks req body url /\
       parseURL p (normalizeUrl url) = Some parsed /\
       run (fetchWithSmartFallback parsed) (net p)
       = (inr (SuccessfulFetchResult res headers contentType), probes (analyze p req)) /\
       consulted (analyze p req) = Some (preprocessHeaders headers) /\
       put = mkPut (getCacheKey url) (stringify (analyzeHeaders (ai p) headers)) 86400).
Proof.
  destruct (analyze_cases p req) as [(H1 & H2 & H3)|(body & url & cacheRead & Hasks & ->)].
  - rewrite H1, H2. split; [done|]. intros put Hput. done.
  - split; [apply analyzeFresh_consulted|].
    intros put Hput.
    destruct (analyzeFresh_written _ _ _ _ _ Hput)
      as (parsed & res & headers & ct & Hparsed & Hrun & -> & Hconsulted).
    exists body, url, parsed, res, headers, ct. by split.
Qed.

Lemma analyze_misses p req body url cacheRead :
  misses p req body url cacheRead ->
  analyze p req = analyzeFresh p (normalizeUrl url) (getCacheKey url) cacheRead.
Proof.
  intros (Hasks & Hvalid & Hcache). rewrite (analyze_valid p req body url Hasks Hvalid).
  destruct (bypasses _ _); cbn [negb].
  - by subst.
  - destruct Hcache as (-> & cached & -> & ->). reflexivity.
Qed.

(** X25.  When the engine gives a usable result and the model binding
    rejects, the degraded result is the reply, with status 200, and its text
    is written to the cache under the key of the URL like any analysis. *)
Theorem failed_analysis_is_cached (p : Platform) (req : Request) (body : json)
    (url : jsstring) (cacheRead : option jsstring) (parsed : URL) (res : Response)
    (headers : gmap jsstring jsstring) (contentType : option jsstring)
    (log : list jsstring) (e : exn) :
  misses p req body url cacheRead ->
  parseURL p (normalizeUrl url) = Some parsed ->
  run (fetchWithSmartFallback parsed) (net p)
  = (inr (SuccessfulFetchResult res headers contentType), log) ->
  ai p (preprocessHeaders headers) = inl e ->
  cachePut p (mkPut (getCacheKey url) (stringify degraded) 86400) = None ->
  analyze p req
  = mkOutcome (mkReply 200 degraded) cacheRead log (Some (preprocessHeaders headers))
      (Some (mkPut (getCacheKey url) (stringify degraded) 86400)) None.
Proof.
  intros Hmiss Hparsed Hrun Hai Hput.
  rewrite (analyze_misses p req body url cacheRead Hmiss).
  unfold analyzeFresh. rewrite Hparsed, Hrun. cbn [warningFor].
  unfold analyzeHeaders. rewrite Hai. cbn [replyText]. by rewrite Hput.
Qed.

(** The request for [example.com] with [bypass_cache] set, on a worker whose
    model binding fails. *)
Lemma failed_analysis_is_cached_witness :
  analyze Examples.modelDown Examples.askFresh
  = mkOutcome (mkReply 200 degraded) None [href Examples.site]
      (Some (preprocessHeaders (headersToObject (resHeaders Examples.htmlAnswer))))
      (Some (mkPut (getCacheKey (lit "example.com")) (stringify degraded) 86400)) None.
Proof.
  apply (failed_analysis_is_cached Examples.modelDown Examples.askFresh
           Examples.bypassBody (lit "example.com") None Examples.site
           Examples.htmlAnswer (headersToObject (resHeaders Examples.htmlAnswer))
           (orNull (headersToObject (resHeaders Examples.htmlAnswer) !! lit "content-type"))
           [href Examples.site] (Error (lit "model unavailable"))).
  - split; [|split].
    + repeat split. discriminate.
    + vm_compute. reflexivity.
    + reflexivity.
  - vm_compute. reflexivity.
  - vm_compute. reflexivity.
  - reflexivity.
  - reflexivity.
Defined.

Lemma fetchFailed_reply errorMsg :
  code (fetchFailed errorMsg) = 400%Z /\
  exists advice,
    body (fetchFailed errorMsg) = errorBody (lit "Failed to fetch URL. " ++ advice).
Proof.
  unfold fetchFailed. split; [reflexivity|].
  destruct (_ || _); [by eexists|]. destruct (_ || _); [by eexists|].
  destruct (includes _ _); by eexists.
Qed.

(** X26.  When the first probe of the engine fails in transport the reply has
    status 400 and an error that starts with [Failed to fetch URL.], chosen
    by the message of what the probe threw; one probe was made, the model was
    not run and nothing was written. *)
Theorem unreachable_site_is_a_400 (p : Platform) (req : Request) (body : json)
    (url : jsstring) (cacheRead : option jsstring) (parsed : URL) :
  misses p req body url cacheRead ->
  parseURL p (normalizeUrl url) = Some parsed ->
  protocol parsed <> lit "http:" ->
  isAssetURL parsed = None ->
  net p 0%nat (href parsed) = None ->
  analyze p req
  = mkOutcome (fetchFailed (probeError p (href parsed))) cacheRead [href parsed]
      None None None /\
  code (reply (analyze p req)) = 400%Z /\
  exists advice,
    App.body (reply (analyze p req)) = errorBody (lit "Failed to fetch URL. " ++ advice).
Proof.
  intros Hmiss Hparsed Hp Ha Hnet.
  assert (H : analyze p req
              = mkOutcome (fetchFailed (probeError p (href parsed))) cacheRead
                  [href parsed] None None None).
  { rewrite (analyze_misses p req body url cacheRead Hmiss).
    unfold analyzeFresh. rewrite Hparsed.
    assert (Hrun : run (fetchWithSmartFallback parsed) (net p)
                   = (inl (TransportError (href parsed)), [href parsed])).
    { unfold run, fetchWithSmartFallback.
      rewrite (UtilsSpec.not_http parsed Hp), Ha. unfold bind, fetch.
      change (length (@nil jsstring)) with 0%nat. by rewrite Hnet. }
    by rewrite Hrun. }
  rewrite H. split; [reflexivity|]. cbn [reply]. apply fetchFailed_reply.
Qed.

(** The request for [example.com] on a worker whose probes time out. *)
Lemma unreachable_site_is_a_400_witness :
  analyze Examples.offline Examples.ask
  = mkOutcome (fetchFailed (lit "The operation was aborted due to timeout"))
      (Some (getCacheKey (lit "example.com"))) [href Examples.site] None None None /\
  code (reply (analyze Examples.offline Examples.ask)) = 400%Z /\
  exists advice,
    App.body (reply (analyze Examples.offline Examples.ask))
    = errorBody (lit "Failed to fetch URL. " ++ advice).
Proof.
  apply (unreachable_site_is_a_400 Examples.offline Examples.ask Examples.askBody
           (lit "example.com") (Some (getCacheKey (lit "example.com"))) Examples.site).
  - split; [|split].
    + repeat split. discriminate.
    + vm_compute. reflexivity.
    + cbn. split; [reflexivity|]. by exists JNull.
  - vm_compute. reflexivity.
  - vm_compute. discriminate.
  - vm_compute. reflexivity.
  - reflexivity.
Defined.

(** X27.  The routes [/api/analyze] and [/api/clear-cache] address the cache
    entry of a URL by one key, the cache key of the URL as it was sent: what
    the first reads and writes for a request, the second deletes for the same
    request. *)
Theorem analyze_and_clear_share_the_key (p : Platform) (req : Request) (body : json)
    (url : jsstring) :
  asks req body url ->
  cacheDeleted (clearCache p req) = Some (getCacheKey url) /\
  (forall key, cacheRead (analyze p req) = Some key -> key = getCacheKey url) /\
  (forall put, cacheWritten (analyze p req) = Some put -> putKey put = getCacheKey url).
Proof.
  intros Hasks. split; [|split].
  - destruct Hasks as (Hbody & Hurl & Hne). unfold clearCache. rewrite Hbody.
    unfold read in Hurl. destruct (getProperty body (lit "url")) as [e|u]; [done|].
    subst u. destruct url as [|c url]; [done|]. cbn [truthyRead truthyValue].
    rewrite getCacheKey_normal. by destruct (cacheDelete p _).
  - intros key. unfold analyze.
    destruct Hasks as (Hbody & Hurl & Hne). rewrite Hbody.
    unfold read in Hurl. destruct (getProperty body (lit "url")) as [e|u]; [done|].
    subst u. destruct url as [|c url]; [done|]. cbn [truthyRead truthyValue negb].
    destruct (isValidUrl _ _); cbn [negb]; [|done].
    rewrite getCacheKey_normal.
    destruct (bypasses _ _); cbn [negb].
    + by rewrite analyzeFresh_cacheRead.
    + destruct (cacheGet p _) as [e|cached]; [by intros [= <-]|].
      destruct (truthyValue cached); [by intros [= <-]|].
      rewrite analyzeFresh_cacheRead. by intros [= <-].
  - intros put Hput.
    destruct (analyze_cases p req) as [(_ & H2 & _)|(body' & url' & cr & Hasks' & Heq)].
    + rewrite H2 in Hput. done.
    + assert (url' = url) as ->.
      { destruct Hasks as (Hb & Hu & _), Hasks' as (Hb' & Hu' & _).
        assert (body' = body) as -> by congruence. congruence. }
      rewrite Heq in Hput.
      destruct (analyzeFresh_written _ _ _ _ _ Hput)
        as (parsed & res & headers & ct & _ & _ & -> & _).
      reflexivity.
Qed.

(** The request for [example.com] on a worker whose cache holds a result. *)
Lemma analyze_and_clear_share_the_key_witness :
  cacheDeleted (clearCache Examples.cachedWorker Examples.ask)
  = Some (getCacheKey (lit "example.com")) /\
  (forall key,
     cacheRead (analyze Examples.cachedWorker Examples.ask) = Some key ->
     key = getCacheKey (lit "example.com")) /\
  (forall put,
     cacheWritten (analyze Examples.cachedWorker Examples.ask) = Some put ->
     putKey put = getCacheKey (lit "example.com")).
Proof.
  apply (analyze_and_clear_share_the_key Examples.cachedWorker Examples.ask
           Examples.askBody (lit "example.com")).
  repeat split. discriminate.
Defined.

End AppSpec.

(** ** The repair pass on a reply with raw control characters *)

Module RepairSpec.
Import Json Analyzer JSSpec JsonSpec AnalyzerSpec ReplySpec.

(** *** The repair pass on a string written raw *)

(** For a control character the repair pass writes what [QuoteJSONString]
    writes. *)
Lemma escapeControl_quoteUnit c : (c <? 32) = true -> escapeControl c = quoteUnit c.
Proof.
  intros Hc. unfold escapeControl, quoteUnit, unicodeEscape. rewrite Hc.
  apply N.ltb_lt in Hc. by units.
Qed.

(** One unit inside a string that is no quote, no backslash and no control
    character passes. *)
Lemma repairLoop_inside c rest prev :
  (c <? 32) = false -> c <> 34 -> c <> 92 ->
  repairLoop (c :: rest) prev true false = c :: repairLoop rest (Some c) true false.
Proof.
  intros Hc H34 H92. cbn [repairLoop].
  apply N.eqb_neq in H34, H92. rewrite H92, H34. cbn [andb].
  by rewrite (escapeControl_plain c Hc).
Qed.

(** An escape inside a string: the backslash and the unit after it pass. *)
Lemma repairLoop_escape e rest prev :
  repairLoop (92 :: e :: rest) prev true false
  = 92 :: e :: repairLoop rest (Some e) true false.
Proof. reflexivity. Qed.

Lemma hexDigit_inside n :
  n < 16 ->
  (hexDigit n <? 32) = false /\ hexDigit n <> 34 /\ hexDigit n <> 92.
Proof.
  intros Hn. unfold hexDigit. destruct (N.ltb_spec n 10); repeat split; units.
Qed.

Lemma repairLoop_hex n rest prev :
  n < 16 ->
  repairLoop (hexDigit n :: rest) prev true false
  = hexDigit n :: repairLoop rest (Some (hexDigit n)) true false.
Proof.
  intros Hn. destruct (hexDigit_inside n Hn) as (H1 & H2 & H3).
  by apply repairLoop_inside.
Qed.

(** What the pass makes of one unit written raw, inside a string: what
    [QuoteJSONString] writes for the unit.  The unit before what follows is a
    backslash only when the unit written is one. *)
Lemma repairLoop_rawUnit c rest prev :
  exists prev',
    repairLoop (rawUnit c ++ rest) prev true false
    = quoteUnit c ++ repairLoop rest prev' true false /\
    (prev' = Some 92 -> c = 92).
Proof.
  unfold rawUnit. destruct (c <? 32) eqn:Hc.
  - exists (Some c). cbn [app repairLoop].
    apply N.ltb_lt in Hc.
    assert (H92 : (c =? 92) = false) by units.
    assert (H34 : (c =? 34) = false) by units.
    rewrite H92, H34. cbn [andb].
    rewrite escapeControl_quoteUnit by (by apply N.ltb_lt).
    split; [reflexivity|]. intros [= ->]. lia.
  - unfold quoteUnit. apply N.ltb_ge in Hc.
    destruct (N.eqb_spec c 8); [lia|]. destruct (N.eqb_spec c 9); [lia|].
    destruct (N.eqb_spec c 10); [lia|]. destruct (N.eqb_spec c 12); [lia|].
    destruct (N.eqb_spec c 13); [lia|].
    destruct (N.eqb_spec c 34) as [->|H34].
    { exists (Some 34). split; [reflexivity | done]. }
    destruct (N.eqb_spec c 92) as [->|H92].
    { exists (Some 92). split; [reflexivity | done]. }
    destruct ((c <? 32) || isHighSurrogate c || isLowSurrogate c) eqn:He.
    + exists (Some (hexDigit (c mod 16))).
      unfold unicodeEscape, hexPad4. lits. cbn [app].
      rewrite repairLoop_escape.
      rewrite !repairLoop_hex by (apply N.mod_lt; lia).
      split; [reflexivity|]. intros [= H].
      destruct (hexDigit_inside (c mod 16)) as (_ & _ & Hd); [apply N.mod_lt; lia|].
      done.
    + exists (Some c). cbn [app]. rewrite repairLoop_inside; try done.
      * split; [reflexivity|]. by intros [= ->].
      * by apply N.ltb_ge.
Qed.

Lemma endsWithBackslash_cons c d s :
  endsWithBackslash (c :: d :: s) = endsWithBackslash (d :: s).
Proof.
  unfold endsWithBackslash. cbn [rev].
  destruct (rev s) as [|e r]; reflexivity.
Qed.

(** What the pass makes of a string written raw, inside the string: what
    [QuoteJSONString] writes for it. *)
Lemma repairLoop_rawUnits_bound n : forall s rest prev,
  (length s <= n)%nat ->
  exists prev',
    repairLoop (rawUnits s ++ rest) prev true false
    = quoteUnits s ++ repairLoop rest prev' true false /\
    (prev' = Some 92 -> (s = [] /\ prev = Some 92) \/ endsWithBackslash s = true).
Proof.
  induction n as [|n IH]; intros s rest prev Hlen.
  - destruct s; [|simpl in Hlen; lia]. exists prev. split; [reflexivity | by left].
  - destruct s as [|c s]; [exists prev; split; [reflexivity | by left]|].
    simpl in Hlen. cbn [rawUnits quoteUnits].
    assert (Hone : exists prev',
              repairLoop ((rawUnit c ++ rawUnits s) ++ rest) prev true false
              = (quoteUnit c ++ quoteUnits s) ++ repairLoop rest prev' true false /\
              (prev' = Some 92 -> endsWithBackslash (c :: s) = true)).
    { rewrite <- !app_assoc.
      destruct (repairLoop_rawUnit c (rawUnits s ++ rest) prev) as (p1 & -> & Hp1).
      destruct (IH s rest p1 ltac:(lia)) as (p2 & -> & Hp2).
      exists p2. split; [by rewrite <- app_assoc|]. intros Hp.
      destruct (Hp2 Hp) as [[-> Hp1']|Hs].
      - by rewrite (Hp1 Hp1').
      - destruct s as [|d s]; [done|]. by rewrite endsWithBackslash_cons. }
    assert (Hgoal : exists prev',
              repairLoop ((rawUnit c ++ rawUnits s) ++ rest) prev true false
              = (quoteUnit c ++ quoteUnits s) ++ repairLoop rest prev' true false /\
              (prev' = Some 92 ->
               (c :: s = [] /\ prev = Some 92) \/ endsWithBackslash (c :: s) = true)).
    { destruct Hone as (p & Heq & Hp). exists p. split; [exact Heq | auto]. }
    destruct (isHighSurrogate c) eqn:Hh; [|exact Hgoal].
    destruct s as [|d s]; [by rewrite !app_nil_r in Hgoal|].
    destruct (isLowSurrogate d) eqn:Hl; [|exact Hgoal].
    unfold isHighSurrogate in Hh. unfold isLowSurrogate in Hl.
    assert (Hc : (c <? 32) = false /\ c <> 34 /\ c <> 92).
    { units_in Hh. repeat split; units. }
    assert (Hd : (d <? 32) = false /\ d <> 34 /\ d <> 92).
    { units_in Hl. repeat split; units. }
    destruct Hc as (Hc1 & Hc2 & Hc3). destruct Hd as (Hd1 & Hd2 & Hd3).
    cbn [app]. rewrite !repairLoop_inside by done.
    simpl in Hlen.
    destruct (IH s rest (Some d) ltac:(lia)) as (p2 & -> & Hp2).
    exists p2. split; [reflexivity|]. intros Hp. right.
    destruct (Hp2 Hp) as [[-> Hd']|Hs].
    + by injection Hd'.
    + rewrite endsWithBackslash_cons.
      destruct s as [|e s]; [done|]. by rewrite endsWithBackslash_cons.
Qed.

(** A string literal written raw is rewritten to the literal
    [QuoteJSONString] writes, when the string does not end with a backslash;
    the pass is outside the string after it. *)
Lemma repairLoop_rawQuote s rest prev :
  endsWithBackslash s = false ->
  prev <> Some 92 ->
  repairLoop (rawQuote s ++ rest) prev false false
  = quote s ++ repairLoop rest (Some 34) false false.
Proof.
  intros Hs Hprev. unfold rawQuote, quote. rewrite <- !app_assoc. cbn [app].
  cbn [repairLoop]. change (34 =? 92) with false. change (34 =? 34) with true.
  rewrite (bool_decide_eq_false_2 _ Hprev). cbn [negb andb]. f_equal.
  destruct (repairLoop_rawUnits_bound (length s) s (34 :: rest) (Some 34) ltac:(lia))
    as (p & -> & Hp).
  f_equal. cbn [repairLoop]. change (34 =? 92) with false. change (34 =? 34) with true.
  assert (Hp92 : p <> Some 92).
  { intros H. destruct (Hp H) as [[_ H34]|Hb]; [done | congruence]. }
  by rewrite (bool_decide_eq_false_2 _ Hp92).
Qed.

(** *** The repair pass outside strings *)

Lemma repairLoop_outside seg : forall rest prev,
  unquoted seg = true ->
  prev <> Some 92 ->
  exists prev',
    prev' <> Some 92 /\
    repairLoop (seg ++ rest) prev false false = seg ++ repairLoop rest prev' false false.
Proof.
  induction seg as [|c seg IH]; intros rest prev Hseg Hprev; [by exists prev|].
  cbn [unquoted forallb] in Hseg. apply andb_true_iff in Hseg as [Hc Hseg].
  apply negb_true_iff, orb_false_iff in Hc as [H34 H92].
  destruct (IH rest (Some c) Hseg) as (p & Hp & Heq).
  { intros [= ->]. done. }
  exists p. split; [exact Hp|]. cbn [app repairLoop]. rewrite H92, H34. cbn [andb].
  by rewrite Heq.
Qed.

Lemma unquoted_app a b : unquoted (a ++ b) = unquoted a && unquoted b.
Proof. apply forallb_app. Qed.

Lemma unquoted_digits ds : forallb isDigit ds = true -> unquoted ds = true.
Proof.
  unfold unquoted. rewrite !forallb_forall. intros H c Hc. specialize (H c Hc).
  unfold isDigit in H. units_in H. units.
Qed.

Lemma unquoted_ofZ z : unquoted (ofZ z) = true.
Proof.
  unfold ofZ. destruct (Z.to_int z) as [u|u].
  - apply unquoted_digits, digitsOfUint_digits.
  - change (unquoted (45 :: digitsOfUint u)) with (unquoted (digitsOfUint u)).
    apply unquoted_digits, digitsOfUint_digits.
Qed.

(** What [Number::toString] writes has no quote and no backslash. *)
Lemma unquoted_numberToString x : canonical x = true -> unquoted (numberToString x) = true.
Proof.
  destruct x as [| | |negative ds n]; try discriminate.
  cbn [canonical]. intros [Hds _]%andb_true_iff.
  destruct ds as [|d ds]; [reflexivity|].
  pose proof (unquoted_digits _ Hds) as Hall.
  pose proof (forallb_split _ (Z.to_nat n) (d :: ds) Hall) as [Hfirst Hskip].
  change (unquoted (firstn (Z.to_nat n) (d :: ds)) = true) in Hfirst.
  change (unquoted (skipn (Z.to_nat n) (d :: ds)) = true) in Hskip.
  assert (Hzeros : forall k, unquoted (zeros k) = true).
  { intros k. apply unquoted_digits, forallb_isDigit_zeros. }
  assert (Hexp : forall e : Z,
            unquoted (lit "e" ++ (if (e <? 0)%Z then lit "-" else lit "+") ++ ofZ (Z.abs e))
            = true).
  { intros e. rewrite !unquoted_app, unquoted_ofZ. by destruct (e <? 0)%Z. }
  cbn [numberToString]. rewrite unquoted_app.
  apply andb_true_iff. split; [by destruct negative|].
  destruct (_ && _); [by rewrite unquoted_app, Hall, Hzeros|].
  destruct (_ && _); [by rewrite !unquoted_app, Hfirst, Hskip|].
  destruct (_ && _); [by rewrite !unquoted_app, Hzeros, Hall|].
  cbn [unquoted forallb] in Hall. apply andb_true_iff in Hall as [Hd Hrest].
  destruct ds as [|d2 ds].
  - rewrite unquoted_app, Hexp. cbn [unquoted forallb]. by rewrite Hd.
  - do 3 rewrite unquoted_app. rewrite Hexp. fold (unquoted (d2 :: ds)) in Hrest.
    rewrite Hrest. cbn [unquoted forallb]. by rewrite Hd.
Qed.

(** *** The repair pass on a value written raw *)

Lemma repairs_unquoted v :
  writeRaw v = stringify v -> unquoted (stringify v) = true -> repairs v.
Proof.
  intros Hraw Hu rest prev Hprev. rewrite Hraw. by apply repairLoop_outside.
Qed.

Lemma repairLoop_unit c rest prev :
  (c =? 34) = false -> (c =? 92) = false ->
  repairLoop (c :: rest) prev false false = c :: repairLoop rest (Some c) false false.
Proof. intros H34 H92. cbn [repairLoop]. by rewrite H92, H34. Qed.

Lemma repairs_elements l :
  Forall repairs l ->
  forall rest prev,
    prev <> Some 92 ->
    exists prev',
      prev' <> Some 92 /\
      repairLoop (joinComma (map writeRaw l) ++ rest) prev false false
      = joinComma (map stringify l) ++ repairLoop rest prev' false false.
Proof.
  induction l as [|e l IH]; intros Hall rest prev Hprev; [by exists prev|].
  apply Forall_cons_iff in Hall as [He Hall].
  destruct l as [|e2 l].
  - cbn [map joinComma]. by apply He.
  - change (map writeRaw (e :: e2 :: l))
      with (writeRaw e :: writeRaw e2 :: map writeRaw l).
    change (map stringify (e :: e2 :: l))
      with (stringify e :: stringify e2 :: map stringify l).
    rewrite !joinComma_cons.
    change (writeRaw e2 :: map writeRaw l) with (map writeRaw (e2 :: l)).
    change (stringify e2 :: map stringify l) with (map stringify (e2 :: l)).
    rewrite <- !app_assoc. cbn [app].
    destruct (He (44 :: joinComma (map writeRaw (e2 :: l)) ++ rest) prev Hprev)
      as (p1 & Hp1 & ->).
    rewrite repairLoop_unit by reflexivity.
    destruct (IH Hall rest (Some 44) ltac:(done)) as (p2 & Hp2 & ->).
    exists p2. split; [exact Hp2|]. by rewrite <- app_assoc.
Qed.

Lemma rawMember_written k w t :
  rawMember (k, w) ++ t = rawQuote k ++ 58 :: writeRaw w ++ t.
Proof. cbn [rawMember]. lits. by rewrite <- !app_assoc. Qed.

Lemma member_quote k w t : member (k, w) ++ t = quote k ++ 58 :: stringify w ++ t.
Proof. cbn [member]. lits. by rewrite <- !app_assoc. Qed.

Lemma repairs_member k w :
  endsWithBackslash k = false -> repairs w ->
  forall rest prev,
    prev <> Some 92 ->
    exists prev',
      prev' <> Some 92 /\
      repairLoop (rawMember (k, w) ++ rest) prev false false
      = member (k, w) ++ repairLoop rest prev' false false.
Proof.
  intros Hk Hw rest prev Hprev.
  rewrite rawMember_written, (repairLoop_rawQuote k _ prev Hk Hprev).
  rewrite repairLoop_unit by reflexivity.
  destruct (Hw rest (Some 58) ltac:(done)) as (p & Hp & ->).
  exists p. split; [exact Hp|]. by rewrite member_quote.
Qed.

Lemma repairs_members props :
  Forall (fun kv => endsWithBackslash (fst kv) = false /\ repairs (snd kv)) props ->
  forall rest prev,
    prev <> Some 92 ->
    exists prev',
      prev' <> Some 92 /\
      repairLoop (joinComma (map rawMember props) ++ rest) prev false false
      = joinComma (map member props) ++ repairLoop rest prev' false false.
Proof.
  induction props as [|[k w] props IH]; intros Hall rest prev Hprev; [by exists prev|].
  apply Forall_cons_iff in Hall as [[Hk Hw] Hall]. cbn [fst snd] in Hk, Hw.
  destruct props as [|kv2 props].
  - cbn [map joinComma]. by apply repairs_member.
  - change (map rawMember ((k, w) :: kv2 :: props))
      with (rawMember (k, w) :: rawMember kv2 :: map rawMember props).
    change (map member ((k, w) :: kv2 :: props))
      with (member (k, w) :: member kv2 :: map member props).
    rewrite !joinComma_cons.
    change (rawMember kv2 :: map rawMember props) with (map rawMember (kv2 :: props)).
    change (member kv2 :: map member props) with (map member (kv2 :: props)).
    rewrite <- !app_assoc. cbn [app].
    destruct (repairs_member k w Hk Hw
                (44 :: joinComma (map rawMember (kv2 :: props)) ++ rest) prev Hprev)
      as (p1 & Hp1 & ->).
    rewrite repairLoop_unit by reflexivity.
    destruct (IH Hall rest (Some 44) ltac:(done)) as (p2 & Hp2 & ->).
    exists p2. split; [exact Hp2|]. by rewrite <- app_assoc.
Qed.

Lemma writeRaw_object props :
  writeRaw (JObject props) = lit "{" ++ joinComma (map rawMember props) ++ lit "}".
Proof. reflexivity. Qed.

(** The repair pass rewrites the raw text of a value to the text
    [JSON.stringify] writes for it, when no string and no key of the value
    ends with a backslash. *)
Lemma repairs_value v : serializable v = true -> tidy v = true -> repairs v.
Proof.
  induction v as [ |b|x|str|l IH|props IH] using json_nested_ind; intros Hv Ht.
  - by apply repairs_unquoted.
  - apply repairs_unquoted; [reflexivity | by destruct b].
  - apply repairs_unquoted; [reflexivity|]. cbn [serializable] in Hv. cbn [stringify].
    destruct x as [| | |negative ds n]; try discriminate. cbn [isFinite].
    by apply unquoted_numberToString.
  - intros rest prev Hprev. exists (Some 34). split; [done|].
    cbn [tidy] in Ht. apply negb_true_iff in Ht. cbn [writeRaw stringify].
    by apply repairLoop_rawQuote.
  - intros rest prev Hprev. cbn [writeRaw stringify]. lits.
    rewrite <- !app_assoc. cbn [app].
    rewrite repairLoop_unit by reflexivity.
    assert (Hall : Forall repairs l).
    { pose proof (serializable_elements _ Hv) as Hs.
      cbn [tidy] in Ht. rewrite forallb_forall in Ht.
      rewrite List.Forall_forall in IH, Hs |- *.
      intros e He. apply IH; auto. }
    destruct (repairs_elements l Hall (93 :: rest) (Some 91) ltac:(done))
      as (p & Hp & ->).
    rewrite repairLoop_unit by reflexivity.
    exists (Some 93). split; [done|]. by rewrite <- app_assoc.
  - intros rest prev Hprev. rewrite writeRaw_object, stringify_object. lits.
    rewrite <- !app_assoc. cbn [app].
    rewrite repairLoop_unit by reflexivity.
    assert (Hall : Forall (fun kv => endsWithBackslash (fst kv) = false /\ repairs (snd kv))
                     props).
    { destruct (serializable_properties _ Hv) as [_ Hs].
      cbn [tidy] in Ht. rewrite forallb_forall in Ht.
      rewrite List.Forall_forall in IH, Hs |- *.
      intros kv Hkv. specialize (Ht kv Hkv).
      apply andb_true_iff in Ht as [Hk Hw]. apply negb_true_iff in Hk.
      split; [exact Hk|]. apply IH; auto. }
    destruct (repairs_members props Hall (125 :: rest) (Some 123) ltac:(done))
      as (p & Hp & ->).
    rewrite repairLoop_unit by reflexivity.
    exists (Some 125). split; [done|]. by rewrite <- app_assoc.
Qed.

Lemma repair_writeRaw v :
  serializable v = true -> tidy v = true ->
  repairControlCharacters (writeRaw v) = stringify v.
Proof.
  intros Hv Ht. unfold repairControlCharacters.
  destruct (repairs_value v Hv Ht [] None ltac:(done)) as (p & _ & H).
  rewrite !app_nil_r in H. exact H.
Qed.

(** *** [JSON.parse] on a value written raw *)

Lemma scanString_control c t :
  (c <? 32) = true -> scanString (c :: t) = Rejected BadControlCharacter.
Proof.
  intros Hc. cbn [scanString]. rewrite Hc. apply N.ltb_lt in Hc.
  assert (H34 : (c =? 34) = false) by units.
  assert (H92 : (c =? 92) = false) by units.
  by rewrite H34, H92.
Qed.

(** A string written raw is read back as it was, or rejected for a control
    character. *)
Lemma scanString_rawUnits_bound n : forall s rest,
  (length s <= n)%nat ->
  scanString (rawUnits s ++ 34 :: rest) = Ok s rest \/
  scanString (rawUnits s ++ 34 :: rest) = Rejected BadControlCharacter.
Proof.
  induction n as [|n IH]; intros s rest Hlen.
  - destruct s; [by left | simpl in Hlen; lia].
  - destruct s as [|c s]; [by left|]. cbn [rawUnits]. simpl in Hlen.
    assert (Hone : scanString ((rawUnit c ++ rawUnits s) ++ 34 :: rest) = Ok (c :: s) rest \/
                   scanString ((rawUnit c ++ rawUnits s) ++ 34 :: rest)
                   = Rejected BadControlCharacter).
    { rewrite <- app_assoc. unfold rawUnit. destruct (c <? 32) eqn:Hc.
      - right. by apply scanString_control.
      - rewrite scanString_quoteUnit.
        destruct (IH s rest ltac:(lia)) as [-> | ->]; [by left | by right]. }
    destruct (isHighSurrogate c) eqn:Hh; [|exact Hone].
    destruct s as [|d s]; [by rewrite app_nil_r in Hone|].
    destruct (isLowSurrogate d) eqn:Hl; [|exact Hone].
    unfold isHighSurrogate in Hh. unfold isLowSurrogate in Hl.
    cbn [app scanString].
    assert (Hc : (c =? 34) = false /\ (c =? 92) = false /\ (c <? 32) = false).
    { units_in Hh. repeat split; units. }
    assert (Hd : (d =? 34) = false /\ (d =? 92) = false /\ (d <? 32) = false).
    { units_in Hl. repeat split; units. }
    destruct Hc as (-> & -> & ->). destruct Hd as (-> & -> & ->).
    simpl in Hlen.
    destruct (IH s rest ltac:(lia)) as [-> | ->]; [by left | by right].
Qed.

Lemma scanString_rawUnits s rest :
  scanString (rawUnits s ++ 34 :: rest) = Ok s rest \/
  scanString (rawUnits s ++ 34 :: rest) = Rejected BadControlCharacter.
Proof. by apply (scanString_rawUnits_bound (length s)). Qed.

Lemma writeRaw_head v :
  serializable v = true -> exists c t, writeRaw v = c :: t /\ valueStart c = true.
Proof.
  destruct v as [ |b|x|str|l|props]; intros Hv;
    try (by apply (stringify_head _ Hv)).
  - eexists 34, _; split; reflexivity.
  - eexists 91, _; split; reflexivity.
  - eexists 123, _; split; reflexivity.
Qed.

Lemma parseElements_raw l :
  l <> [] ->
  Forall reads l ->
  forall fuel acc rest,
    (2 * length (joinComma (map writeRaw l)) + 1 < fuel)%nat ->
    parseElements fuel acc (joinComma (map writeRaw l) ++ 93 :: rest)
    = Ok (JArray (acc ++ l)) rest \/
    parseElements fuel acc (joinComma (map writeRaw l) ++ 93 :: rest)
    = Rejected BadControlCharacter.
Proof.
  induction l as [|e l IH]; [done|]. intros _ Hall fuel acc rest Hfuel.
  apply Forall_cons_iff in Hall as [He Hall].
  destruct fuel as [|fuel]; [lia|]. rewrite parseElements_step.
  destruct l as [|e2 l].
  - cbn [map joinComma] in *.
    destruct (He fuel (93 :: rest)) as [-> | ->]; [lia | simpl; tauto | | by right].
    rewrite skipSpace_bracket. by left.
  - change (map writeRaw (e :: e2 :: l))
      with (writeRaw e :: writeRaw e2 :: map writeRaw l) in Hfuel |- *.
    rewrite joinComma_cons in Hfuel |- *.
    change (writeRaw e2 :: map writeRaw l) with (map writeRaw (e2 :: l)) in *.
    set (tail := joinComma (map writeRaw (e2 :: l))) in *.
    rewrite length_app in Hfuel. cbn [length] in Hfuel.
    rewrite <- app_assoc. cbn [app].
    destruct (He fuel (44 :: tail ++ 93 :: rest)) as [-> | ->];
      [lia | simpl; tauto | | by right].
    rewrite skipSpace_comma. change (44 =? 44) with true. cbv iota. subst tail.
    destruct (IH ltac:(done) Hall fuel (acc ++ [e]) rest ltac:(lia)) as [-> | ->];
      [left; by rewrite <- app_assoc | by right].
Qed.

Lemma rawMember_length k w :
  length (rawMember (k, w)) = (3 + length (rawUnits k) + length (writeRaw w))%nat.
Proof.
  cbn [rawMember]. unfold rawQuote. lits. rewrite !length_app. cbn [length]. lia.
Qed.

(** One turn of the loop over the members of an object, from a key written
    raw. *)
Lemma parseMembers_raw_step fuel acc key r1 :
  parseMembers (S fuel) acc (rawQuote key ++ 58 :: r1)
  = Rejected BadControlCharacter \/
  parseMembers (S fuel) acc (rawQuote key ++ 58 :: r1)
  = match parseValue fuel r1 with
    | Ok v rest1 =>
        match skipSpace rest1 with
        | c :: r2 =>
            if c =? 44 then parseMembers fuel (setProp key v acc) r2
            else if c =? 125 then Ok (JObject (setProp key v acc)) r2
            else Rejected Unexpected
        | [] => Rejected Unexpected
        end
    | other => other
    end.
Proof.
  unfold rawQuote. rewrite <- !app_assoc. cbn [app parseMembers].
  change (skipSpace (34 :: ?t)) with (34 :: t). cbv iota.
  change (34 =? 34) with true. cbv iota.
  destruct (scanString_rawUnits key (58 :: r1)) as [-> | ->]; [right | by left].
  reflexivity.
Qed.

Lemma parseMembers_raw props :
  props <> [] ->
  Forall (fun kv => reads (snd kv)) props ->
  forall fuel acc rest,
    List.NoDup (map fst (acc ++ props)) ->
    (2 * length (joinComma (map rawMember props)) + 1 < fuel)%nat ->
    parseMembers fuel acc (joinComma (map rawMember props) ++ 125 :: rest)
    = Ok (JObject (acc ++ props)) rest \/
    parseMembers fuel acc (joinComma (map rawMember props) ++ 125 :: rest)
    = Rejected BadControlCharacter.
Proof.
  induction props as [|[k w] props IH]; [done|].
  intros _ Hall fuel acc rest Hdup Hfuel.
  apply Forall_cons_iff in Hall as [Hw Hall]. cbn [snd] in Hw.
  destruct fuel as [|fuel]; [lia|].
  assert (Hfresh : setProp k w acc = acc ++ [(k, w)]).
  { apply setProp_fresh. rewrite map_app in Hdup. cbn [map fst] in Hdup.
    apply NoDup_remove_2 in Hdup. intros Hin. apply Hdup.
    apply in_or_app. by left. }
  destruct props as [|kv2 props].
  - cbn [map joinComma] in Hfuel |- *. rewrite rawMember_length in Hfuel.
    rewrite rawMember_written.
    destruct (parseMembers_raw_step fuel acc k (writeRaw w ++ 125 :: rest)) as [-> | ->];
      [by right|].
    destruct (Hw fuel (125 :: rest)) as [-> | ->]; [lia | simpl; tauto | | by right].
    rewrite skipSpace_brace. change (125 =? 44) with false.
    change (125 =? 125) with true. cbv iota. left. by rewrite Hfresh.
  - change (map rawMember ((k, w) :: kv2 :: props))
      with (rawMember (k, w) :: rawMember kv2 :: map rawMember props) in Hfuel |- *.
    rewrite joinComma_cons in Hfuel |- *.
    change (rawMember kv2 :: map rawMember props)
      with (map rawMember (kv2 :: props)) in *.
    set (tail := joinComma (map rawMember (kv2 :: props))) in *.
    rewrite length_app, rawMember_length in Hfuel. cbn [length] in Hfuel.
    rewrite <- app_assoc. cbn [app]. rewrite rawMember_written.
    destruct (parseMembers_raw_step fuel acc k (writeRaw w ++ 44 :: tail ++ 125 :: rest))
      as [-> | ->]; [by right|].
    destruct (Hw fuel (44 :: tail ++ 125 :: rest)) as [-> | ->];
      [lia | simpl; tauto | | by right].
    rewrite skipSpace_comma. change (44 =? 44) with true. cbv iota.
    subst tail. rewrite Hfresh.
    destruct (IH ltac:(done) Hall fuel (acc ++ [(k, w)]) rest) as [-> | ->].
    + by rewrite <- app_assoc.
    + lia.
    + left. by rewrite <- app_assoc.
    + by right.
Qed.

(** The raw text of a serializable value is read back as the value, or
    rejected for a control character. *)
Lemma reads_value v : serializable v = true -> reads v.
Proof.
  induction v as [ |b|x|str|l IH|props IH] using json_nested_ind;
    intros Hv fuel rest Hfuel Hrest.
  - left. by apply (parseValue_stringify JNull).
  - left. by apply (parseValue_stringify (JBool b)).
  - left. by apply (parseValue_stringify (JNumber x)).
  - destruct fuel as [|fuel]; [lia|].
    cbn [writeRaw]. unfold rawQuote. rewrite <- ?app_assoc. cbn [app].
    change (parseValue (S fuel) (34 :: ?t))
      with (match scanString t with
            | Ok s r => Ok (JString s) r
            | Rejected e => Rejected e
            | OutOfFuel => OutOfFuel
            end).
    destruct (scanString_rawUnits str rest) as [-> | ->]; [by left | by right].
  - destruct fuel as [|fuel]; [lia|].
    cbn [writeRaw] in Hfuel |- *. revert Hfuel. lits. rewrite ?length_app.
    cbn [length]. intros Hfuel. rewrite <- ?app_assoc. cbn [app].
    destruct l as [|e l]; [by left|].
    pose proof (serializable_elements _ Hv) as Hall.
    assert (Hrt : Forall reads (e :: l)).
    { rewrite List.Forall_forall in IH, Hall |- *. intros x Hx. apply IH; auto. }
    destruct (writeRaw_head e) as (c & t & Hc & Hstart);
      [by inversion Hall|].
    assert (Hj : exists t', joinComma (map writeRaw (e :: l)) = c :: t').
    { cbn [map joinComma]. rewrite Hc. destruct (map writeRaw l); eauto. }
    destruct Hj as [t' Hj]. rewrite Hj at 1 2. cbn [app].
    rewrite (parseValue_array _ _ _ Hstart).
    change (c :: t' ++ 93 :: rest) with ((c :: t') ++ 93 :: rest). rewrite <- Hj.
    by apply (parseElements_raw (e :: l)); [done | done | lia].
  - destruct fuel as [|fuel]; [lia|].
    rewrite writeRaw_object in Hfuel |- *. revert Hfuel. lits.
    rewrite ?length_app. cbn [length]. intros Hfuel.
    rewrite <- ?app_assoc. cbn [app].
    destruct props as [|[k w] props]; [by left|].
    destruct (serializable_properties _ Hv) as [Hdup Hall].
    assert (Hrt : Forall (fun kv => reads (snd kv)) ((k, w) :: props)).
    { rewrite List.Forall_forall in IH, Hall |- *. intros x Hx. apply IH; auto. }
    assert (Hj : exists t', joinComma (map rawMember ((k, w) :: props)) = 34 :: t').
    { cbn [map joinComma rawMember]. unfold rawQuote. destruct (map rawMember props); eauto. }
    destruct Hj as [t' Hj]. rewrite Hj at 1 2. cbn [app].
    rewrite parseValue_object.
    change (34 :: t' ++ 125 :: rest) with ((34 :: t') ++ 125 :: rest). rewrite <- Hj.
    by apply (parseMembers_raw ((k, w) :: props)); [done | done | done | lia].
Qed.

Lemma parse_writeRaw v :
  serializable v = true ->
  parse (writeRaw v) = inr v \/ parse (writeRaw v) = inl BadControlCharacter.
Proof.
  intros Hv. unfold parse.
  pose proof (reads_value v Hv (fuelFor (writeRaw v)) []) as H.
  rewrite app_nil_r in H.
  destruct H as [-> | ->]; [unfold fuelFor; lia | exact I | by left | by right].
Qed.

(** *** The recovery of a reply written raw *)

Lemma writeRaw_object_ends props :
  exists t, rev (writeRaw (JObject props)) = 125 :: t.
Proof. rewrite writeRaw_object. rewrite !rev_app_distr. by eexists. Qed.

(** X28.  When the reply is the text [JSON.stringify] writes for an analysis
    result, but for the control characters inside its strings and keys, which
    are left raw, and no string and no key of the result ends with a
    backslash, the repair pass rewrites the reply to the text
    [JSON.stringify] writes, and the result is recovered as it is. *)
Theorem raw_control_characters_are_repaired (v : json) :
  serializable v = true ->
  tidy v = true ->
  isAnalysisResult v = true ->
  repairControlCharacters (writeRaw v) = stringify v /\
  recover (writeRaw v) = v.
Proof.
  intros Hser Htidy Hshape.
  pose proof (repair_writeRaw v Hser Htidy) as Hrepair. split; [exact Hrepair|].
  assert (Hparse : parseWithRepair (writeRaw v) = inr v).
  { unfold parseWithRepair.
    destruct (parse_writeRaw v Hser) as [-> | ->]; [reflexivity|].
    by rewrite Hrepair, (parse_stringify v Hser). }
  destruct v as [ |b|x|str|l|props]; try discriminate.
  destruct (writeRaw_object_ends props) as [t Ht].
  unfold recover, recoverBody.
  rewrite (trim_tight (writeRaw (JObject props))); [|done | by rewrite Ht].
  change (stripFences (writeRaw (JObject props))) with (writeRaw (JObject props)).
  rewrite (trim_tight (writeRaw (JObject props))); [|done | by rewrite Ht].
  unfold endsWith at 1. rewrite Ht.
  change (startsWith (rev (lit "}")) (125 :: t)) with true.
  change (startsWith [34] (writeRaw (JObject props))) with false.
  cbn [negb andb]. rewrite Hparse. by rewrite (validate_shaped _ Hshape).
Qed.

(** The reply with a raw line feed and a raw tab inside its strings. *)
Lemma raw_control_characters_are_repaired_witness :
  writeRaw Examples.rawControlValue = Examples.rawControlReply /\
  repairControlCharacters (writeRaw Examples.rawControlValue)
  = stringify Examples.rawControlValue /\
  recover (writeRaw Examples.rawControlValue) = Examples.rawControlValue.
Proof.
  split; [vm_compute; reflexivity|].
  apply (raw_control_characters_are_repaired Examples.rawControlValue);
    vm_compute; reflexivity.
Defined.

End RepairSpec.
